(** * AIJmeter: the report data pipeline, embedded and verified

    A shallow embedding of the text-processing core of the JMeter
    post-processing scripts:

    - [scripts/ai_analyze_report.py]   ([markdown_to_html],
      [update_original_report]),
    - [scripts/ai_analyze_report2.py]  ([parse_index_html],
      [call_ai_service], [update_original_report]),
    - [scripts/enhanced_html_report.py] (per-label latency statistics),
    - [scripts/sla_linux_jmeter563.py] (TPS extraction from result logs and
      from rendered reports).

    Conventions of the embedding:

    - Python [str] values are sequences of Unicode code points and are
      modelled as [list N]; a file is the text it holds.
    - The [re] module is modelled by a backtracking matcher over the
      regular-expression fragment the scripts use; it explores alternatives
      in the priority order of CPython's engine (greedy: longest first,
      lazy: shortest first, alternation: left to right), so the first match
      it finds is the match Python reports.
    - Python floats are IEEE doubles ([PrimFloat]) where values read from a
      log are compared, and exact rationals where only counts and their
      ratios matter.
    - A computation that may raise is a value of [result]; [try]/[except]
      are matches on it.
    - Functions of the interpreter and of its libraries that the scripts
      call but do not define (the XML and CSV readers, [int], the clock, the
      Unicode tables, the template parser of [re], the sort of lists of
      doubles) are parameters. *)

From Stdlib Require Import ZArith NArith List Bool Lia String Ascii QArith Qround.
From Stdlib Require Import DecimalString Sorted Floats Uint63.
From stdpp Require Import gmap list.
Import ListNotations.

Local Open Scope N_scope.

(* ===================================================================== *)
(** * Part I: definitions                                                *)
(* ===================================================================== *)

(** ** Python strings *)

Definition char := N.
Definition pystr := list N.

(** UTF-8 decoding of a Rocq string literal, so that the literals of the
    scripts can be written as they appear in the source.  One convention:
    inside the literals of this file the apostrophe (U+0027) stands for the
    double quote (U+0022); none of the embedded Python literals contains an
    apostrophe of its own. *)
Fixpoint utf8_decode (bs : list N) : pystr :=
  match bs with
  | [] => []
  | b0 :: t0 =>
    if b0 <? 128 then b0 :: utf8_decode t0
    else match t0 with
    | [] => [b0]
    | b1 :: t1 =>
      if b0 <? 224 then ((b0 - 192) * 64 + (b1 - 128)) :: utf8_decode t1
      else match t1 with
      | [] => [b0; b1]
      | b2 :: t2 =>
        if b0 <? 240
        then ((b0 - 224) * 4096 + (b1 - 128) * 64 + (b2 - 128)) :: utf8_decode t2
        else match t2 with
        | [] => [b0; b1; b2]
        | b3 :: t3 =>
          ((b0 - 240) * 262144 + (b1 - 128) * 4096 + (b2 - 128) * 64 + (b3 - 128))
            :: utf8_decode t3
        end
      end
    end
  end.

Definition quote_char (c : char) : char := if c =? 39 then 34 else c.

Definition py (s : string) : pystr :=
  map quote_char (utf8_decode (map N_of_ascii (list_ascii_of_string s))).

Definition NL : char := 10.

(** [str.isspace] on one code point, which is also the class [\s] of [re] on
    [str] patterns (CPython's [Py_UNICODE_ISSPACE]). *)
Definition is_space (c : char) : bool :=
  ((9 <=? c) && (c <=? 13)) || ((28 <=? c) && (c <=? 32))
  || (c =? 133) || (c =? 160) || (c =? 5760)
  || ((8192 <=? c) && (c <=? 8202))
  || (c =? 8232) || (c =? 8233) || (c =? 8239) || (c =? 8287) || (c =? 12288).

(** The class [\d] of [re] on [str] patterns is the Unicode category Nd.  Its
    ASCII part is [0-9]; the table of the non-ASCII decimal digits belongs to
    the Unicode database of the interpreter and is a parameter [nd]. *)
Definition is_digit (nd : char -> bool) (c : char) : bool :=
  if c <? 128 then (48 <=? c) && (c <=? 57) else nd c.

Fixpoint str_eqb (a b : pystr) : bool :=
  match a, b with
  | [], [] => true
  | x :: a', y :: b' => (x =? y) && str_eqb a' b'
  | _, _ => false
  end.

(** [s.startswith(p)], giving the remainder of [s]. *)
Fixpoint strip_prefix (p s : pystr) : option pystr :=
  match p with
  | [] => Some s
  | x :: p' =>
    match s with
    | y :: s' => if x =? y then strip_prefix p' s' else None
    | [] => None
    end
  end.

(** [sub in s] *)
Fixpoint str_contains (sub s : pystr) : bool :=
  match strip_prefix sub s with
  | Some _ => true
  | None => match s with [] => false | _ :: s' => str_contains sub s' end
  end.

(** [s.split(sep)] for a one-character separator: every separator cuts, so
    the result is never empty and has one more field than separators. *)
Fixpoint str_split (sep : char) (s : pystr) : list pystr :=
  match s with
  | [] => [[]]
  | c :: s' =>
    if c =? sep then [] :: str_split sep s'
    else match str_split sep s' with
         | f :: fs => (c :: f) :: fs
         | [] => [[c]]
         end
  end.

(** [sep.join(parts)] *)
Fixpoint str_join (sep : pystr) (parts : list pystr) : pystr :=
  match parts with
  | [] => []
  | [p] => p
  | p :: ps => p ++ sep ++ str_join sep ps
  end.

Fixpoint lstrip (s : pystr) : pystr :=
  match s with
  | c :: s' => if is_space c then lstrip s' else s
  | [] => []
  end.

Definition rstrip (s : pystr) : pystr := rev (lstrip (rev s)).

(** [s.strip()] *)
Definition str_strip (s : pystr) : pystr := rstrip (lstrip s).

(** [s.replace(old, new)] for a non-empty [old]: occurrences are replaced
    from left to right without overlap.  [skip] counts the characters of the
    occurrence being replaced that are still to be dropped. *)
Fixpoint str_replace_go (old new : pystr) (skip : nat) (s : pystr) : pystr :=
  match s with
  | [] => []
  | c :: s' =>
    match skip with
    | S n => str_replace_go old new n s'
    | O =>
      match strip_prefix old s with
      | Some _ => new ++ str_replace_go old new (Nat.pred (length old)) s'
      | None => c :: str_replace_go old new O s'
      end
    end
  end.

Definition str_replace (old new s : pystr) : pystr := str_replace_go old new O s.

(** ** Regular expressions ([re])

    The fragment used by the scripts: literals, one-character classes,
    concatenation, alternation, greedy and lazy repetition of a class with a
    lower bound, capturing groups, and the MULTILINE anchors. *)

Inductive regex : Type :=
| Eps
| Chr (c : char)
| Cls (p : char -> bool)
| Cat (r1 r2 : regex)
| Alt (r1 r2 : regex)
| Rep (greedy : bool) (lo : nat) (p : char -> bool)
| Grp (n : nat) (r : regex)
| Bol
| Eol.

(** The matcher state: the character before the cursor, the text after it,
    the cursor's index and the spans of the groups closed so far. *)
Record mstate : Type := MState {
  m_prev : option char;
  m_rest : pystr;
  m_pos : nat;
  m_caps : list (nat * (nat * nat))
}.

Definition advance (st : mstate) (c : char) (s' : pystr) : mstate :=
  MState (Some c) s' (S (m_pos st)) (m_caps st).

Definition set_cap (n a b : nat) (st : mstate) : mstate :=
  MState (m_prev st) (m_rest st) (m_pos st) ((n, (a, b)) :: m_caps st).

(** [^] under MULTILINE: at the start of the text or just after a newline. *)
Definition at_bol (st : mstate) : bool :=
  match m_prev st with None => true | Some c => c =? NL end.

(** [$] under MULTILINE: at the end of the text or just before a newline. *)
Definition at_eol (st : mstate) : bool :=
  match m_rest st with [] => true | c :: _ => c =? NL end.

(** Repetition of a class, [lo] or more times.  Greedy repetition first tries
    one more character and falls back to stopping; lazy repetition first
    tries to stop. *)
Fixpoint rep (greedy : bool) (p : char -> bool) (k : mstate -> option mstate)
    (lo : nat) (prev : option char) (s : pystr) (i : nat)
    (caps : list (nat * (nat * nat))) {struct s} : option mstate :=
  match s with
  | [] => match lo with O => k (MState prev [] i caps) | S _ => None end
  | c :: s' =>
    match lo with
    | S lo' => if p c then rep greedy p k lo' (Some c) s' (S i) caps else None
    | O =>
      if greedy then
        match (if p c then rep greedy p k O (Some c) s' (S i) caps else None) with
        | Some r => Some r
        | None => k (MState prev s i caps)
        end
      else
        match k (MState prev s i caps) with
        | Some r => Some r
        | None => if p c then rep greedy p k O (Some c) s' (S i) caps else None
        end
    end
  end.

(** [re_m r k st]: match [r] at the cursor of [st] and continue with [k];
    [None] when every alternative fails. *)
Fixpoint re_m (r : regex) (k : mstate -> option mstate) (st : mstate)
    : option mstate :=
  match r with
  | Eps => k st
  | Chr c =>
    match m_rest st with
    | x :: s' => if x =? c then k (advance st x s') else None
    | [] => None
    end
  | Cls p =>
    match m_rest st with
    | x :: s' => if p x then k (advance st x s') else None
    | [] => None
    end
  | Cat r1 r2 => re_m r1 (re_m r2 k) st
  | Alt r1 r2 =>
    match re_m r1 k st with
    | Some x => Some x
    | None => re_m r2 k st
    end
  | Rep g lo p => rep g p k lo (m_prev st) (m_rest st) (m_pos st) (m_caps st)
  | Grp n r => re_m r (fun st' => k (set_cap n (m_pos st) (m_pos st') st')) st
  | Bol => if at_bol st then k st else None
  | Eol => if at_eol st then k st else None
  end.

(** A match attempt at one cursor position. *)
Definition match_here (r : regex) (prev : option char) (s : pystr) (i : nat)
    : option mstate :=
  re_m r Some (MState prev s i []).

(** [re.search]: the first position, from the left, where the pattern
    matches; the result is the start index and the final matcher state. *)
Fixpoint search_from (r : regex) (prev : option char) (s : pystr) (i : nat)
    : option (nat * mstate) :=
  match match_here r prev s i with
  | Some st => Some (i, st)
  | None =>
    match s with
    | [] => None
    | c :: s' => search_from r (Some c) s' (S i)
    end
  end.

Definition re_search (r : regex) (text : pystr) : option (nat * mstate) :=
  search_from r None text O.

Definition slice (text : pystr) (a b : nat) : pystr :=
  firstn (b - a) (skipn a text).

Fixpoint cap_lookup (n : nat) (caps : list (nat * (nat * nat)))
    : option (nat * nat) :=
  match caps with
  | [] => None
  | (m, ab) :: rest => if Nat.eqb m n then Some ab else cap_lookup n rest
  end.

(** [match.group(n)] for [n >= 1]; a group that did not take part in the
    match gives the empty string when it is expanded in a replacement. *)
Definition group (text : pystr) (st : mstate) (n : nat) : pystr :=
  match cap_lookup n (m_caps st) with
  | Some (a, b) => slice text a b
  | None => []
  end.

(** A parsed replacement template: literal text and group references. *)
Inductive titem : Type :=
| TLit (s : pystr)
| TGroup (n : nat)
| TWhole.

Definition expand (tmpl : list titem) (text : pystr) (start : nat) (st : mstate)
    : pystr :=
  flat_map (fun it =>
    match it with
    | TLit s => s
    | TGroup n => group text st n
    | TWhole => slice text start (m_pos st)
    end) tmpl.

(** After an empty match the engine looks, at the same position, for a match
    that is not empty before it moves on. *)
Definition match_nonempty_here (r : regex) (prev : option char) (s : pystr)
    (i : nat) : option mstate :=
  re_m r (fun st => if (i <? m_pos st)%nat then Some st else None)
       (MState prev s i []).

(** [re.sub]: scan from the left; a match is replaced and the scan resumes at
    its end.  [skip] counts the characters of the current match still to be
    dropped. *)
Fixpoint sub_go (r : regex) (tmpl : list titem) (text : pystr) (skip : nat)
    (prev : option char) (s : pystr) (i : nat) {struct s} : pystr :=
  match skip with
  | S n =>
    match s with
    | [] => []
    | c :: s' => sub_go r tmpl text n (Some c) s' (S i)
    end
  | O =>
    match match_here r prev s i with
    | Some st =>
      expand tmpl text i st ++
      match s with
      | [] => []
      | c :: s' =>
        match (m_pos st - i)%nat with
        | S n => sub_go r tmpl text n (Some c) s' (S i)
        | O =>
          match match_nonempty_here r prev s i with
          | Some st2 =>
            expand tmpl text i st2 ++
            sub_go r tmpl text (Nat.pred (m_pos st2 - i)) (Some c) s' (S i)
          | None => c :: sub_go r tmpl text O (Some c) s' (S i)
          end
        end
      end
    | None =>
      match s with
      | [] => []
      | c :: s' => c :: sub_go r tmpl text O (Some c) s' (S i)
      end
    end
  end.

Definition re_sub (r : regex) (tmpl : list titem) (text : pystr) : pystr :=
  sub_go r tmpl text O None text O.

(** [re.findall] for a pattern with exactly one group: the list of the
    group's text, one entry per match, matches taken as in [re.sub]. *)
Fixpoint findall_go (r : regex) (text : pystr) (skip : nat)
    (prev : option char) (s : pystr) (i : nat) {struct s} : list pystr :=
  match skip with
  | S n =>
    match s with
    | [] => []
    | c :: s' => findall_go r text n (Some c) s' (S i)
    end
  | O =>
    match match_here r prev s i with
    | Some st =>
      group text st 1 ::
      match s with
      | [] => []
      | c :: s' =>
        match (m_pos st - i)%nat with
        | S n => findall_go r text n (Some c) s' (S i)
        | O =>
          match match_nonempty_here r prev s i with
          | Some st2 =>
            group text st2 1 ::
            findall_go r text (Nat.pred (m_pos st2 - i)) (Some c) s' (S i)
          | None => findall_go r text O (Some c) s' (S i)
          end
        end
      end
    | None =>
      match s with
      | [] => []
      | c :: s' => findall_go r text O (Some c) s' (S i)
      end
    end
  end.

Definition re_findall (r : regex) (text : pystr) : list pystr :=
  findall_go r text O None text O.

(** Pattern combinators. *)
Definition seq_re (rs : list regex) : regex := fold_right Cat Eps rs.
Definition lit (s : pystr) : regex := seq_re (map Chr s).
Definition L (s : string) : regex := lit (py s).
Definition dot (c : char) : bool := negb (c =? NL).      (* [.]            *)
Definition dotall (c : char) : bool := true.             (* [.] with DOTALL *)
Definition ws1 : regex := Rep true 1 is_space.           (* [\s+] *)
Definition ws0 : regex := Rep true 0 is_space.           (* [\s*] *)
Definition lazy_dot : regex := Rep false 0 dot.          (* [.*?] *)
Definition lazy_any : regex := Rep false 0 dotall.       (* [.*?] with DOTALL *)
Definition not_chr (x : char) (c : char) : bool := negb (c =? x).

(** ** Markdown to HTML ([SimpleAIAnalyzer.markdown_to_html]) *)

Module Markdown.

(** The two places of [process_tables] that render an accumulated table (at
    a non-table line and after the last line) are the same code; it is
    embedded once.  [headers] and [cells] keep the fields that are not blank
    after [strip]. *)
Definition table_fields (line : pystr) : list pystr :=
  List.filter (fun f => negb (str_eqb f [])) (map str_strip (str_split 124 line)).

Definition th_open : pystr :=
  py "<th style='border: 1px solid #ddd; padding: 8px; text-align: left; background-color: #f2f2f2;'>".
Definition td_open : pystr :=
  py "<td style='border: 1px solid #ddd; padding: 8px;'>".

Definition render_header (headers : list pystr) : pystr :=
  flat_map (fun h => th_open ++ h ++ py "</th>") headers.

Definition render_row (data_line : pystr) : pystr :=
  match table_fields data_line with
  | [] => []
  | cells =>
    py "<tr>" ++ flat_map (fun c => td_open ++ c ++ py "</td>") cells ++ py "</tr>"
  end.

Definition render_table (table_lines : list pystr) : pystr :=
  match table_lines with
  | header_line :: separator_line :: data_lines =>
    py "<table style='border-collapse: collapse; width: 100%; margin: 20px 0;'>"
    ++ py "<thead>" ++ py "<tr>"
    ++ render_header (table_fields header_line)
    ++ py "</tr>" ++ py "</thead>" ++ py "<tbody>"
    ++ flat_map render_row data_lines
    ++ py "</tbody>" ++ py "</table>"
  | _ => []
  end.

(** The loop state of [process_tables]. *)
Record tstate : Type := TState {
  in_table : bool;
  table_lines : list pystr;
  result : list pystr
}.

Definition has_pipe (line : pystr) : bool := str_contains [124] line.

(** The table is appended only when it has at least the header and the
    separator line. *)
Definition flush (tl res : list pystr) : list pystr :=
  if (2 <=? length tl)%nat then res ++ [render_table tl] else res.

Definition table_step (st : tstate) (line : pystr) : tstate :=
  if has_pipe line then
    TState true (table_lines st ++ [str_strip line]) (result st)
  else
    let res := if in_table st then flush (table_lines st) (result st)
               else result st in
    TState false (if in_table st then [] else table_lines st) (res ++ [line]).

Definition table_finish (st : tstate) : list pystr :=
  if in_table st then flush (table_lines st) (result st) else result st.

Definition process_lines (lines : list pystr) : list pystr :=
  table_finish (fold_left table_step lines (TState false [] [])).

Definition process_tables (text : pystr) : pystr :=
  str_join [NL] (process_lines (str_split NL text)).

(** The substitutions applied after the tables, in the order of the source.
    [nd] is the table of the non-ASCII decimal digits, see [is_digit]. *)
Definition heading_re (marks : string) : regex :=
  seq_re [Bol; L marks; Grp 1 lazy_dot; Eol].
Definition bold_re : regex := seq_re [L "**"; Grp 1 lazy_dot; L "**"].
Definition italic_re : regex := seq_re [L "*"; Grp 1 lazy_dot; L "*"].
Definition code_re : regex := seq_re [L "`"; Grp 1 lazy_dot; L "`"].
Definition code_block_re : regex := seq_re [L "```"; Grp 1 lazy_any; L "```"].
Definition quote_re : regex := seq_re [Bol; L "> "; Grp 1 lazy_dot; Eol].
Definition ul_item_re : regex := seq_re [Bol; L "- "; Grp 1 lazy_dot; Eol].
Definition li_re : regex := Grp 1 (seq_re [L "<li>"; lazy_any; L "</li>"]).
Definition ol_item_re (nd : char -> bool) : regex :=
  seq_re [Bol; Rep true 1 (is_digit nd); L ". "; Grp 1 lazy_dot; Eol].
Definition hr_re : regex := seq_re [Bol; L "---"; Eol].
Definition link_re : regex :=
  seq_re [L "["; Grp 1 lazy_dot; L "]("; Grp 2 lazy_dot; L ")"].

Definition wrap (a b : string) : list titem := [TLit (py a); TGroup 1; TLit (py b)].

Definition markdown_to_html (nd : char -> bool) (markdown_text : pystr) : pystr :=
  let html := process_tables markdown_text in
  let html := re_sub (heading_re "### ") (wrap "<h3>" "</h3>") html in
  let html := re_sub (heading_re "## ") (wrap "<h2>" "</h2>") html in
  let html := re_sub (heading_re "# ") (wrap "<h1>" "</h1>") html in
  let html := re_sub bold_re (wrap "<strong>" "</strong>") html in
  let html := re_sub italic_re (wrap "<em>" "</em>") html in
  let html := re_sub code_re (wrap "<code>" "</code>") html in
  let html := re_sub code_block_re (wrap "<pre><code>" "</code></pre>") html in
  let html := re_sub quote_re (wrap "<blockquote>" "</blockquote>") html in
  let html := re_sub ul_item_re (wrap "<li>" "</li>") html in
  let html := re_sub li_re (wrap "<ul>" "</ul>") html in
  let html := re_sub (ol_item_re nd) (wrap "<li>" "</li>") html in
  let html := re_sub li_re (wrap "<ol>" "</ol>") html in
  let html := re_sub hr_re [TLit (py "<hr>")] html in
  let html := re_sub link_re
                [TLit (py "<a href='"); TGroup 2; TLit (py "' target='_blank'>");
                 TGroup 1; TLit (py "</a>")] html in
  let html := str_replace [NL] (py "<br>") (str_replace [NL; NL] (py "</p><p>") html) in
  let html := py "<p>" ++ html ++ py "</p>" in
  let html := str_replace (py "</p><p></p>") (py "</p>") html in
  let html := str_replace (py "<p></p>") [] html in
  html.

(** Number of occurrences of [pat] in [s], counted without overlap from the
    left as [str.count] does. *)
Fixpoint count_go (pat : pystr) (skip : nat) (s : pystr) : nat :=
  match s with
  | [] => O
  | _ :: s' =>
    match skip with
    | S n => count_go pat n s'
    | O =>
      match strip_prefix pat s with
      | Some _ => S (count_go pat (Nat.pred (length pat)) s')
      | None => count_go pat O s'
      end
    end
  end.

Definition str_count (pat s : pystr) : nat := count_go pat O s.

(** The loop state after a prefix of the lines. *)
Definition run_lines (lines : list pystr) : tstate :=
  fold_left table_step lines (TState false [] []).

(** Outside a table no table line is pending. *)
Definition no_pending (st : tstate) : Prop :=
  in_table st = false -> table_lines st = [].

End Markdown.

(** ** The report patcher ([update_original_report])

    [SimpleAIAnalyzer.update_original_report] of ai_analyze_report.py and
    [AIAnalyzer.update_original_report] of ai_analyze_report2.py use the same
    two patterns (the second script writes [<\/div>] for [</div>]) and the
    same replacement text; the second script first reduces the report path
    to its base name. *)

Module Patcher.

(** The Unpatched placeholder. *)
Definition original_ai_pattern : regex :=
  seq_re [L "<div"; ws1; L "class='stat-card'"; ws1;
          L "style='background-color:"; ws0; L "#fff3cd;'>"; ws0;
          L "<div"; ws1; L "class='stat-value'"; ws1;
          L "style='color:"; ws0; L "#666;'>"; ws0;
          L "AI分析"; ws0; L "</div>"; ws0;
          L "<div"; ws1; L "style='font-size:"; ws0; L "12px;"; ws0;
          L "color:"; ws0; L "#dc3545;"; ws0; L "margin-top:"; ws0;
          L "5px;'>"; ws0; L "无"; ws0; L "</div>"; ws0; L "</div>"].

(** The Patched placeholder: the markup before the link target, the link
    target [.*?] (DOTALL), and the markup after it. *)
Definition updated_before_href : list regex :=
  [L "<div"; ws1; L "class='stat-card'"; ws1;
   L "style='background-color:"; ws0; L "#fff3cd;'>"; ws0;
   L "<div"; ws1; L "class='stat-value'"; ws1;
   L "style='color:"; ws0; L "#666;'>"; ws0;
   L "<a"; ws1; L "href='"].

Definition updated_after_href : list regex :=
  [L "'"; ws1;
   L "style='color:"; ws0; L "#28a745;"; ws0;
   L "text-decoration:"; ws0; L "none;'"; ws1;
   L "target='_blank'>AI分析</a>"; ws0; L "</div>"; ws0;
   L "<div"; ws1; L "style='font-size:"; ws0; L "12px;"; ws0;
   L "color:"; ws0; L "#666;"; ws0; L "margin-top:"; ws0;
   L "5px;'>"; ws0; L "点击查看"; ws0; L "</div>"; ws0; L "</div>"].

Definition updated_ai_pattern : regex :=
  seq_re (updated_before_href ++ [lazy_any] ++ updated_after_href).

Definition indent (n : nat) (s : string) : pystr := repeat 32 n ++ py s.

(** The f-string [new_ai_section], around the interpolated name. *)
Definition section_head : pystr :=
  py "<div class='stat-card' style='background-color: #fff3cd;'>" ++ [NL]
  ++ indent 20 "<div class='stat-value' style='color: #666;'>" ++ [NL]
  ++ indent 24 "<a href='".

Definition section_tail : pystr :=
  py "' style='color: #28a745; text-decoration: none;' target='_blank'>AI分析</a>"
  ++ [NL]
  ++ indent 20 "</div>" ++ [NL]
  ++ indent 20 "<div style='font-size: 12px; color: #666; margin-top: 5px;'>" ++ [NL]
  ++ indent 24 "点击查看" ++ [NL]
  ++ indent 20 "</div>" ++ [NL]
  ++ indent 16 "</div>".

Definition new_ai_section (ai_report_name : pystr) : pystr :=
  section_head ++ ai_report_name ++ section_tail.

Definition BACKSLASH : char := 92.
Definition has_backslash (s : pystr) : bool := existsb (N.eqb BACKSLASH) s.

Definition CR : char := 13.
Definition has_cr (s : pystr) : bool := existsb (N.eqb CR) s.

(** [f.read()] on a file opened in text mode: the newline translation turns
    every [\r\n] and every other [\r] into [\n]. *)
Fixpoint read_text (file : pystr) : pystr :=
  match file with
  | [] => []
  | c :: rest =>
    if c =? CR then
      NL :: match rest with
            | d :: rest' => if d =? NL then read_text rest' else read_text rest
            | [] => []
            end
    else c :: read_text rest
  end.

(** What one call did, as its log message tells. *)
Inductive outcome : Type :=
| Updated          (* the Unpatched placeholder was found and rewritten *)
| AlreadyUpdated   (* the Patched placeholder was found *)
| NotFound         (* neither placeholder was found *)
| Failed.          (* an exception was caught; the file was not written *)

Definition outcome_eq_dec (a b : outcome) : {a = b} + {a <> b}.
Proof. decide equality. Defined.

Section WithTemplateParser.

(** [re.sub] takes a replacement without a backslash literally and hands
    any other to the template parser of the [re] module
    ([re._parser.parse_template], here for a pattern without groups), which
    is not part of the repository: [None] stands for its [re.error]. *)
Variable parse_template : pystr -> option (list titem).

Definition compile_template (repl : pystr) : option (list titem) :=
  if has_backslash repl then parse_template repl else Some [TLit repl].

(** The rewriting of the text of the document: what the call finds and the
    new text.  An exception of [re.sub] is caught before the file is opened
    for writing, and leaves the document as it is. *)
Definition patch_content (content ai_report_name : pystr) : outcome * pystr :=
  match re_search original_ai_pattern content with
  | Some _ =>
    match compile_template (new_ai_section ai_report_name) with
    | Some tmpl => (Updated, re_sub original_ai_pattern tmpl content)
    | None => (Failed, content)
    end
  | None =>
    match re_search updated_ai_pattern content with
    | Some _ => (AlreadyUpdated, content)
    | None => (NotFound, content)
    end
  end.

(** The call on the file: [file] is the decoded text of the summary file,
    the result is what the call did and the text of the file afterwards
    (on a POSIX system, where writing leaves newlines as they are). *)
Definition update_original_report (file ai_report_name : pystr)
    : outcome * pystr :=
  let r := patch_content (read_text file) ai_report_name in
  match fst r with
  | Failed => (Failed, file)
  | _ => r
  end.

(** [os.path.basename] of [posixpath]: the text after the last slash. *)
Definition basename (path : pystr) : pystr := List.last (str_split 47 path) [].

(** The variant of ai_analyze_report2.py. *)
Definition update_original_report2 (file ai_report_file : pystr)
    : outcome * pystr :=
  update_original_report file (basename ai_report_file).

End WithTemplateParser.

(** An Unpatched placeholder: a text the Unpatched pattern matches, with
    one space for every [\s+] and for every [\s*] inside an attribute. *)
Definition unpatched_block : pystr :=
  py "<div class='stat-card' style='background-color: #fff3cd;'>"
  ++ py "<div class='stat-value' style='color: #666;'>AI分析</div>"
  ++ py "<div style='font-size: 12px; color: #dc3545; margin-top: 5px;'>无</div>"
  ++ py "</div>".

End Patcher.

(** ** Numbers

    Where only counts and their ratios matter (the indices of the
    percentiles, requests per second), Python floats are modelled by exact
    rationals: every finite float is a rational, and these quantities stay
    far from the range where rounding changes a truncation.  The latency
    statistics, which compare the elapsed times that [float()] reads from
    the log ([nan] and [inf] included), are modelled over doubles in
    [FloatStats] below. *)

Local Open Scope Q_scope.

(** [int(x)] on a float: truncation toward zero. *)
Definition py_int_of_float (x : Q) : Z := Z.quot (Qnum x) (Zpos (Qden x)).

(** [round(x, 2)]: to the nearest multiple of 1/100, ties to even, on the
    exact quotient.  The interpreter rounds the double nearest to the
    quotient, which misses an exact tie that is not a double: it gives 0.01
    for 2/400, where the rational model gives 0. *)
Definition round_half_even (x : Q) : Z :=
  let n := Qnum x in
  let d := Zpos (Qden x) in
  let q := Z.div n d in
  let r := Z.modulo n d in
  match Z.compare (2 * r) d with
  | Lt => q
  | Gt => (q + 1)%Z
  | Eq => if Z.even q then q else (q + 1)%Z
  end.

Definition round2 (x : Q) : Q := inject_Z (round_half_even (x * 100)) / 100.

(** ** Per-label latency statistics ([generate_enhanced_html_report])

    The rational model: the counts, the indices of the percentiles and the
    sort of times that are numbers. *)

Module Stats.

(** The entry of [stats] for one sampler, restricted to the fields the
    latency summary reads. *)
Record stat : Type := Stat {
  sampleCount : nat;
  errorCount : nat;
  totalTime : Q;
  times : list Q
}.

Definition new_stat : stat := Stat 0 0 0 [].

(** The update of the entry for one row of the result log. *)
Definition add_sample (st : stat) (response_time : Q) (success : bool) : stat :=
  Stat (sampleCount st + 1)
       (if success then errorCount st else errorCount st + 1)
       (totalTime st + response_time)
       (times st ++ [response_time]).

(** [sorted]: the stable ascending sort.  Insertion from the right, each
    element placed before the first one it does not exceed, keeps equal
    elements in their original order. *)
Fixpoint insert_sorted (x : Q) (l : list Q) : list Q :=
  match l with
  | [] => [x]
  | y :: l' => if Qle_bool x y then x :: l else y :: insert_sorted x l'
  end.

Definition sorted (l : list Q) : list Q := fold_right insert_sorted [] l.

(** [min] and [max] of a list: the first smallest and the first largest
    element; [None] stands for the [ValueError] on an empty list. *)
Definition py_min (l : list Q) : option Q :=
  match l with
  | [] => None
  | x :: l' => Some (fold_left (fun m y => if Qle_bool m y then m else y) l' x)
  end.

Definition py_max (l : list Q) : option Q :=
  match l with
  | [] => None
  | x :: l' => Some (fold_left (fun m y => if Qle_bool y m then m else y) l' x)
  end.

(** [l[i]] for [i >= 0]; [None] stands for the [IndexError]. *)
Definition index (l : list Q) (i : nat) : option Q := nth_error l i.

(** [int(len(sorted_times) * p)] *)
Definition pct_index (p : Q) (count : nat) : nat :=
  Z.to_nat (py_int_of_float (inject_Z (Z.of_nat count) * p)).

Definition P90 : Q := 9 # 10.
Definition P95 : Q := 95 # 100.
Definition P99 : Q := 99 # 100.

Record summary : Type := Summary {
  meanResTime : Q;
  medianResTime : Q;
  minResTime : Q;
  maxResTime : Q;
  pct90 : Q;
  pct95 : Q;
  pct99 : Q
}.

(** The body of the loop over [stats.items()], under its guard
    [sampleCount > 0]; [None] when a look-up raises. *)
Definition summarize (st : stat) : option summary :=
  let n := length (times st) in
  let sorted_times := sorted (times st) in
  match index sorted_times (n / 2), py_min (times st), py_max (times st),
        index sorted_times (pct_index P90 n),
        index sorted_times (pct_index P95 n),
        index sorted_times (pct_index P99 n) with
  | Some med, Some mn, Some mx, Some a, Some b, Some c =>
    Some (Summary (totalTime st / inject_Z (Z.of_nat (sampleCount st)))
                  med mn mx a b c)
  | _, _, _, _, _, _ => None
  end.

(** The aggregate of one label after the rows [rows] of the result log. *)
Definition aggregate (rows : list (Q * bool)) : stat :=
  fold_left (fun st r => add_sample st (fst r) (snd r)) rows new_stat.

(** The same product in IEEE double arithmetic, as the interpreter computes
    it: [float_index_is p num den n] tells that the double [n * p] lies in
    [[k, k + 1)] for [k = floor(n * num / den)], so that [int] of it is the
    index of the rational model. *)
Definition float_index_is (p : float) (num den : Z) (n : Z) : bool :=
  let x := PrimFloat.mul (PrimFloat.of_uint63 (Uint63.of_Z n)) p in
  let k := (n * num / den)%Z in
  PrimFloat.leb (PrimFloat.of_uint63 (Uint63.of_Z k)) x
  && PrimFloat.ltb x (PrimFloat.of_uint63 (Uint63.of_Z (k + 1))).

Fixpoint all_from (f : Z -> bool) (count : nat) (n : Z) : bool :=
  match count with
  | O => true
  | S c => f n && all_from f c (n + 1)
  end.

(** The index as the specification words it: [floor(percentile * count)],
    clamped to [count - 1]. *)
Definition spec_index (p : Q) (count : nat) : nat :=
  Nat.min (Z.to_nat (Qfloor (p * inject_Z (Z.of_nat count)))) (count - 1).

End Stats.

(** ** The latency statistics over doubles

    [float()] also accepts [nan] and [inf], and the comparisons of doubles
    that [sorted], [min] and [max] use are not an order where a [nan] takes
    part.  Here the elapsed times are IEEE 754 doubles ([PrimFloat]) and
    every comparison is the one of the doubles.  The indices are those of
    [Stats]. *)

Module FloatStats.

Record stat : Type := Stat {
  sampleCount : nat;
  errorCount : nat;
  totalTime : float;
  times : list float
}.

(** [totalTime] starts as the integer [0], which the first addition
    converts to a double. *)
Definition new_stat : stat := Stat 0 0 PrimFloat.zero [].

Definition add_sample (st : stat) (response_time : float) (success : bool) : stat :=
  Stat (sampleCount st + 1)
       (if success then errorCount st else errorCount st + 1)
       (PrimFloat.add (totalTime st) response_time)
       (times st ++ [response_time]).

Definition aggregate (rows : list (float * bool)) : stat :=
  fold_left (fun st r => add_sample st (fst r) (snd r)) rows new_stat.

(** [min] keeps its candidate unless the next element is less than it,
    [max] unless the next element is greater; [None] stands for the
    [ValueError] on an empty list. *)
Definition py_min (l : list float) : option float :=
  match l with
  | [] => None
  | x :: l' => Some (fold_left (fun m y => if PrimFloat.ltb y m then y else m) l' x)
  end.

Definition py_max (l : list float) : option float :=
  match l with
  | [] => None
  | x :: l' => Some (fold_left (fun m y => if PrimFloat.ltb m y then y else m) l' x)
  end.

(** The conversion of a count to a double. *)
Definition float_of_nat (n : nat) : float :=
  PrimFloat.of_uint63 (Uint63.of_Z (Z.of_nat n)).

Record summary : Type := Summary {
  meanResTime : float;
  medianResTime : float;
  minResTime : float;
  maxResTime : float;
  pct90 : float;
  pct95 : float;
  pct99 : float
}.

Section WithSort.

(** [sorted] is the sort of the interpreter.  It compares with [<] only;
    what it returns for a list that holds a [nan] depends on the runs and
    merges of its algorithm, which is not part of the repository. *)
Variable sorted : list float -> list float.

(** The body of the loop over [stats.items()], under its guard
    [sampleCount > 0]; [None] when a look-up raises. *)
Definition summarize (st : stat) : option summary :=
  let n := length (times st) in
  let sorted_times := sorted (times st) in
  match nth_error sorted_times (n / 2), py_min (times st), py_max (times st),
        nth_error sorted_times (Stats.pct_index Stats.P90 n),
        nth_error sorted_times (Stats.pct_index Stats.P95 n),
        nth_error sorted_times (Stats.pct_index Stats.P99 n) with
  | Some med, Some mn, Some mx, Some a, Some b, Some c =>
    Some (Summary (PrimFloat.div (totalTime st) (float_of_nat (sampleCount st)))
                  med mn mx a b c)
  | _, _, _, _, _, _ => None
  end.

End WithSort.

(** A double that is not [nan], and the order of the doubles. *)
Definition is_number (x : float) : Prop := PrimFloat.is_nan x = false.
Definition fle (a b : float) : Prop := PrimFloat.leb a b = true.

(** What the interpreter's sort guarantees: the result is a rearrangement
    of the list, and it ascends when no element is a [nan]. *)
Definition sort_contract (sorted : list float -> list float) : Prop :=
  (forall l, Permutation (sorted l) l)
  /\ (forall l, Forall is_number l -> StronglySorted fle (sorted l)).

(** A sort that meets the contract: the stable insertion sort. *)
Fixpoint insert_sorted (x : float) (l : list float) : list float :=
  match l with
  | [] => [x]
  | y :: l' => if PrimFloat.ltb y x then y :: insert_sorted x l' else x :: l
  end.

Definition stable_sort (l : list float) : list float :=
  fold_right insert_sorted [] l.

End FloatStats.

(** ** Exceptions

    A Python computation that may raise is a value of [result]; [try] /
    [except] become matches on it.  Only the exception classes the handlers
    of the scripts tell apart are named; every other subclass of [Exception]
    is [OtherError]. *)

Inductive exn : Type :=
| ParseError       (* xml.etree.ElementTree.ParseError *)
| ValueError
| OSError
| Timeout          (* requests.exceptions.Timeout *)
| RequestException (* any other requests.exceptions.RequestException *)
| OtherError.

Inductive result (A : Type) : Type :=
| Ret (a : A)
| Raise (e : exn).
Arguments Ret {A} a.
Arguments Raise {A} e.

Definition bind {A B : Type} (m : result A) (f : A -> result B) : result B :=
  match m with
  | Ret a => f a
  | Raise e => Raise e
  end.

#[export] Instance result_ret : MRet result := fun A a => Ret a.
#[export] Instance result_bind : MBind result := fun A B f m => bind m f.

(** [str(n)] for an integer. *)
Definition str_of_Z (n : Z) : list N :=
  map N_of_ascii (list_ascii_of_string (NilZero.string_of_int (Z.to_int n))).

(** ** TPS from a result log ([calculate_tps_from_jtl],
       [calculate_tps_from_csv_jtl]) *)

Module Jtl.

Local Open Scope Z_scope.

Inductive loglevel : Type := Info | Warning.

(** The outcome of the unit detection of the XML path: the flag the code
    sets and the level of the message it logs. *)
Record unit_decision : Type := UnitDecision {
  is_milliseconds : bool;
  level : loglevel
}.

(** The unit detection of [calculate_tps_from_jtl], a function of the
    smallest and the largest timestamp of the file and of the clock
    ([now] is [int(datetime.datetime.now().timestamp())]). *)
Definition detect_unit (min_ts max_ts now : Z) : unit_decision :=
  if (min_ts =? 1) || (min_ts <? 100) then UnitDecision true Info
  else if max_ts >? now * 1000 * 2 then UnitDecision true Warning
  else
    let time_range := max_ts - min_ts in
    if (1000 <=? time_range) && (time_range <=? 3600000)
    then UnitDecision true Info
    else
      let min_time_sec := min_ts / 1000 in
      let max_time_sec := max_ts / 1000 in
      let time_range_sec := max_time_sec - min_time_sec in
      if (0 <? time_range_sec) && (time_range_sec <=? 3600)
      then UnitDecision true Info
      else UnitDecision true Warning.

(** The unit detection of [calculate_tps_from_csv_jtl]: the timestamps are
    grouped by [ts // 1000] exactly when the smallest one is below 10^9. *)
Definition csv_groups_by_milliseconds (min_ts : Z) : bool := min_ts <? 1000000000.

(** The bounds of the reported time range in the CSV path. *)
Definition csv_time_bounds (min_ts max_ts : Z) : Z * Z :=
  if min_ts <? 1000000000 then
    let min_time_sec := min_ts / 1000 in
    let max_time_sec := max_ts / 1000 in
    let time_range_sec := max_time_sec - min_time_sec in
    if (time_range_sec >? 0) && (time_range_sec <? 86400)
    then (min_time_sec, max_time_sec)
    else (min_ts, max_ts)
  else (min_ts, max_ts).

Definition list_min (x : Z) (l : list Z) : Z := fold_left Z.min l x.
Definition list_max (x : Z) (l : list Z) : Z := fold_left Z.max l x.

(** [tps_by_second[second] = tps_by_second.get(second, 0) + 1] over the
    timestamps. *)
Definition count_second (m : gmap Z nat) (second : Z) : gmap Z nat :=
  <[second := (default 0%nat (m !! second) + 1)%nat]> m.

Definition group_by_second (ms : bool) (timestamps : list Z) : gmap Z nat :=
  fold_left (fun m ts => count_second m (if ms then ts / 1000 else ts))
            timestamps ∅.

Definition nat_list_max (l : list nat) : nat := fold_right Nat.max 0%nat l.
Definition nat_list_min (l : list nat) : nat :=
  match l with
  | [] => 0%nat
  | x :: l' => fold_left Nat.min l' x
  end.

Definition keys (m : gmap Z nat) : list Z := map fst (map_to_list m).
Definition values (m : gmap Z nat) : list nat := map snd (map_to_list m).

Record tps_data : Type := TpsData {
  total_requests : Z;
  test_duration_seconds : Z;
  average_tps : Q;
  peak_tps : Q;
  min_tps : Q;
  tps_by_second : gmap Z nat;
  start_time : pystr;
  end_time : pystr
}.

Definition QofN (n : nat) : Q := inject_Z (Z.of_nat n).

(** One element of the parsed tree, as [root.iter()] yields it. *)
Record element : Type := Element {
  tag : pystr;
  attrib : gmap pystr pystr
}.

Section WithEnvironment.

(** The file system and the library functions the two paths call:
    - [ET_parse]: [ET.parse(jtl_file)] followed by [root.iter()];
    - [csv_rows]: the rows [csv.reader] yields for the file, or the exception
      of [open] or of the iteration;
    - [py_int]: [int(s)] on a string, [None] for its [ValueError];
    - [str_lower]: [str.lower];
    - [now]: [int(datetime.datetime.now().timestamp())];
    - [format_time]: [datetime.datetime.fromtimestamp(t).strftime(..)]. *)
Variable ET_parse : pystr -> result (list element).
Variable csv_rows : pystr -> result (list (list pystr)).
Variable py_int : pystr -> option Z.
Variable str_lower : pystr -> pystr.
Variable now : Z.
Variable format_time : Z -> result pystr.

Definition timestamp_attributes : list pystr :=
  [py "ts"; py "t"; py "timeStamp"; py "timestamp"].

(** The first attribute, in priority order, that is present and whose value
    [int] accepts. *)
Fixpoint first_timestamp (attrs : list pystr) (e : element) : option Z :=
  match attrs with
  | [] => None
  | a :: attrs' =>
    match attrib e !! a with
    | Some ts_str =>
      match py_int ts_str with
      | Some ts => Some ts
      | None => first_timestamp attrs' e
      end
    | None => first_timestamp attrs' e
    end
  end.

Definition is_sample (e : element) : bool :=
  str_eqb (tag e) (py "sample") || str_eqb (tag e) (py "httpSample").

Definition xml_timestamps (elems : list element) : list Z :=
  omap (fun e => if is_sample e then first_timestamp timestamp_attributes e
                 else None) elems.

(** [timestamps.sort()] does not change the grouping, which counts. *)
Definition xml_tps (timestamps : list Z) : result (option tps_data) :=
  match timestamps with
  | [] => Ret None
  | t0 :: rest =>
    let min_ts := list_min t0 rest in
    let max_ts := list_max t0 rest in
    let ms := is_milliseconds (detect_unit min_ts max_ts now) in
    let by_second := group_by_second ms timestamps in
    let total := Z.of_nat (length timestamps) in
    let active_seconds := Z.of_nat (length (keys by_second)) in
    let first_second := match keys by_second with
                        | [] => 0 | k :: ks => list_min k ks end in
    let last_second := match keys by_second with
                       | [] => 0 | k :: ks => list_max k ks end in
    let span := last_second - first_second + 1 in
    let test_duration := if span >? 3600 then active_seconds else span in
    let avg_tps := if test_duration >? 0
                   then (inject_Z total / inject_Z test_duration)%Q else 0%Q in
    let min_time := if ms then min_ts / 1000 else min_ts in
    let max_time := if ms then max_ts / 1000 else max_ts in
    (* except (ValueError, OSError): the raw seconds are printed instead *)
    let fallback t := py "时间戳: " ++ str_of_Z t in
    times ← match (s ← format_time min_time;
                   e ← format_time max_time;
                   Ret (s, e)) with
            | Raise ValueError | Raise OSError =>
              Ret (fallback min_time, fallback max_time)
            | other => other
            end;
    Ret (Some (TpsData total test_duration (round2 avg_tps)
                       (QofN (nat_list_max (values by_second)))
                       (QofN (nat_list_min (values by_second)))
                       by_second (fst times) (snd times)))
  end.

(** The index of the first header column whose lower-cased name contains
    [time] (the second keyword, [timestamp], contains the first). *)
Fixpoint find_timestamp_col (header : list pystr) (i : nat) : option nat :=
  match header with
  | [] => None
  | col_name :: header' =>
    if str_contains (py "time") (str_lower col_name)
       || str_contains (py "timestamp") (str_lower col_name)
    then Some i
    else find_timestamp_col header' (S i)
  end.

Definition csv_timestamps (col : nat) (rows : list (list pystr)) : list Z :=
  omap (fun row =>
          match nth_error row col with
          | Some ts_str =>
            match ts_str with
            | [] => None
            | _ => py_int ts_str
            end
          | None => None
          end) rows.

(** The body of [calculate_tps_from_csv_jtl] under its [try]. *)
Definition csv_body (jtl_file : pystr) : result (option tps_data) :=
  rows ← csv_rows jtl_file;
  match rows with
  | [] => Ret None
  | [] :: _ => Ret None
  | header :: data =>
    match find_timestamp_col header 0 with
    | None => Ret None
    | Some col =>
      match csv_timestamps col data with
      | [] => Ret None
      | t0 :: rest =>
        let timestamps := t0 :: rest in
        let min_ts := list_min t0 rest in
        let max_ts := list_max t0 rest in
        let bounds := csv_time_bounds min_ts max_ts in
        let by_second :=
          group_by_second (csv_groups_by_milliseconds min_ts) timestamps in
        let total := Z.of_nat (length timestamps) in
        let total_seconds :=
          if snd bounds >? fst bounds then snd bounds - fst bounds + 1 else 1 in
        let avg_tps := if total_seconds >? 0
                       then (inject_Z total / inject_Z total_seconds)%Q else 0%Q in
        s ← format_time (fst bounds);
        e ← format_time (snd bounds);
        Ret (Some (TpsData total total_seconds (round2 avg_tps)
                           (QofN (nat_list_max (values by_second)))
                           (QofN (nat_list_min (values by_second)))
                           by_second s e))
      end
    end
  end.

(** [except Exception: return None] *)
Definition catch_all {A : Type} (m : result (option A)) : option A :=
  match m with
  | Ret v => v
  | Raise _ => None
  end.

Definition calculate_tps_from_csv_jtl (jtl_file : pystr) : option tps_data :=
  catch_all (csv_body jtl_file).

(** The inner [try] of [calculate_tps_from_jtl] with its handler
    [except ET.ParseError], which calls the CSV path on the same file. *)
Definition jtl_body (jtl_file : pystr) : result (option tps_data) :=
  match (elems ← ET_parse jtl_file; xml_tps (xml_timestamps elems)) with
  | Raise ParseError => Ret (calculate_tps_from_csv_jtl jtl_file)
  | other => other
  end.

Definition calculate_tps_from_jtl (jtl_file : pystr) : option tps_data :=
  catch_all (jtl_body jtl_file).

End WithEnvironment.




End Jtl.

(** ** The narrative service ([AIAnalyzer.call_ai_service]) *)

Module AiService.

Local Open Scope Z_scope.

(** [get_mock_analysis]: the placeholder narrative. *)
Definition mock_analysis : pystr := py "
# AI 分析报告

## 性能总体评估
基于提取的性能指标数据，系统性能表现需要进一步分析。请参考以下详细分析：

## 详细分析
- **响应时间分析**：需要根据具体的平均响应时间、最大响应时间、90/95/99百分位响应时间数据进行评估
- **吞吐量分析**：需要根据具体的TPS数据评估系统处理能力
- **错误率分析**：需要根据具体的错误率数据评估系统稳定性
- **APDEX分析**：需要根据具体的APDEX分数评估用户满意度

## 分析说明
由于AI服务调用暂时不可用，本分析基于结构化数据模板。实际分析需要：
1. 提取Statistics表格中的具体数值
2. 分析响应时间分布情况
3. 评估吞吐量是否满足业务需求
4. 分析错误类型和原因
5. 根据APDEX分数评估用户体验

## 优化建议方向
- **响应时间优化**：如果平均响应时间超过1000ms，需要优化系统性能
- **吞吐量提升**：如果TPS无法满足业务峰值需求，需要增加系统容量
- **错误率降低**：如果存在错误，需要分析错误原因并修复
- **用户体验改善**：根据APDEX分数采取相应措施提升用户满意度

## 总结
请使用Python脚本解析HTML报告，提取关键性能指标，然后基于结构化数据生成详细的分析结论。
".

(** The part of [self.config] the call reads; the look-ups by provider name
    raise [KeyError] when the provider has no entry. *)
Record config : Type := Config {
  ai_service : pystr;
  api_keys : gmap pystr pystr;
  api_endpoints : gmap pystr pystr;
  model_names : gmap pystr pystr
}.

Definition lookup_key (m : gmap pystr pystr) (k : pystr) : result pystr :=
  match m !! k with
  | Some v => Ret v
  | None => Raise OtherError
  end.

(** What the call does besides returning: the requests it sends and the
    pauses it makes, in order. *)
Inductive event : Type :=
| Post (attempt : nat)
| Sleep (seconds : Z).

Definition max_retries : nat := 3.

(** The loop [for attempt in range(max_retries)].  [post attempt] is the
    outcome of the [try] block of that attempt: the narrative of a 2xx reply
    with a well-formed body, or the exception of [requests.post] (60 s
    timeout), of [raise_for_status], or of reading the body.  A loop that
    ends without [return] makes the function return [None]. *)
Fixpoint attempt_loop (post : nat -> result pystr) (todo : list nat)
    (retry_delay : Z) (trace : list event) : option pystr * list event :=
  match todo with
  | [] => (None, trace)
  | attempt :: todo' =>
    let trace := trace ++ [Post attempt] in
    match post attempt with
    | Ret content => (Some content, trace)
    | Raise Timeout =>
      if (attempt <? max_retries - 1)%nat
      then attempt_loop post todo' (retry_delay * 2) (trace ++ [Sleep retry_delay])
      else (Some mock_analysis, trace)
    | Raise _ => (Some mock_analysis, trace)
    end
  end.

Definition call_ai_service (cfg : config) (post : nat -> result pystr)
    : result (option pystr * list event) :=
  api_key ← lookup_key (api_keys cfg) (ai_service cfg);
  api_endpoint ← lookup_key (api_endpoints cfg) (ai_service cfg);
  model_name ← lookup_key (model_names cfg) (ai_service cfg);
  match api_key with
  | [] => Ret (Some mock_analysis, [])
  | _ => Ret (attempt_loop post (seq 0 max_retries) 2 [])
  end.

(** The provider named by the configuration has its three entries. *)
Definition provider_configured (cfg : config) : Prop :=
  is_Some (api_keys cfg !! ai_service cfg)
  /\ is_Some (api_endpoints cfg !! ai_service cfg)
  /\ is_Some (model_names cfg !! ai_service cfg).

Definition sleeps (trace : list event) : list Z :=
  omap (fun e => match e with Sleep s => Some s | Post _ => None end) trace.

Definition posts (trace : list event) : list nat :=
  omap (fun e => match e with Post a => Some a | Sleep _ => None end) trace.

End AiService.

(** ** The markup extractor ([AIAnalyzer.parse_index_html]) *)

Module Dashboard.

Local Open Scope N_scope.

Definition attrs : regex := Rep true 0 (not_chr 62).   (* [[^>]*] *)

(** [<h2>title<\/h2>(.*?)<\/div>] with DOTALL *)
Definition section_re (title : string) : regex :=
  seq_re [L "<h2>"; L title; L "</h2>"; Grp 1 lazy_any; L "</div>"].

Definition th_re : regex :=                 (* [<th[^>]*>(.*?)<\/th>] *)
  seq_re [L "<th"; attrs; L ">"; Grp 1 lazy_dot; L "</th>"].
Definition tr_re : regex :=                 (* [<tr[^>]*>(.*?)<\/tr>], DOTALL *)
  seq_re [L "<tr"; attrs; L ">"; Grp 1 lazy_any; L "</tr>"].
Definition plain_tr_re : regex :=           (* [<tr>(.*?)<\/tr>], DOTALL *)
  seq_re [L "<tr>"; Grp 1 lazy_any; L "</tr>"].
Definition td_re : regex :=                 (* [<td[^>]*>(.*?)<\/td>] *)
  seq_re [L "<td"; attrs; L ">"; Grp 1 lazy_dot; L "</td>"].
Definition td_dotall_re : regex :=          (* the same with DOTALL *)
  seq_re [L "<td"; attrs; L ">"; Grp 1 lazy_any; L "</td>"].

(** [(?:<td[^>]*>APDEX<\/td>|Score|0\.\d+).*?<td[^>]*>([\d.]+)<\/td>], DOTALL *)
Definition apdex_score_re (nd : char -> bool) : regex :=
  seq_re [Alt (seq_re [L "<td"; attrs; L ">APDEX</td>"])
              (Alt (L "Score") (seq_re [L "0."; Rep true 1 (is_digit nd)]));
          lazy_any; L "<td"; attrs; L ">";
          Grp 1 (Rep true 1 (fun c => is_digit nd c || (c =? 46)%N));
          L "</td>"].

(** [<td[^>]*>Level<\/td>.*?<td[^>]*>(.*?)<\/td>], DOTALL *)
Definition apdex_level_re : regex :=
  seq_re [L "<td"; attrs; L ">Level</td>"; lazy_any;
          L "<td"; attrs; L ">"; Grp 1 lazy_any; L "</td>"].

(** [m.group(1)] of a search, when it matched. *)
Definition search_group1 (r : regex) (text : pystr) : option pystr :=
  match re_search r text with
  | Some (_, st) => Some (group text st 1)
  | None => None
  end.

(** A table row: a dict from header to cell text. *)
Definition row_data (headers values : list pystr) : gmap pystr pystr :=
  fold_left (fun m hv => <[fst hv := str_strip (snd hv)]> m)
            (combine headers values) ∅.

(** Truth value of [row_data.get(key)]. *)
Definition has_value (m : gmap pystr pystr) (key : string) : bool :=
  match m !! py key with
  | Some (_ :: _) => true
  | _ => false
  end.

Definition section_html (title : string) (content : pystr) : option pystr :=
  search_group1 (section_re title) content.

(** The header row of a section's table. *)
Definition table_headers (html : pystr) : list pystr := re_findall th_re html.

(** The cell lists of the rows of a section that contain [<td]. *)
Definition scraped_rows (html : pystr) : list (list pystr) :=
  map (re_findall td_dotall_re)
      (List.filter (str_contains (py "<td")) (re_findall tr_re html)).

(** The loop over [rows]: a row enters the table only when it has as many
    cells as there are headers (and passes [keep]). *)
Definition table_rows (keep : gmap pystr pystr -> bool) (html : pystr)
    : list (gmap pystr pystr) :=
  let headers := table_headers html in
  flat_map (fun values =>
              if (length values =? length headers)%nat then
                let rd := row_data headers values in
                if keep rd then [rd] else []
              else [])
           (scraped_rows html).

Definition parse_table (keep : gmap pystr pystr -> bool) (title : string)
    (content : pystr) : list (gmap pystr pystr) :=
  match section_html title content with
  | Some html => table_rows keep html
  | None => []
  end.

Definition keep_statistics (rd : gmap pystr pystr) : bool :=
  has_value rd "Label" || has_value rd "Sampler Name" || has_value rd "Requests".

Definition keep_all (rd : gmap pystr pystr) : bool := true.

(** Both look-ups of a [test_info] row find the first cell; the first one
    without DOTALL. *)
Definition test_info (content : pystr) : gmap pystr pystr :=
  match section_html "Test and Report information" content with
  | Some html =>
    fold_left (fun m item =>
                 match search_group1 td_re item, search_group1 td_dotall_re item with
                 | Some key, Some value => <[str_strip key := str_strip value]> m
                 | _, _ => m
                 end)
              (re_findall plain_tr_re html) ∅
  | None => ∅
  end.

Record dashboard : Type := DashboardInfo {
  d_test_info : gmap pystr pystr;
  d_apdex_score : option pystr;
  d_apdex_level : option pystr;
  statistics : list (gmap pystr pystr);
  errors : list (gmap pystr pystr);
  top_errors : list (gmap pystr pystr)
}.

(** [parse_index_html] on the text of the file. *)
Definition parse_index_html (nd : char -> bool) (content : pystr) : dashboard :=
  let apdex := section_html "APDEX (Application Performance Index)" content in
  DashboardInfo
    (test_info content)
    (html ← apdex; str_strip <$> search_group1 (apdex_score_re nd) html)
    (html ← apdex; str_strip <$> search_group1 apdex_level_re html)
    (parse_table keep_statistics "Statistics" content)
    (parse_table keep_all "Errors" content)
    (parse_table keep_all "Top 5 Errors by sampler" content).

(** The header row of the table of a section of the document. *)
Definition headers_of (title : string) (content : pystr) : list pystr :=
  match section_html title content with
  | Some html => table_headers html
  | None => []
  end.

(** The rows scraped from the table of a section of the document. *)
Definition scraped_of (title : string) (content : pystr) : list (list pystr) :=
  match section_html title content with
  | Some html => scraped_rows html
  | None => []
  end.

(** What a table of the dashboard is made of: every row has the headers as
    its key set and is the dict of a scraped row that has as many cells as
    the table has headers. *)
Definition rows_from (headers : list pystr) (scraped : list (list pystr))
    (table : list (gmap pystr pystr)) : Prop :=
  Forall (fun row =>
            dom row = list_to_set headers
            /\ exists values, In values scraped
                 /\ length values = length headers
                 /\ row = row_data headers values) table.

End Dashboard.

(** ** TPS from a rendered report ([calculate_tps_from_html_report]) *)

Module HtmlTps.

Local Open Scope N_scope.



Definition attrs : regex := Rep true 0 (not_chr 62).

Section WithDigits.

(** The Unicode table of the decimal digits outside ASCII and their values,
    see [is_digit]. *)
Variable nd : char -> bool.
Variable nd_value : char -> Z.

Definition digits : regex := Rep true 1 (is_digit nd).

(** [(\d+,\d+|\d+)] *)
Definition number : regex :=
  Grp 1 (Alt (seq_re [digits; L ","; digits]) digits).






(** [int(s.replace(',', ''))] on the text of a [number] group. *)
Definition int_of_number (s : pystr) : Z :=
  fold_left (fun acc c =>
               if (c =? 44)%N then acc
               else (acc * 10 + (if (c <? 128)%N then Z.of_N c - 48 else nd_value c))%Z)
            s 0%Z.







End WithDigits.

End HtmlTps.

(** ** Linear patterns

    A pattern made of literal characters and greedy class repetitions only,
    in which every repetition is followed by a literal outside its class, is
    read by the engine without backtracking.  The Unpatched placeholder of
    the patcher is such a pattern; the definitions below are the reading
    machine its properties are proved on. *)

Module Linear.

Local Open Scope N_scope.

Inductive tok : Type :=
| TChr (c : char)
| TRep (lo : nat) (p : char -> bool).

Fixpoint flatten (r : regex) : option (list tok) :=
  match r with
  | Eps => Some []
  | Chr c => Some [TChr c]
  | Cat a b =>
    match flatten a, flatten b with
    | Some x, Some y => Some (x ++ y)
    | _, _ => None
    end
  | Rep true lo p => Some [TRep lo p]
  | _ => None
  end.

(** Every repetition is followed by a literal outside its class. *)
Fixpoint determinate (ts : list tok) : bool :=
  match ts with
  | [] => true
  | TChr _ :: r => determinate r
  | TRep _ p :: r =>
    match r with
    | TChr c :: _ => negb (p c) && determinate r
    | _ => false
    end
  end.

(** Reading one character. *)
Fixpoint step (ts : list tok) (c : char) : option (list tok) :=
  match ts with
  | [] => None
  | TChr x :: r => if c =? x then Some r else None
  | TRep (S lo) p :: r => if p c then Some (TRep lo p :: r) else None
  | TRep O p :: r => if p c then Some (TRep O p :: r) else step r c
  end.

(** Reading a match at the start of [s]: the text after the match. *)
Fixpoint det_match (s : pystr) (ts : list tok) {struct s} : option pystr :=
  match ts with
  | [] => Some s
  | _ :: _ =>
    match s with
    | [] => None
    | c :: s' =>
      match step ts c with
      | Some q => det_match s' q
      | None => None
      end
    end
  end.

(** The reading machine in the continuation-passing form of the engine. *)
Fixpoint run (s : pystr) (ts : list tok) (prev : option char) (i : nat)
    (caps : list (nat * (nat * nat))) (k : mstate -> option mstate)
    {struct s} : option mstate :=
  match ts with
  | [] => k (MState prev s i caps)
  | _ :: _ =>
    match s with
    | [] => None
    | c :: s' =>
      match step ts c with
      | Some q => run s' q (Some c) (S i) caps k
      | None => None
      end
    end
  end.

Definition run_st (ts : list tok) (k : mstate -> option mstate) (st : mstate)
    : option mstate :=
  run (m_rest st) ts (m_prev st) (m_pos st) (m_caps st) k.

(** No match of [ts] starts anywhere in [x]. *)
Fixpoint clean (ts : list tok) (x : pystr) : Prop :=
  det_match x ts = None /\ match x with [] => True | _ :: x' => clean ts x' end.

(** Reading a text that may end before the pattern does. *)
Inductive fres : Type :=
| Fail
| Done (rest : pystr)
| More (q : list tok).

Fixpoint feed (u : pystr) (ts : list tok) {struct u} : fres :=
  match ts with
  | [] => Done u
  | _ :: _ =>
    match u with
    | [] => More ts
    | c :: u' =>
      match step ts c with
      | Some q => feed u' q
      | None => Fail
      end
    end
  end.

(** The states the reading of [ts] can be in. *)
Fixpoint states (ts : list tok) : list (list tok) :=
  match ts with
  | [] => [[]]
  | TChr c :: r => (TChr c :: r) :: states r
  | TRep lo p :: r => map (fun j => TRep j p :: r) (seq 0 (S lo)) ++ states r
  end.

(** [u] cannot be continued from the state [q] (the final state apart). *)
Definition dead_end (u : pystr) (q : list tok) : bool :=
  match q with
  | [] => true
  | _ :: _ => match feed u q with Fail => true | _ => false end
  end.

(** No match starts inside [u], whatever follows it. *)
Definition no_start_in (ts : list tok) (u : pystr) : bool :=
  forallb (fun k => match feed (skipn k u) ts with Fail => true | _ => false end)
          (seq 0 (length u)).

(** The engine's scan with the reading machine in place of the matcher. *)
Fixpoint psub_go (ts : list tok) (repl : pystr) (skip : nat) (s : pystr)
    {struct s} : pystr :=
  match skip with
  | S n => match s with [] => [] | _ :: s' => psub_go ts repl n s' end
  | O =>
    match det_match s ts with
    | Some rest =>
      repl ++ match s with
              | [] => []
              | _ :: s' => psub_go ts repl (Nat.pred (length s - length rest)) s'
              end
    | None => match s with [] => [] | c :: s' => c :: psub_go ts repl O s' end
    end
  end.

End Linear.

(** The Unpatched placeholder of the patcher as a linear pattern. *)
Definition original_tokens : list Linear.tok :=
  match Linear.flatten Patcher.original_ai_pattern with
  | Some ts => ts
  | None => []
  end.

(** The two linear parts of the Patched placeholder. *)
Definition before_href_tokens : list Linear.tok :=
  match Linear.flatten (seq_re Patcher.updated_before_href) with
  | Some ts => ts
  | None => []
  end.

Definition after_href_tokens : list Linear.tok :=
  match Linear.flatten (seq_re Patcher.updated_after_href) with
  | Some ts => ts
  | None => []
  end.

(** The character before the position [k] of a text that follows [prev]. *)
Fixpoint prev_at (prev : option char) (s : pystr) (k : nat) : option char :=
  match k, s with
  | S k', c :: s' => prev_at (Some c) s' k'
  | _, _ => prev
  end.

(** A pattern that holds the literal character [c]. *)
Definition has_literal (c : char) (ts : list Linear.tok) : bool :=
  existsb (fun t => match t with
                    | Linear.TChr x => (x =? c)%N
                    | Linear.TRep _ _ => false
                    end) ts.

(** [int] on the ASCII decimal numerals only: a stand-in for the
    interpreter's [int] where an example needs one. *)
Definition decimal_int (s : pystr) : option Z :=
  match s with
  | [] => None
  | _ => if forallb (fun c => (48 <=? c)%N && (c <=? 57)%N) s
         then Some (fold_left (fun acc c => acc * 10 + (Z.of_N c - 48))%Z s 0%Z)
         else None
  end.

(** What a result computed from per-second counts satisfies. *)
Definition well_counted (d : Jtl.tps_data) : Prop :=
  Jtl.total_requests d = Z.of_nat (list_sum (Jtl.values (Jtl.tps_by_second d)))
  /\ (0 < Jtl.total_requests d)%Z
  /\ List.Forall (fun n => (1 <= n)%nat) (Jtl.values (Jtl.tps_by_second d))
  /\ (1 <= Jtl.test_duration_seconds d)%Z
  /\ 1 <= Jtl.min_tps d
  /\ Jtl.min_tps d <= Jtl.peak_tps d
  /\ Jtl.average_tps d <= Jtl.peak_tps d.

(** ** The fallback report ([generate_enhanced_html_report])

    The loop over the lines of the result log and the per-label summary
    that follows it.  [float] on a string and [strptime] belong to the
    interpreter and are parameters. *)

Module Report.

(** The values read from one line. *)
Record sample : Type := Sample {
  sampler_name : pystr;
  response_time : Q;
  success : bool;
  response_code : pystr;
  bytes : Q;
  sent_bytes : Q;
  timestamp : Q
}.

(** The entry of [stats] for one sampler. *)
Record entry : Type := Entry {
  sampleCount : nat;
  errorCount : nat;
  totalTime : Q;
  times : list Q;
  total_bytes : Q;
  sentBytes : Q;
  successCodes : gmap pystr nat;
  errorCodes : gmap pystr nat;
  timestamps : list Q
}.

Definition new_entry : entry := Entry 0 0 0 [] 0 0 ∅ ∅ [].

(** [codes[code] = codes.get(code, 0) + 1] *)
Definition count_code (codes : gmap pystr nat) (code : pystr) : gmap pystr nat :=
  <[code := (default 0%nat (codes !! code) + 1)%nat]> codes.

(** The update of [stats] for one sample: the entry of its sampler is
    created when it is missing, then updated in place. *)
Definition record_sample (stats : gmap pystr entry) (s : sample)
    : gmap pystr entry :=
  let stat := default new_entry (stats !! sampler_name s) in
  <[sampler_name s :=
      Entry (sampleCount stat + 1)
            (if success s then errorCount stat else errorCount stat + 1)
            (totalTime stat + response_time s)
            (times stat ++ [response_time s])
            (total_bytes stat + bytes s)
            (sentBytes stat + sent_bytes s)
            (if success s then count_code (successCodes stat) (response_code s)
             else successCodes stat)
            (if success s then errorCodes stat
             else count_code (errorCodes stat) (response_code s))
            (timestamps stat ++ [timestamp s])]> stats.

(** [dict(zip(headers, values))]: a later column of the same name wins. *)
Definition row_of (headers values : list pystr) : gmap pystr pystr :=
  fold_left (fun m hv => <[fst hv := snd hv]> m) (combine headers values) ∅.

(** The state of the loop over the lines. *)
Record lstate : Type := LState {
  headers : option (list pystr);
  line_count : nat;
  all_timestamps : list Q;
  stats : gmap pystr entry
}.

Definition initial : lstate := LState None 0 [] ∅.

Section WithInterpreter.

(** - [py_float]: [float(s)] on a string, [None] for its [ValueError];
    - [strptime fmt s]: [datetime.strptime(s, fmt).timestamp()], [None] for
      its [ValueError];
    - [now]: [datetime.datetime.now().timestamp()]. *)
Variable py_float : pystr -> option Q.
Variable strptime : pystr -> pystr -> option Q.
Variable now : Q.

Definition formats : list pystr :=
  [py "%Y/%m/%d %H:%M:%S"; py "%Y-%m-%d %H:%M:%S"].

(** [parse_timestamp] on a string. *)
Definition parse_timestamp (timestamp_str : pystr) : Q :=
  match py_float timestamp_str with
  | Some x => x
  | None =>
    match omap (fun fmt => strptime fmt timestamp_str) formats with
    | t :: _ => t * 1000
    | [] => now * 1000
    end
  end.

(** [float(s)] under the exception it raises. *)
Definition to_float (s : pystr) : result Q :=
  match py_float s with
  | Some x => Ret x
  | None => Raise ValueError
  end.

(** A line of a log without header line: the columns in the default order.
    [None] when the line is skipped. *)
Definition headerless (values : list pystr) : result (option sample) :=
  if (length values <? 10)%nat then Ret None
  else
    let sampler_name := nth 2 values [] in
    response_time ← match nth 1 values [] with
                    | [] => Ret 0
                    | v => to_float v
                    end;
    let success := str_eqb (nth 7 values []) (py "true") in
    let response_code := nth 3 values [] in
    bytes ← match nth 9 values [] with
            | [] => Ret 0
            | v => to_float v
            end;
    sent_bytes ← (if (10 <? length values)%nat then to_float (nth 10 values [])
                  else Ret 0);
    let timestamp := parse_timestamp (nth 0 values []) in
    Ret (Some (Sample sampler_name response_time success response_code
                      bytes sent_bytes timestamp)).

(** [float(row.get(key, 0))] *)
Definition float_field (row : gmap pystr pystr) (key : string) : result Q :=
  match row !! py key with
  | Some v => to_float v
  | None => Ret 0
  end.

(** A line of a log with header line. *)
Definition with_headers (hs values : list pystr) : result (option sample) :=
  if negb (length values =? length hs)%nat then Ret None
  else
    let row := row_of hs values in
    let sampler_name := default (py "Unknown") (row !! py "label") in
    response_time ← float_field row "elapsed";
    let success := str_eqb (default (py "true") (row !! py "success")) (py "true") in
    let response_code := default (py "200") (row !! py "responseCode") in
    bytes ← float_field row "bytes";
    sent_bytes ← float_field row "sentBytes";
    let timestamp := match row !! py "timeStamp" with
                     | Some v => parse_timestamp v
                     | None => 0
                     end in
    Ret (Some (Sample sampler_name response_time success response_code
                      bytes sent_bytes timestamp)).

(** The body of the loop for one line of the file. *)
Definition line_step (st : lstate) (raw : pystr) : result lstate :=
  match str_strip raw with
  | [] => Ret st
  | line =>
    if (line_count st =? 0)%nat && str_contains (py "timeStamp") line
    then Ret (LState (Some (str_split 44%N line)) (line_count st + 1)
                     (all_timestamps st) (stats st))
    else
      let values := str_split 44%N line in
      parsed ← match headers st with
               | None | Some [] => headerless values
               | Some hs => with_headers hs values
               end;
      match parsed with
      | None => Ret st
      | Some s =>
        Ret (LState (headers st) (line_count st + 1)
                    (all_timestamps st ++ [timestamp s])
                    (record_sample (stats st) s))
      end
  end.

(** The loop; a [ValueError] of [float] ends it, and with it the report. *)
Fixpoint collect_from (st : lstate) (lines : list pystr) : result lstate :=
  match lines with
  | [] => Ret st
  | raw :: lines' => st' ← line_step st raw; collect_from st' lines'
  end.

Definition collect (lines : list pystr) : result lstate :=
  collect_from initial lines.

End WithInterpreter.

(** The error percentage of one entry, under its guard [sampleCount > 0]. *)
Definition errorPct (e : entry) : Q :=
  inject_Z (Z.of_nat (errorCount e)) / inject_Z (Z.of_nat (sampleCount e)) * 100.

(** The run time of a list of time stamps in seconds, and the rate of
    [count] samples over it: 0 when the run time is not positive. *)
Definition run_time_seconds (ts : list Q) : Q :=
  match Stats.py_max ts, Stats.py_min ts with
  | Some hi, Some lo => (hi - lo) / 1000
  | _, _ => 0
  end.

Definition rate (count : nat) (ts : list Q) : Q :=
  match ts with
  | [] => 0
  | _ => if Qlt_le_dec 0 (run_time_seconds ts)
         then inject_Z (Z.of_nat count) / run_time_seconds ts
         else 0
  end.


(** [sum(s['sampleCount'] for s in stats.values())] *)
Definition total_samples (stats : gmap pystr entry) : nat :=
  map_fold (fun _ e acc => (sampleCount e + acc)%nat) 0%nat stats.

Definition total_tps (st : lstate) : Q :=
  rate (total_samples (stats st)) (all_timestamps st).

(** The sum of the counters of a table of response codes. *)
Definition code_total (codes : gmap pystr nat) : nat :=
  map_fold (fun _ n acc => (n + acc)%nat) 0%nat codes.

Definition sum_Q (l : list Q) : Q := fold_left Qplus l 0.

(** What every entry of [stats] satisfies, and the loop state with it. *)
Definition consistent (e : entry) : Prop :=
  (0 < sampleCount e)%nat
  /\ sampleCount e = length (times e)
  /\ sampleCount e = length (timestamps e)
  /\ (code_total (successCodes e) + errorCount e)%nat = sampleCount e
  /\ code_total (errorCodes e) = errorCount e
  /\ totalTime e == sum_Q (times e).

Definition sound (st : lstate) : Prop :=
  (forall label e, stats st !! label = Some e -> consistent e)
  /\ total_samples (stats st) = length (all_timestamps st).

(** [float] on the ASCII decimal numerals only, for examples. *)
Definition decimal (s : pystr) : option Q := inject_Z <$> decimal_int s.

End Report.

(** ** Paths ([os.path] on POSIX) *)

(** [s.endswith(suffix)] *)
Definition str_endswith (suffix s : pystr) : bool :=
  match strip_prefix (rev suffix) (rev s) with
  | Some _ => true
  | None => false
  end.

(** [os.path.join(a, b)] *)
Definition path_join (a b : pystr) : pystr :=
  match b with
  | 47%N :: _ => b
  | _ =>
    match a with
    | [] => b
    | _ => if (List.last a 0%N =? 47)%N then a ++ b else a ++ 47%N :: b
    end
  end.

(** ** The newest summary report ([AIAnalyzer.find_latest_report]) *)

Module Latest.

Definition is_summary (file : pystr) : bool :=
  str_endswith (py ".html") file && str_contains (py "_summary_") file.

Section WithFileSystem.

(** [getmtime]: [os.path.getmtime], with the exception it raises for a file
    it cannot read.  The directory tree is given as [os.walk] yields it: the
    directories with the names of their files. *)
Variable getmtime : pystr -> result Q.

(** The loop state: [latest_report] and [latest_time]. *)
Definition visit (root : pystr) (st : option pystr * Q) (file : pystr)
    : result (option pystr * Q) :=
  if is_summary file then
    let file_path := path_join root file in
    mod_time ← getmtime file_path;
    if Qlt_le_dec (snd st) mod_time then Ret (Some file_path, mod_time)
    else Ret st
  else Ret st.

Fixpoint visit_files (root : pystr) (st : option pystr * Q) (files : list pystr)
    : result (option pystr * Q) :=
  match files with
  | [] => Ret st
  | file :: files' => st' ← visit root st file; visit_files root st' files'
  end.

Fixpoint visit_dirs (st : option pystr * Q) (walk : list (pystr * list pystr))
    : result (option pystr * Q) :=
  match walk with
  | [] => Ret st
  | (root, files) :: walk' =>
    st' ← visit_files root st files; visit_dirs st' walk'
  end.

(** [except Exception: return None] *)
Definition find_latest_report (walk : list (pystr * list pystr)) : option pystr :=
  match visit_dirs (None, 0) walk with
  | Ret st => fst st
  | Raise _ => None
  end.

(** The same loop over the paths it looks at. *)
Fixpoint visit_paths (st : option pystr * Q) (paths : list pystr)
    : result (option pystr * Q) :=
  match paths with
  | [] => Ret st
  | file_path :: paths' =>
    match getmtime file_path with
    | Ret mod_time =>
      visit_paths (if Qlt_le_dec (snd st) mod_time then (Some file_path, mod_time)
                   else st) paths'
    | Raise e => Raise e
    end
  end.

(** What the loop state holds after the paths [seen]. *)
Definition newest (seen : list pystr) (st : option pystr * Q) : Prop :=
  (forall q, In q seen -> exists t', getmtime q = Ret t' /\ t' <= snd st)
  /\ match fst st with
     | Some p => In p seen /\ getmtime p = Ret (snd st) /\ 0 < snd st
     | None => snd st = 0
     end.

End WithFileSystem.

(** The paths the loop looks at, in its order. *)
Definition candidates (walk : list (pystr * list pystr)) : list pystr :=
  flat_map (fun rf => map (path_join (fst rf)) (List.filter is_summary (snd rf)))
           walk.

End Latest.

(** ** Durations ([format_duration]) *)

Module Duration.

Local Open Scope Z_scope.

(** The format [02d]: the decimal numeral, padded with a zero to two
    characters; a minus sign counts as a character. *)
Definition pad2 (n : Z) : pystr :=
  let s := str_of_Z n in
  if (length s <? 2)%nat then 48%N :: s else s.

Definition format_duration (seconds : Z) : pystr :=
  let hours := seconds / 3600 in
  let minutes := (seconds mod 3600) / 60 in
  let secs := seconds mod 60 in
  pad2 hours ++ 58%N :: pad2 minutes ++ 58%N :: pad2 secs.

(** The number two decimal digits stand for. *)
Definition two_digits (a b : char) : Z := (Z.of_N a - 48) * 10 + (Z.of_N b - 48).

Definition is_decimal (c : char) : bool := (48 <=? c)%N && (c <=? 57)%N.

End Duration.

(** ** The configuration ([load_config]) *)

Module Config.

(** A value read by [json.load]. *)
#[warnings="-register-all"]
Inductive json : Type :=
| JNull
| JBool (b : bool)
| JNum (x : Q)
| JStr (s : pystr)
| JArr (items : list json)
| JObj (o : gmap pystr json).

Definition str_table (entries : list (string * string)) : json :=
  JObj (list_to_map (map (fun e => (py (fst e), JStr (py (snd e)))) entries)).

(** [default_config] of ai_analyze_report2.py. *)
Definition default_config : gmap pystr json :=
  list_to_map
    [(py "ai_service", JStr (py "deepseek"));
     (py "api_keys",
      str_table [("deepseek", EmptyString); ("qianwen", EmptyString);
                 ("moon", EmptyString); ("yunwu", EmptyString)]%string);
     (py "api_endpoints",
      str_table [("deepseek", "https://api.deepseek.com/v1/chat/completions");
                 ("qianwen", "https://dashscope.aliyuncs.com/compatible-mode/v1");
                 ("moon", "https://api.moonshot.cn/v1/chat/completions");
                 ("yunwu", "https://api.yunwuai.com/v1/chat/completions")]%string);
     (py "model_names",
      str_table [("deepseek", "deepseek-chat");
                 ("qianwen", "ep-20240101000000-xxxx");
                 ("moon", "moonshot-v1-8k");
                 ("yunwu", "yunwu-7b")]%string);
     (py "max_tokens", JNum 2000);
     (py "temperature", JNum (7 # 10))].

(** The body of the loop over [user_config.items()]: a dict given for a key
    whose default is a dict updates that dict; any other value replaces the
    default. *)
Definition merge_entry (config : gmap pystr json) (key : pystr) (value : json)
    : gmap pystr json :=
  match config !! key, value with
  | Some (JObj d), JObj u => <[key := JObj (u ∪ d)]> config
  | _, _ => <[key := value]> config
  end.

(** The value of a key after the loop body ran for it. *)
Definition merged_value (old : option json) (value : json) : json :=
  match old, value with
  | Some (JObj d), JObj u => JObj (u ∪ d)
  | _, _ => value
  end.

Definition merge_config (config : gmap pystr json) (user_config : gmap pystr json)
    : gmap pystr json :=
  fold_left (fun config kv => merge_entry config (fst kv) (snd kv))
            (map_to_list user_config) config.

Section WithFiles.

(** [exists]: [os.path.exists]; [read_json]: [open] followed by
    [json.load], with the exception either raises. *)
Variable exists_ : pystr -> bool.
Variable read_json : pystr -> result json.

(** [load_config]; a value that is not a dict has no [items], and the
    [AttributeError] is caught like every other exception. *)
Definition load_config (default : gmap pystr json) (config_file : option pystr)
    : gmap pystr json :=
  match config_file with
  | None | Some [] => default
  | Some file =>
    if exists_ file then
      match read_json file with
      | Ret (JObj user_config) => merge_config default user_config
      | Ret _ => default
      | Raise _ => default
      end
    else default
  end.

End WithFiles.

Definition providers : list pystr :=
  [py "deepseek"; py "qianwen"; py "moon"; py "yunwu"].

Definition tables : list pystr :=
  [py "api_keys"; py "api_endpoints"; py "model_names"].

(** [config[table][provider]], [None] for its [KeyError] or [TypeError]. *)
Definition lookup2 (config : gmap pystr json) (table provider : pystr)
    : option json :=
  match config !! table with
  | Some (JObj o) => o !! provider
  | _ => None
  end.

End Config.

(** ** Searching in strings *)

(** [s.find(sub)]: the index of the first occurrence; [None] stands for
    [-1]. *)
Fixpoint str_find (sub s : pystr) : option nat :=
  match strip_prefix sub s with
  | Some _ => Some O
  | None =>
    match s with
    | [] => None
    | _ :: s' => S <$> str_find sub s'
    end
  end.

(** [s.find(sub, start)] for [0 <= start <= len(s)] *)
Definition str_find_from (sub s : pystr) (start : nat) : option nat :=
  (fun i => (start + i)%nat) <$> str_find sub (skipn start s).

(** ** The name of the AI report ([SimpleAIAnalyzer.analyze_summary_report]) *)

Module Naming.

(** [summary_name.split('_summary_')[0]]: the text before the first
    occurrence. *)
Definition before_first (sep s : pystr) : pystr :=
  match str_find sep s with
  | Some i => firstn i s
  | None => s
  end.

Definition project_name (summary_name : pystr) : pystr :=
  if str_contains (py "_summary_") summary_name then
    let project_name := before_first (py "_summary_") summary_name in
    match str_split 95%N project_name with
    | part0 :: part1 :: _ => if str_eqb part0 part1 then part0 else project_name
    | _ => project_name
    end
  else py "default".

(** [timestamp] is [datetime.datetime.now().strftime('%Y%m%d_%H%M%S')]. *)
Definition ai_report_name (summary_name timestamp : pystr) : pystr :=
  if str_contains (py "_summary_") summary_name
  then str_replace (py "_summary_") (py "_AIReport_") summary_name
  else py "AIReport_" ++ timestamp ++ py ".html".

End Naming.

(** ** The name of the AI report ([AIAnalyzer.generate_ai_report]) *)

Module AiReport.

(** [$] without MULTILINE, at the end of a pattern: at the end of the text
    or before a newline that ends it. *)
Definition at_end (st : mstate) : bool :=
  match m_rest st with
  | [] => true
  | [c] => (c =? NL)%N
  | _ => false
  end.

(** The number of characters a pattern of literals and classes reads. *)
Fixpoint width (r : regex) : option nat :=
  match r with
  | Eps => Some O
  | Chr _ | Cls _ => Some 1%nat
  | Cat a b =>
    match width a, width b with
    | Some x, Some y => Some (x + y)%nat
    | _, _ => None
    end
  | Grp _ r => width r
  | _ => None
  end.

(** [re.search] of a pattern [^...$] without MULTILINE: a match can only
    start at index 0. *)
Definition match_whole (r : regex) (s : pystr) : option mstate :=
  re_m r (fun st => if at_end st then Some st else None) (MState None s 0 []).

Section WithDigits.

Variable nd : char -> bool.

Definition digit : regex := Cls (is_digit nd).

(** [\d{8}_\d{6}] *)
Definition stamp_re : regex :=
  seq_re (repeat digit 8 ++ [L "_"] ++ repeat digit 6).

(** [^(.*?)_summary_(\d{8}_\d{6})\.html$] *)
Definition summary_name_re : regex :=
  seq_re [Grp 1 lazy_dot; L "_summary_"; Grp 2 stamp_re; L ".html"].

(** What follows the first group in it. *)
Definition summary_tail_re : regex :=
  seq_re [L "_summary_"; Grp 2 stamp_re; L ".html"].

(** [^(.*?)_(\d{8}_\d{6})\.html$] *)
Definition stamped_name_re : regex :=
  seq_re [Grp 1 lazy_dot; L "_"; Grp 2 stamp_re; L ".html"].

(** [project_name] and [timestamp]; [now] is the formatted clock. *)
Definition name_parts (report_name now : pystr) : pystr * pystr :=
  match match_whole summary_name_re report_name with
  | Some st => (group report_name st 1, group report_name st 2)
  | None =>
    match match_whole stamped_name_re report_name with
    | Some st => (group report_name st 1, group report_name st 2)
    | None => (py "default", now)
    end
  end.

Definition ai_report_name (report_name now : pystr) : pystr :=
  let parts := name_parts report_name now in
  fst parts ++ py "_AIreport_" ++ snd parts ++ py ".html".

(** A time stamp as the patterns read it: eight digits, an underscore, six
    digits. *)
Definition is_stamp (s : pystr) : bool :=
  (length s =? 15)%nat
  && forallb (is_digit nd) (firstn 8 s)
  && (nth 8 s 0%N =? 95)%N
  && forallb (is_digit nd) (skipn 9 s).

End WithDigits.

End AiReport.

(** ** The test plans in order ([get_jmx_files_sorted]) *)

Module JmxFiles.

Section WithDigits.

Variable nd : char -> bool.
Variable nd_value : char -> Z.

(** [^(\d+)_]; without MULTILINE the pattern can only match at index 0. *)
Definition number_re : regex :=
  seq_re [Grp 1 (Rep true 1 (is_digit nd)); L "_"].

(** [int(match.group(1))] for a file name, [None] when the name does not
    match. *)
Definition file_number (name : pystr) : option Z :=
  match match_here number_re None name 0 with
  | Some st => Some (HtmlTps.int_of_number nd_value (group name st 1))
  | None => None
  end.

(** [jmx_files.sort(key=lambda x: x[0])]: the stable sort by number. *)
Fixpoint insert_by_number (x : Z * pystr) (l : list (Z * pystr))
    : list (Z * pystr) :=
  match l with
  | [] => [x]
  | y :: l' => if (fst x <=? fst y)%Z then x :: l else y :: insert_by_number x l'
  end.

Definition sort_by_number (l : list (Z * pystr)) : list (Z * pystr) :=
  fold_right insert_by_number [] l.

(** The loop over the names [glob('*.jmx')] yields. *)
Definition numbered (names : list pystr) : list (Z * pystr) :=
  omap (fun name => match file_number name with
                    | Some number => Some (number, name)
                    | None => None
                    end) names.

Definition get_jmx_files_sorted (names : list pystr) : list pystr :=
  map snd (sort_by_number (numbered names)).

End WithDigits.

End JmxFiles.

(** ** The TPS block in a report ([add_tps_to_html]) *)

Module TpsBlock.

Section WithBlock.

(** [tps_html]: the block, an f-string over the fields of [tps_data]; the
    insertion does not look into it. *)
Variable tps_html : pystr.

Definition insert_at (html_content : pystr) (insert_pos : nat) : pystr :=
  firstn insert_pos html_content ++ tps_html ++ skipn insert_pos html_content.

Definition after_body (html_content : pystr) : pystr :=
  if str_contains (py "<body>") html_content then
    match str_find (py "<body>") html_content with
    | Some body_pos => insert_at html_content (body_pos + length (py "<body>"))
    | None => html_content ++ tps_html
    end
  else html_content ++ tps_html.

Definition add_tps_to_html (html_content : pystr) : pystr :=
  if str_contains (py "Summary</h3>") html_content then
    match str_find (py "Summary</h3>") html_content with
    | Some summary_pos =>
      match str_find_from (py "</table>") html_content summary_pos with
      | Some table_end_pos =>
        insert_at html_content (table_end_pos + length (py "</table>"))
      | None => after_body html_content
      end
    | None => after_body html_content
    end
  else after_body html_content.

End WithBlock.

End TpsBlock.

(** ** Patterns that need a character *)

(** [needs c r]: every match of [r] reads the character [c]. *)
Fixpoint needs (c : char) (r : regex) : bool :=
  match r with
  | Chr x => (x =? c)%N
  | Cat a b => needs c a || needs c b
  | Alt a b => needs c a && needs c b
  | Grp _ r => needs c r
  | _ => false
  end.

(** The characters the substitutions of [markdown_to_html] react to:
    [# * ` > - < . [ |] and the newline. *)
Definition markup_chars : list char :=
  [35; 42; 96; 62; 45; 60; 46; 91; 124; 10]%N.

Definition is_plain (text : pystr) : bool :=
  forallb (fun c => negb (existsb (N.eqb c) markup_chars)) text.

(** ** Patterns that agree on a set of characters *)

(** [same_on P r1 r2]: the two patterns have the same shape, and their
    classes agree on the characters [P] holds of. *)
Fixpoint same_on (P : char -> Prop) (r1 r2 : regex) : Prop :=
  match r1, r2 with
  | Eps, Eps => True
  | Chr a, Chr b => a = b
  | Cls p, Cls q => forall c, P c -> p c = q c
  | Cat a b, Cat a' b' => same_on P a a' /\ same_on P b b'
  | Alt a b, Alt a' b' => same_on P a a' /\ same_on P b b'
  | Rep g lo p, Rep g' lo' q =>
    g = g' /\ lo = lo' /\ forall c, P c -> p c = q c
  | Grp n r, Grp n' r' => n = n' /\ same_on P r r'
  | Bol, Bol => True
  | Eol, Eol => True
  | _, _ => False
  end.

(** The characters [.] matches without DOTALL. *)
Definition on_line (c : char) : Prop := dot c = true.

(* ===================================================================== *)
(** * Part II: properties                                                *)
(* ===================================================================== *)

(** ** Tables in Markdown *)

Section TableFlush.
Import Markdown.

Lemma table_step_no_pending st line : no_pending st -> no_pending (table_step st line).
Proof.
  unfold no_pending, table_step. intros H.
  destruct (has_pipe line); simpl; [discriminate|].
  intros _. destruct (in_table st); [reflexivity | now apply H].
Qed.

Lemma run_lines_no_pending lines : no_pending (run_lines lines).
Proof.
  unfold run_lines.
  assert (G : forall st, no_pending st -> no_pending (fold_left table_step lines st)).
  { induction lines as [|l lines IH]; intros st H; simpl; [assumption|].
    apply IH, table_step_no_pending, H. }
  apply G. intros _. reflexivity.
Qed.

Lemma fold_table_lines tl : forall st,
  forallb has_pipe tl = true ->
  fold_left table_step tl st =
  TState (match tl with [] => in_table st | _ => true end)
         (table_lines st ++ map str_strip tl) (result st).
Proof.
  induction tl as [|l tl IH]; intros st H; simpl in *.
  - rewrite app_nil_r. now destruct st.
  - apply andb_prop in H as [Hl Htl].
    rewrite IH by assumption. unfold table_step. rewrite Hl. simpl.
    rewrite <- app_assoc. simpl. now destruct tl.
Qed.

(** The lines after a flush are processed as from the start, behind the
    result so far. *)
Lemma fold_behind lines : forall b tl r0 res,
  fold_left table_step lines (TState b tl (res ++ r0)) =
  let st := fold_left table_step lines (TState b tl r0) in
  TState (in_table st) (table_lines st) (res ++ result st).
Proof.
  induction lines as [|l lines IH]; intros b tl r0 res; simpl.
  - reflexivity.
  - unfold table_step; cbn [in_table table_lines result].
    destruct (has_pipe l); cbn [in_table table_lines result].
    + apply IH.
    + destruct b; cbn [in_table table_lines result].
      * unfold flush. destruct (2 <=? length tl)%nat.
        -- rewrite <- !(app_assoc res). apply IH.
        -- rewrite <- (app_assoc res). apply IH.
      * rewrite <- (app_assoc res). apply IH.
Qed.

Lemma table_finish_behind b tl r0 res :
  table_finish (TState b tl (res ++ r0)) = res ++ table_finish (TState b tl r0).
Proof.
  unfold table_finish, flush; cbn [in_table table_lines result].
  destruct b; [|reflexivity].
  destruct (2 <=? length tl)%nat; [now rewrite <- app_assoc | reflexivity].
Qed.

Lemma process_lines_closed pre :
  in_table (run_lines pre) = false ->
  run_lines pre = TState false [] (process_lines pre).
Proof.
  intros H. pose proof (run_lines_no_pending pre H) as Ht.
  unfold process_lines, table_finish. fold (run_lines pre).
  destruct (run_lines pre) as [b tl r]. simpl in *. now subst.
Qed.

(** A table that ends with the input is flushed. *)
Lemma flush_at_end pre tl :
  in_table (run_lines pre) = false ->
  forallb has_pipe tl = true ->
  (2 <= length tl)%nat ->
  process_lines (pre ++ tl) = process_lines pre ++ [render_table (map str_strip tl)].
Proof.
  intros Hpre Htl Hlen.
  unfold process_lines at 1. rewrite fold_left_app. fold (run_lines pre).
  rewrite (process_lines_closed pre Hpre).
  rewrite (fold_table_lines tl) by assumption.
  cbn [in_table table_lines result app].
  destruct tl as [|l tl']; [simpl in Hlen; lia|].
  unfold table_finish, flush. cbn [in_table table_lines result].
  rewrite length_map.
  destruct (2 <=? length (l :: tl'))%nat eqn:E; [reflexivity|].
  apply Nat.leb_gt in E. lia.
Qed.

(** A table followed by a line without a pipe is flushed before that line. *)
Lemma flush_at_line pre tl l1 rest :
  in_table (run_lines pre) = false ->
  forallb has_pipe tl = true ->
  (2 <= length tl)%nat ->
  has_pipe l1 = false ->
  process_lines (pre ++ tl ++ l1 :: rest) =
  process_lines pre ++ render_table (map str_strip tl) :: l1 :: process_lines rest.
Proof.
  intros Hpre Htl Hlen Hl1.
  unfold process_lines at 1. rewrite !fold_left_app. fold (run_lines pre).
  rewrite (process_lines_closed pre Hpre).
  rewrite (fold_table_lines tl) by assumption.
  cbn [in_table table_lines result app fold_left].
  destruct tl as [|l tl']; [simpl in Hlen; lia|].
  unfold table_step at 2. rewrite Hl1. cbn [in_table table_lines result].
  unfold flush. rewrite length_map.
  destruct (2 <=? length (l :: tl'))%nat eqn:E;
    [|apply Nat.leb_gt in E; lia].
  rewrite <- (app_nil_r ((process_lines pre ++ _) ++ [l1])).
  rewrite fold_behind. cbn zeta. rewrite table_finish_behind.
  rewrite <- !app_assoc. cbn [app].
  reflexivity.
Qed.

End TableFlush.

(** C6.  The table [A|B / ---|--- / 1|2] becomes one [<table>] with a
    header row of two cells and a body row of two cells; and an accumulated
    table of at least two lines is flushed both when the input ends with it
    and when a line without a pipe follows it. *)
Theorem markdown_table_is_flushed
    (nd : char -> bool) (pre tl rest : list pystr) (l1 : pystr)
    (Hpre : Markdown.in_table (Markdown.run_lines pre) = false)
    (Htl : forallb Markdown.has_pipe tl = true)
    (Hlen : (2 <= length tl)%nat)
    (Hl1 : Markdown.has_pipe l1 = false) :
  Markdown.markdown_to_html nd (py "A|B" ++ [NL] ++ py "---|---" ++ [NL] ++ py "1|2")
  = py "<p>"
    ++ py "<table style='border-collapse: collapse; width: 100%; margin: 20px 0;'>"
    ++ py "<thead><tr>"
    ++ Markdown.th_open ++ py "A</th>" ++ Markdown.th_open ++ py "B</th>"
    ++ py "</tr></thead>"
    ++ py "<tbody><tr>"
    ++ Markdown.td_open ++ py "1</td>" ++ Markdown.td_open ++ py "2</td>"
    ++ py "</tr></tbody>"
    ++ py "</table>"
    ++ py "</p>"
  /\ Markdown.process_lines (pre ++ tl)
     = Markdown.process_lines pre ++ [Markdown.render_table (map str_strip tl)]
  /\ Markdown.process_lines (pre ++ tl ++ l1 :: rest)
     = Markdown.process_lines pre
       ++ Markdown.render_table (map str_strip tl) :: l1 :: Markdown.process_lines rest.
Proof.
  split; [vm_compute; reflexivity|].
  split; [now apply flush_at_end | now apply flush_at_line].
Qed.

Lemma markdown_table_is_flushed_witness :
  Markdown.process_lines ([py "intro"] ++ [py "A|B"; py "---|---"; py "1|2"])
  = Markdown.process_lines [py "intro"]
    ++ [Markdown.render_table (map str_strip [py "A|B"; py "---|---"; py "1|2"])].
Proof.
  apply (markdown_table_is_flushed (fun _ => false) [py "intro"]
           [py "A|B"; py "---|---"; py "1|2"] [] (py "end")).
  - reflexivity.
  - reflexivity.
  - simpl; lia.
  - reflexivity.
Defined.

(** C9.  On the two-item list [- a / - b] the conversion wraps each item in
    a container of its own, and the wrapping of ordered items then wraps each
    of them again; likewise each item of [1. a / 2. b] gets its own [<ol>]. *)
Theorem list_items_wrapped_one_by_one (nd : char -> bool) :
  Markdown.markdown_to_html nd (py "- a" ++ [NL] ++ py "- b")
  = py "<p><ul><ol><li>a</li></ol></ul><br><ul><ol><li>b</li></ol></ul></p>"
  /\ Markdown.str_count (py "<ul>")
       (Markdown.markdown_to_html nd (py "- a" ++ [NL] ++ py "- b")) = 2%nat
  /\ Markdown.markdown_to_html nd (py "1. a" ++ [NL] ++ py "2. b")
     = py "<p><ol><li>a</li></ol><br><ol><li>b</li></ol></p>"
  /\ Markdown.str_count (py "<ol>")
       (Markdown.markdown_to_html nd (py "1. a" ++ [NL] ++ py "2. b")) = 2%nat.
Proof. repeat split; vm_compute; reflexivity. Qed.

(** ** Latency statistics *)

Section StatsFacts.
Import Stats.





(** *** [sorted] sorts *)








(** *** The indices *)

Lemma pct_index_div (a : Z) (b : positive) (n : nat) :
  (0 <= a)%Z ->
  pct_index (a # b) n = Z.to_nat ((Z.of_nat n * a) / Zpos b).
Proof.
  intros Ha. unfold pct_index, py_int_of_float. simpl.
  rewrite Z.quot_div_nonneg by lia. reflexivity.
Qed.

Lemma spec_index_div (a : Z) (b : positive) (n : nat) :
  spec_index (a # b) n =
  Nat.min (Z.to_nat ((a * Z.of_nat n) / Zpos b)) (n - 1).
Proof.
  unfold spec_index, Qfloor. simpl. now rewrite Pos.mul_1_r.
Qed.

(** For a probability [a/b < 1] the truncated product is a valid index, so
    the clamp of the specification never takes effect. *)
Lemma pct_index_spec (a : Z) (b : positive) (n : nat) :
  (0 <= a < Zpos b)%Z -> (0 < n)%nat ->
  (pct_index (a # b) n < n)%nat /\ pct_index (a # b) n = spec_index (a # b) n.
Proof.
  intros Hab Hn. rewrite pct_index_div, spec_index_div by lia.
  rewrite (Z.mul_comm a).
  assert (H : (0 <= Z.of_nat n * a / Zpos b < Z.of_nat n)%Z).
  { split; [apply Z.div_pos; lia|].
    apply Z.div_lt_upper_bound; nia. }
  lia.
Qed.

Lemma pct_index_mono (a a' : Z) (b b' : positive) (n : nat) :
  (0 <= a)%Z -> (a * Zpos b' <= a' * Zpos b)%Z ->
  (pct_index (a # b) n <= pct_index (a' # b') n)%nat.
Proof.
  intros Ha Hle. rewrite !pct_index_div by nia.
  apply Z2Nat.inj_le; [apply Z.div_pos; lia | apply Z.div_pos; nia |].
  apply Z.div_le_lower_bound; [lia|].
  assert (Hb : (Zpos b * (Z.of_nat n * a / Zpos b) <= Z.of_nat n * a)%Z)
    by (apply Z.mul_div_le; lia).
  assert (Hq : (0 <= Z.of_nat n * a / Zpos b)%Z) by (apply Z.div_pos; lia).
  nia.
Qed.

Lemma half_le_p90 n : (n / 2 <= pct_index P90 n)%nat.
Proof.
  unfold P90. rewrite pct_index_div by lia.
  apply Nat2Z.inj_le. rewrite Z2Nat.id by (apply Z.div_pos; lia).
  rewrite Nat2Z.inj_div. simpl (Z.of_nat 2).
  apply Z.div_le_lower_bound; [lia|].
  assert (H : (2 * (Z.of_nat n / 2) <= Z.of_nat n)%Z) by (apply Z.mul_div_le; lia).
  lia.
Qed.

End StatsFacts.

Section StatsTheorems.
Import Stats.


(** The mean is not tied to the median: it lies below it for the times
    1, 5, 5 and above it for 1, 1, 5. *)
Remark mean_on_either_side_of_median :
  (exists s, summarize (aggregate [(1, true); (5, true); (5, true)]) = Some s
             /\ meanResTime s < medianResTime s)
  /\ (exists s, summarize (aggregate [(1, true); (1, true); (5, true)]) = Some s
                /\ medianResTime s < meanResTime s).
Proof. split; eexists; (split; [reflexivity | reflexivity]). Qed.

(** The doubles 0.9, 0.95 and 0.99 times a count give, truncated, the index
    of the rational model for every count up to 50000. *)
Example float_indices_agree :
  all_from (fun n => float_index_is 0x1.ccccccccccccdp-1%float 9 10 n
                     && float_index_is 0x1.e666666666666p-1%float 95 100 n
                     && float_index_is 0x1.fae147ae147aep-1%float 99 100 n)
           (N.to_nat 50000) 1 = true.
Proof. vm_compute. reflexivity. Qed.



End StatsTheorems.

(** ** The order of the doubles *)

Section SpecOrder.

Lemma SFcompare_antisym a b :
  SFcompare b a = option_map CompOpp (SFcompare a b).
Proof.
  destruct a as [sa|sa| |sa ma ea], b as [sb|sb| |sb mb eb]; cbn;
    try reflexivity; try (destruct sa; reflexivity); try (destruct sb; reflexivity);
    try (destruct sa, sb; reflexivity).
  change (Pos.compare_cont Eq mb ma) with (mb ?= ma)%positive.
  change (Pos.compare_cont Eq ma mb) with (ma ?= mb)%positive.
  destruct sa, sb; try reflexivity;
    rewrite (Z.compare_antisym ea eb); destruct (ea ?= eb)%Z; cbn; try reflexivity;
    rewrite (Pos.compare_antisym ma mb);
    destruct (ma ?= mb)%positive; reflexivity.
Qed.

Lemma SFcompare_refl a : SFeqb a a = true -> SFcompare a a = Some Eq.
Proof.
  unfold SFeqb. destruct (SFcompare a a) as [[]|]; try discriminate. reflexivity.
Qed.

Lemma SFcompare_defined a b :
  SFeqb a a = true -> SFeqb b b = true -> exists c, SFcompare a b = Some c.
Proof.
  unfold SFeqb.
  destruct a as [sa|sa| |sa ma ea], b as [sb|sb| |sb mb eb]; cbn;
    try discriminate; eauto.
Qed.

Lemma SFleb_trans a b c :
  SFleb a b = true -> SFleb b c = true -> SFleb a c = true.
Proof.
  unfold SFleb.
  destruct a as [sa|sa| |sa ma ea], b as [sb|sb| |sb mb eb], c as [sc|sc| |sc mc ec];
    cbn; try discriminate; try reflexivity;
    try (destruct sa; try discriminate; try reflexivity);
    try (destruct sb; try discriminate; try reflexivity);
    try (destruct sc; try discriminate; try reflexivity).
  all: change (Pos.compare_cont Eq ma mb) with (ma ?= mb)%positive;
       change (Pos.compare_cont Eq mb mc) with (mb ?= mc)%positive;
       change (Pos.compare_cont Eq ma mc) with (ma ?= mc)%positive.
  all: destruct (Z.compare_spec ea eb), (Z.compare_spec eb ec), (Z.compare_spec ea ec);
       try discriminate; try reflexivity; try lia; subst;
       destruct (Pos.compare_spec ma mb), (Pos.compare_spec mb mc),
                (Pos.compare_spec ma mc);
       cbn; try discriminate; try reflexivity; try lia.
Qed.

End SpecOrder.

Section FloatOrder.
Import FloatStats.

Lemma is_number_spec x : is_number x <-> SFeqb (Prim2SF x) (Prim2SF x) = true.
Proof.
  unfold is_number, PrimFloat.is_nan. rewrite FloatAxioms.eqb_spec.
  now destruct (SFeqb _ _).
Qed.

Lemma fle_refl x : is_number x -> fle x x.
Proof.
  intros H. apply is_number_spec in H. unfold fle.
  rewrite FloatAxioms.leb_spec. unfold SFleb. now rewrite (SFcompare_refl _ H).
Qed.

Lemma fle_trans x y z : fle x y -> fle y z -> fle x z.
Proof.
  unfold fle. rewrite !FloatAxioms.leb_spec. apply SFleb_trans.
Qed.

Lemma flt_fle x y : PrimFloat.ltb x y = true -> fle x y.
Proof.
  unfold fle. rewrite FloatAxioms.ltb_spec, FloatAxioms.leb_spec.
  unfold SFltb, SFleb. now destruct (SFcompare _ _) as [[]|].
Qed.

(** Two numbers compare one way or the other. *)
Lemma not_flt_fle x y :
  is_number x -> is_number y -> PrimFloat.ltb y x = false -> fle x y.
Proof.
  intros Hx Hy. apply is_number_spec in Hx, Hy. unfold fle.
  rewrite FloatAxioms.ltb_spec, FloatAxioms.leb_spec. unfold SFltb, SFleb.
  rewrite (SFcompare_antisym (Prim2SF x) (Prim2SF y)).
  destruct (SFcompare_defined _ _ Hx Hy) as [c ->]. now destruct c.
Qed.

(** A [nan] is below nothing and nothing is below it. *)
Lemma fle_numbers x y : fle x y -> is_number x /\ is_number y.
Proof.
  unfold fle. rewrite FloatAxioms.leb_spec, !is_number_spec. unfold SFleb, SFeqb.
  destruct (Prim2SF x) as [sa|sa| |sa ma ea], (Prim2SF y) as [sb|sb| |sb mb eb];
    cbn; try discriminate; intros _;
    rewrite ?Z.compare_refl;
    try change (Pos.compare_cont Eq ma ma) with (ma ?= ma)%positive;
    try change (Pos.compare_cont Eq mb mb) with (mb ?= mb)%positive;
    rewrite ?Pos.compare_refl;
    split; try reflexivity;
    try (destruct sa; reflexivity); try (destruct sb; reflexivity).
Qed.

End FloatOrder.

(** ** The statistics of numbers *)

Section FloatStatsFacts.
Import FloatStats.

Lemma float_aggregate_fold rows : forall st,
  let r := fold_left (fun st r => add_sample st (fst r) (snd r)) rows st in
  times r = times st ++ map fst rows
  /\ sampleCount r = (sampleCount st + length rows)%nat.
Proof.
  induction rows as [|row rows IH]; intros st; cbn [fold_left map length].
  - now rewrite app_nil_r, Nat.add_0_r.
  - destruct (IH (add_sample st (fst row) (snd row))) as [H1 H2].
    cbv zeta. rewrite H1, H2. cbn [add_sample times sampleCount].
    rewrite <- app_assoc. split; [reflexivity | lia].
Qed.

Lemma float_aggregate_times rows : times (aggregate rows) = map fst rows.
Proof. apply (float_aggregate_fold rows new_stat). Qed.

Lemma float_aggregate_count rows : sampleCount (aggregate rows) = length rows.
Proof. apply (float_aggregate_fold rows new_stat). Qed.

(** [min] of numbers is a number below every element. *)
Lemma float_fold_min l : forall m,
  is_number m -> Forall is_number l ->
  let r := fold_left (fun m y => if PrimFloat.ltb y m then y else m) l m in
  is_number r /\ fle r m /\ forall y, In y l -> fle r y.
Proof.
  induction l as [|x l IH]; intros m Hm Hl; cbn [fold_left].
  - split; [exact Hm|]. split; [now apply fle_refl | intros y []].
  - inversion Hl as [|? ? Hx Hrest]; subst.
    destruct (PrimFloat.ltb x m) eqn:E.
    + destruct (IH x Hx Hrest) as (H1 & H2 & H3). split; [exact H1|].
      pose proof (flt_fle _ _ E) as Hxm.
      split; [now apply (fle_trans _ x)|].
      intros y [<-|Hy]; [exact H2 | now apply H3].
    + destruct (IH m Hm Hrest) as (H1 & H2 & H3). split; [exact H1|].
      split; [exact H2|].
      intros y [<-|Hy]; [|now apply H3].
      apply (fle_trans _ m); [exact H2 | now apply not_flt_fle].
Qed.

Lemma float_fold_max l : forall m,
  is_number m -> Forall is_number l ->
  let r := fold_left (fun m y => if PrimFloat.ltb m y then y else m) l m in
  is_number r /\ fle m r /\ forall y, In y l -> fle y r.
Proof.
  induction l as [|x l IH]; intros m Hm Hl; cbn [fold_left].
  - split; [exact Hm|]. split; [now apply fle_refl | intros y []].
  - inversion Hl as [|? ? Hx Hrest]; subst.
    destruct (PrimFloat.ltb m x) eqn:E.
    + destruct (IH x Hx Hrest) as (H1 & H2 & H3). split; [exact H1|].
      pose proof (flt_fle _ _ E) as Hmx.
      split; [now apply (fle_trans _ x)|].
      intros y [<-|Hy]; [exact H2 | now apply H3].
    + destruct (IH m Hm Hrest) as (H1 & H2 & H3). split; [exact H1|].
      split; [exact H2|].
      intros y [<-|Hy]; [|now apply H3].
      apply (fle_trans _ m); [now apply not_flt_fle | exact H2].
Qed.

Lemma float_min_le l m x :
  Forall is_number l -> py_min l = Some m -> In x l -> fle m x.
Proof.
  destruct l as [|a l]; [discriminate|]. intros Hl [= <-] Hx.
  inversion Hl as [|? ? Ha Hrest]; subst.
  destruct (float_fold_min l a Ha Hrest) as (_ & H1 & H2).
  destruct Hx as [<-|Hx]; [exact H1 | now apply H2].
Qed.

Lemma float_max_ge l m x :
  Forall is_number l -> py_max l = Some m -> In x l -> fle x m.
Proof.
  destruct l as [|a l]; [discriminate|]. intros Hl [= <-] Hx.
  inversion Hl as [|? ? Ha Hrest]; subst.
  destruct (float_fold_max l a Ha Hrest) as (_ & H1 & H2).
  destruct Hx as [<-|Hx]; [exact H1 | now apply H2].
Qed.

(** In an ascending list of numbers a later element is not below an
    earlier one. *)
Lemma float_ascending_nth l : StronglySorted fle l -> Forall is_number l ->
  forall i j a b, (i <= j)%nat ->
    nth_error l i = Some a -> nth_error l j = Some b -> fle a b.
Proof.
  induction 1 as [|x l Hs IH Hall]; intros Hnum i j a b Hij Ha Hb.
  - now destruct i.
  - inversion Hnum as [|? ? Hx Hrest]; subst.
    destruct i as [|i], j as [|j]; cbn [nth_error] in Ha, Hb.
    + injection Ha as <-. injection Hb as <-. now apply fle_refl.
    + injection Ha as <-. apply nth_error_In in Hb.
      rewrite List.Forall_forall in Hall. now apply Hall.
    + lia.
    + apply (IH Hrest i j); [lia | assumption | assumption].
Qed.

(** The insertion sort meets the contract of the interpreter's sort. *)
Lemma float_insert_perm x l : Permutation (insert_sorted x l) (x :: l).
Proof.
  induction l as [|y l IH]; cbn [insert_sorted]; [reflexivity|].
  destruct (PrimFloat.ltb y x); [|reflexivity].
  rewrite IH. apply perm_swap.
Qed.

Lemma stable_sort_perm l : Permutation (stable_sort l) l.
Proof.
  induction l as [|x l IH]; cbn [stable_sort fold_right]; [reflexivity|].
  fold (stable_sort l). rewrite float_insert_perm. now constructor.
Qed.

Lemma float_insert_sorted x l :
  is_number x -> Forall is_number l ->
  StronglySorted fle l -> StronglySorted fle (insert_sorted x l).
Proof.
  intros Hx Hl Hs. induction Hs as [|y l Hs IH Hall]; cbn [insert_sorted].
  - repeat constructor.
  - inversion Hl as [|? ? Hy Hrest]; subst.
    destruct (PrimFloat.ltb y x) eqn:E.
    + constructor; [now apply IH|].
      apply List.Forall_forall. intros z Hz.
      apply (Permutation_in _ (float_insert_perm x l)) in Hz.
      destruct Hz as [<-|Hz]; [now apply flt_fle|].
      rewrite List.Forall_forall in Hall. now apply Hall.
    + pose proof (not_flt_fle x y Hx Hy E) as Hxy.
      constructor; [now constructor|].
      constructor; [exact Hxy|].
      apply List.Forall_forall. intros z Hz.
      rewrite List.Forall_forall in Hall.
      apply (fle_trans _ y); [exact Hxy | now apply Hall].
Qed.

Lemma stable_sort_contract : sort_contract stable_sort.
Proof.
  split; [apply stable_sort_perm|].
  induction l as [|x l IH]; intros Hl; cbn [stable_sort fold_right].
  - constructor.
  - inversion Hl as [|? ? Hx Hrest]; subst. fold (stable_sort l).
    apply float_insert_sorted; [exact Hx| |now apply IH].
    apply List.Forall_forall. intros z Hz.
    apply (Permutation_in _ (stable_sort_perm l)) in Hz.
    rewrite List.Forall_forall in Hrest. now apply Hrest.
Qed.

Variable sorted : list float -> list float.
Hypothesis sorted_contract : sort_contract sorted.

(** The summary exists for an aggregate with at least one sample, and its
    order statistics are the elements of the sorted times at the indices
    the code computes. *)
Lemma float_summarize_defined rows :
  (0 < sampleCount (aggregate rows))%nat ->
  let st := aggregate rows in
  let n := length (times st) in
  exists s, summarize sorted st = Some s
    /\ nth_error (sorted (times st)) (n / 2) = Some (medianResTime s)
    /\ nth_error (sorted (times st)) (Stats.pct_index Stats.P90 n) = Some (pct90 s)
    /\ nth_error (sorted (times st)) (Stats.pct_index Stats.P95 n) = Some (pct95 s)
    /\ nth_error (sorted (times st)) (Stats.pct_index Stats.P99 n) = Some (pct99 s)
    /\ py_min (times st) = Some (minResTime s)
    /\ py_max (times st) = Some (maxResTime s).
Proof.
  intros Hn st n. subst st.
  rewrite float_aggregate_count in Hn.
  assert (Hlen : n = length rows).
  { subst n. now rewrite float_aggregate_times, length_map. }
  assert (Hidx : forall i, (i < n)%nat ->
            exists x, nth_error (sorted (times (aggregate rows))) i = Some x).
  { intros i Hi.
    destruct (nth_error (sorted (times (aggregate rows))) i) eqn:E; [eauto|].
    apply nth_error_None in E.
    rewrite (Permutation_length (proj1 sorted_contract _)) in E. fold n in E. lia. }
  destruct (Hidx (n / 2)%nat) as [med Hmed].
  { apply Nat.div_lt; lia. }
  destruct (Hidx (Stats.pct_index Stats.P90 n)) as [a Ha].
  { apply (pct_index_spec 9 10); lia. }
  destruct (Hidx (Stats.pct_index Stats.P95 n)) as [b Hb].
  { apply (pct_index_spec 95 100); lia. }
  destruct (Hidx (Stats.pct_index Stats.P99 n)) as [c Hc].
  { apply (pct_index_spec 99 100); lia. }
  unfold summarize. fold n. rewrite Hmed, Ha, Hb, Hc.
  destruct (times (aggregate rows)) as [|t ts] eqn:Et; [simpl in n; lia|].
  cbn [py_min py_max]. eexists. repeat split; reflexivity.
Qed.

End FloatStatsFacts.

(** C2, as stated, fails: [float()] reads the elapsed time [nan], and no
    comparison with a [nan] holds.  For the single time [nan] the minimum,
    the median, the percentiles and the maximum are all [nan], and
    [nan <= nan] is false, whatever the sort does.  For the times 1, 1, 2,
    nan, 1 no element is less than its predecessor, so that the sort of the
    interpreter, which compares with [<], returns the list as it is: the
    median is 2 and the percentiles are 1. *)
Lemma percentiles_unordered_with_nan :
  ~ (forall (sorted : list float -> list float) (rows : list (float * bool)),
       FloatStats.sort_contract sorted ->
       (0 < FloatStats.sampleCount (FloatStats.aggregate rows))%nat ->
       exists s,
         FloatStats.summarize sorted (FloatStats.aggregate rows) = Some s
         /\ FloatStats.fle (FloatStats.minResTime s) (FloatStats.medianResTime s)
         /\ FloatStats.fle (FloatStats.medianResTime s) (FloatStats.pct90 s)
         /\ FloatStats.fle (FloatStats.pct90 s) (FloatStats.pct95 s)
         /\ FloatStats.fle (FloatStats.pct95 s) (FloatStats.pct99 s)
         /\ FloatStats.fle (FloatStats.pct99 s) (FloatStats.maxResTime s))
  /\ (forall sorted : list float -> list float,
        let times := [1; 1; 2; PrimFloat.nan; 1]%float in
        sorted times = times ->
        exists s,
          FloatStats.summarize sorted
            (FloatStats.aggregate (map (fun t => (t, true)) times)) = Some s
          /\ FloatStats.medianResTime s = 2%float
          /\ FloatStats.pct90 s = 1%float
          /\ PrimFloat.leb (FloatStats.medianResTime s) (FloatStats.pct90 s) = false).
Proof.
  split.
  - intros H.
    destruct (H FloatStats.stable_sort [(PrimFloat.nan, true)]
                stable_sort_contract ltac:(cbn; lia)) as (s & Hs & Hmin & _).
    vm_compute in Hs. injection Hs as <-.
    unfold FloatStats.fle in Hmin. vm_compute in Hmin. discriminate Hmin.
  - intros sorted times Hsorted. subst times.
    unfold FloatStats.summarize.
    replace (FloatStats.times
               (FloatStats.aggregate
                  (map (fun t => (t, true)) [1; 1; 2; PrimFloat.nan; 1]%float)))
      with [1; 1; 2; PrimFloat.nan; 1]%float by (vm_compute; reflexivity).
    rewrite Hsorted.
    eexists. split; [vm_compute; reflexivity|].
    repeat split; vm_compute; reflexivity.
Qed.

(** C2, amended.  For every aggregate built from at least one sample whose
    elapsed times are numbers (none is [nan]; infinities are numbers) the
    summary exists and its latency statistics are ordered:
    min <= median <= p90 <= p95 <= p99 <= max, in the order of the doubles,
    for every sort that rearranges its list and makes lists of numbers
    ascend. *)
Theorem percentiles_are_ordered
    (sorted : list float -> list float) (rows : list (float * bool))
    (Hsort : FloatStats.sort_contract sorted)
    (Hnumbers : Forall (fun r => FloatStats.is_number (fst r)) rows)
    (Hcount : (0 < FloatStats.sampleCount (FloatStats.aggregate rows))%nat) :
  exists s,
    FloatStats.summarize sorted (FloatStats.aggregate rows) = Some s
    /\ FloatStats.fle (FloatStats.minResTime s) (FloatStats.medianResTime s)
    /\ FloatStats.fle (FloatStats.medianResTime s) (FloatStats.pct90 s)
    /\ FloatStats.fle (FloatStats.pct90 s) (FloatStats.pct95 s)
    /\ FloatStats.fle (FloatStats.pct95 s) (FloatStats.pct99 s)
    /\ FloatStats.fle (FloatStats.pct99 s) (FloatStats.maxResTime s).
Proof.
  destruct (float_summarize_defined sorted Hsort rows Hcount)
    as (s & Hs & Hmed & H90 & H95 & H99 & Hmin & Hmax).
  exists s. split; [exact Hs|].
  assert (Htimes : Forall FloatStats.is_number
                     (FloatStats.times (FloatStats.aggregate rows))).
  { rewrite float_aggregate_times. apply List.Forall_forall. intros t Ht.
    apply in_map_iff in Ht as (r & <- & Hr).
    rewrite List.Forall_forall in Hnumbers. now apply Hnumbers. }
  pose proof (proj2 Hsort _ Htimes) as Hsorted.
  pose proof (proj1 Hsort (FloatStats.times (FloatStats.aggregate rows))) as Hperm.
  assert (Hnum : Forall FloatStats.is_number
                   (sorted (FloatStats.times (FloatStats.aggregate rows)))).
  { apply List.Forall_forall. intros t Ht.
    apply (Permutation_in _ Hperm) in Ht.
    rewrite List.Forall_forall in Htimes. now apply Htimes. }
  set (n := length (FloatStats.times (FloatStats.aggregate rows))) in *.
  repeat split.
  - apply (float_min_le _ _ _ Htimes Hmin).
    apply (Permutation_in _ Hperm). now apply nth_error_In in Hmed.
  - apply (float_ascending_nth _ Hsorted Hnum _ _ _ _ (half_le_p90 n) Hmed H90).
  - refine (float_ascending_nth _ Hsorted Hnum _ _ _ _ _ H90 H95).
    apply pct_index_mono; lia.
  - refine (float_ascending_nth _ Hsorted Hnum _ _ _ _ _ H95 H99).
    apply pct_index_mono; lia.
  - apply (float_max_ge _ _ _ Htimes Hmax).
    apply (Permutation_in _ Hperm). now apply nth_error_In in H99.
Qed.

Lemma percentiles_are_ordered_witness :
  exists s,
    FloatStats.summarize FloatStats.stable_sort
      (FloatStats.aggregate [(5, true); (3, true); (4.5, false)]%float) = Some s
    /\ FloatStats.fle (FloatStats.minResTime s) (FloatStats.medianResTime s)
    /\ FloatStats.fle (FloatStats.medianResTime s) (FloatStats.pct90 s)
    /\ FloatStats.fle (FloatStats.pct90 s) (FloatStats.pct95 s)
    /\ FloatStats.fle (FloatStats.pct95 s) (FloatStats.pct99 s)
    /\ FloatStats.fle (FloatStats.pct99 s) (FloatStats.maxResTime s).
Proof.
  apply (percentiles_are_ordered FloatStats.stable_sort
           [(5, true); (3, true); (4.5, false)]%float stable_sort_contract).
  - repeat constructor.
  - cbn. lia.
Defined.

(** ** Timestamp units and the XML/CSV fallback *)

Section JtlFacts.
Import Jtl.
Local Open Scope Z_scope.




End JtlFacts.




(** ** The narrative service *)

Section AiServiceFacts.
Import AiService.
Local Open Scope Z_scope.

Lemma call_with_key cfg post :
  provider_configured cfg ->
  exists api_key,
    api_keys cfg !! ai_service cfg = Some api_key
    /\ call_ai_service cfg post =
       match api_key with
       | [] => Ret (Some mock_analysis, [])
       | _ => Ret (attempt_loop post (seq 0 max_retries) 2 [])
       end.
Proof.
  intros ([k Hk] & [e He] & [m Hm]). exists k. split; [assumption|].
  unfold call_ai_service, lookup_key, mbind, result_bind, bind.
  now rewrite Hk, He, Hm.
Qed.

End AiServiceFacts.

(** C5, as stated, fails: the three look-ups by provider name stand before
    the [try], and the configuration loader accepts any provider name.  With
    the built-in tables and a user file that sets [ai_service] to a name
    they do not hold, the call raises [KeyError] to its caller, whatever the
    service would have answered. *)
Lemma call_ai_service_raises_without_provider :
  let tables (deepseek qianwen moon yunwu : pystr) : gmap pystr pystr :=
    {[ py "deepseek" := deepseek; py "qianwen" := qianwen;
       py "moon" := moon; py "yunwu" := yunwu ]} in
  let cfg :=
    AiService.Config (py "openai")
      (tables [] [] [] [])
      (tables (py "https://api.deepseek.com/v1/chat/completions")
              (py "https://dashscope.aliyuncs.com/compatible-mode/v1")
              (py "https://api.moonshot.cn/v1/chat/completions")
              (py "https://api.yunwuai.com/v1/chat/completions"))
      (tables (py "deepseek-chat") (py "ep-20240101000000-xxxx")
              (py "moonshot-v1-8k") (py "yunwu-7b")) in
  AiService.call_ai_service cfg (fun _ => Ret (py "narrative")) = Raise OtherError.
Proof. vm_compute. reflexivity. Qed.

(** C5, amended.  With a configuration that holds the provider it names,
    the call always returns a narrative and never raises, whatever the
    service does.  Without an API key it sends nothing and returns the
    placeholder.  With a key it sends the first request at once, sends at
    most three, numbered from 0, and pauses 2 s and then 4 s between them; a
    request is repeated only after a timeout.  The narrative is the reply of
    the first request that did not time out when that request succeeded; it
    is the local placeholder when that request failed in any other way, and
    when all three timed out. *)
Theorem call_ai_service_never_raises
    (cfg : AiService.config) (post : nat -> result pystr)
    (Hcfg : AiService.provider_configured cfg) :
  exists api_key narrative trace,
    AiService.api_keys cfg !! AiService.ai_service cfg = Some api_key
    /\ AiService.call_ai_service cfg post = Ret (Some narrative, trace)
    /\ (api_key = [] -> trace = [] /\ narrative = AiService.mock_analysis)
    /\ (api_key <> [] ->
        exists requests,
          (1 <= requests <= 3)%nat
          /\ AiService.posts trace = seq 0 requests
          /\ trace = firstn (2 * requests - 1)
                       [AiService.Post 0; AiService.Sleep 2; AiService.Post 1;
                        AiService.Sleep 4; AiService.Post 2])
    /\ (length (AiService.posts trace) <= 3)%nat
    /\ (AiService.sleeps trace = [] \/ AiService.sleeps trace = [2%Z]
        \/ AiService.sleeps trace = [2%Z; 4%Z])
    /\ (forall a, In a (removelast (AiService.posts trace)) -> post a = Raise Timeout)
    /\ match last (AiService.posts trace) with
       | None => narrative = AiService.mock_analysis
       | Some a =>
         match post a with
         | Ret content => narrative = content
         | Raise Timeout =>
           narrative = AiService.mock_analysis /\ a = 2%nat
           /\ AiService.sleeps trace = [2%Z; 4%Z]
         | Raise _ => narrative = AiService.mock_analysis
         end
       end.
Proof.
  destruct (call_with_key cfg post Hcfg) as (k & Hk & ->).
  exists k. destruct k as [|c k].
  { exists AiService.mock_analysis, []. simpl. repeat split; auto; tauto. }
  assert (Hkey : forall P : Prop, (c :: k = [] -> P)) by discriminate.
  unfold AiService.max_retries. cbn [seq AiService.attempt_loop app].
  destruct (post 0%nat) as [c0|e0] eqn:E0.
  { do 2 eexists. split; [exact Hk|]. split; [reflexivity|]. split; [apply Hkey|].
    split; [intros _; exists 1%nat; repeat split; auto|].
    simpl. rewrite E0. repeat split; auto. tauto. }
  destruct e0;
    try (do 2 eexists; split; [exact Hk|]; split; [reflexivity|];
         split; [apply Hkey|];
         split; [intros _; exists 1%nat; repeat split; auto|];
         simpl; rewrite E0; repeat split; auto; tauto).
  cbn [Nat.ltb Nat.leb AiService.max_retries Nat.sub].
  destruct (post 1%nat) as [c1|e1] eqn:E1.
  { do 2 eexists. split; [exact Hk|]. split; [reflexivity|]. split; [apply Hkey|].
    split; [intros _; exists 2%nat; repeat split; auto|].
    simpl. rewrite E1. repeat split; auto. intros a [<-|[]]. assumption. }
  destruct e1;
    try (do 2 eexists; split; [exact Hk|]; split; [reflexivity|];
         split; [apply Hkey|];
         split; [intros _; exists 2%nat; repeat split; auto|];
         simpl; rewrite E1;
         repeat split; auto; intros a [<-|[]]; assumption).
  cbn [Nat.ltb Nat.leb AiService.max_retries Nat.sub].
  destruct (post 2%nat) as [c2|e2] eqn:E2.
  { do 2 eexists. split; [exact Hk|]. split; [reflexivity|]. split; [apply Hkey|].
    split; [intros _; exists 3%nat; repeat split; auto|].
    simpl. rewrite E2. repeat split; auto. intros a [<-|[<-|[]]]; assumption. }
  destruct e2;
    do 2 eexists; (split; [exact Hk|]); (split; [reflexivity|]);
    (split; [apply Hkey|]);
    (split; [intros _; exists 3%nat; repeat split; auto|]);
    simpl; rewrite E2;
    repeat split; auto; intros a [<-|[<-|[]]]; assumption.
Qed.

Lemma call_ai_service_never_raises_witness :
  exists narrative,
    AiService.call_ai_service
      (AiService.Config (py "deepseek")
         {[ py "deepseek" := py "key" ]} {[ py "deepseek" := py "url" ]}
         {[ py "deepseek" := py "deepseek-chat" ]})
      (fun attempt => if (attempt <? 1)%nat then Raise Timeout
                      else Ret (py "narrative"))
    = Ret (Some narrative,
           [AiService.Post 0; AiService.Sleep 2; AiService.Post 1]).
Proof.
  destruct (call_ai_service_never_raises
              (AiService.Config (py "deepseek")
                 {[ py "deepseek" := py "key" ]} {[ py "deepseek" := py "url" ]}
                 {[ py "deepseek" := py "deepseek-chat" ]})
              (fun attempt => if (attempt <? 1)%nat then Raise Timeout
                              else Ret (py "narrative")))
    as (api_key & narrative & trace & Hkey & Hcall & _).
  - repeat split; cbn [AiService.api_keys AiService.api_endpoints
                       AiService.model_names AiService.ai_service];
      rewrite lookup_singleton_eq; eauto.
  - exists narrative. rewrite Hcall. vm_compute in Hcall.
    injection Hcall as <- <-. reflexivity.
Defined.

(** ** The markup extractor *)

Section DashboardFacts.
Import Dashboard.

Lemma row_data_fold (hv : list (pystr * pystr)) : forall m : gmap pystr pystr,
  dom (fold_left (fun m hv => <[fst hv := str_strip (snd hv)]> m) hv m)
  = dom m ∪ list_to_set (map fst hv).
Proof.
  induction hv as [|[h v] hv IH]; intros m; simpl.
  - now rewrite union_empty_r_L.
  - rewrite IH, dom_insert_L.
    rewrite (union_comm_L {[h]} (dom m)). now rewrite union_assoc_L.
Qed.

Lemma fst_combine (headers values : list pystr) :
  length values = length headers ->
  map fst (combine headers values) = headers.
Proof.
  revert values. induction headers as [|h hs IH]; intros [|v vs] Hlen;
    simpl in *; try discriminate; [reflexivity|].
  f_equal. apply IH. now injection Hlen.
Qed.

(** With as many cells as headers, the keys of a row are the headers. *)
Lemma row_data_dom (headers values : list pystr) :
  length values = length headers ->
  dom (row_data headers values) = list_to_set headers.
Proof.
  intros Hlen. unfold row_data.
  now rewrite row_data_fold, dom_empty_L, union_empty_l_L, fst_combine.
Qed.

Lemma table_rows_from keep html :
  rows_from (table_headers html) (scraped_rows html) (table_rows keep html).
Proof.
  unfold rows_from, table_rows.
  generalize (table_headers html) as headers. intros headers.
  induction (scraped_rows html) as [|values scraped IH]; simpl; [constructor|].
  apply Forall_app. split.
  - destruct (Nat.eqb_spec (length values) (length headers)) as [E|E];
      [|constructor].
    destruct (keep _); constructor; [|constructor].
    split; [now apply row_data_dom|].
    exists values. auto.
  - eapply Forall_impl; [exact IH|].
    intros row (Hdom & values' & Hin & Hlen & Hrow).
    split; [assumption|]. exists values'. auto.
Qed.

Lemma parse_table_rows_from keep title content :
  rows_from (headers_of title content) (scraped_of title content)
            (parse_table keep title content).
Proof.
  unfold headers_of, scraped_of, parse_table.
  destruct (section_html title content); [apply table_rows_from | constructor].
Qed.

(** A table that keeps every row has exactly one row for each scraped row
    with the right number of cells: the others are dropped whole. *)
Lemma parse_table_keep_all_length title content :
  length (parse_table keep_all title content)
  = length (List.filter
              (fun values => (length values =? length (headers_of title content))%nat)
              (scraped_of title content)).
Proof.
  unfold headers_of, scraped_of, parse_table.
  destruct (section_html title content) as [html|]; [|reflexivity].
  unfold table_rows. generalize (table_headers html) as headers. intros headers.
  induction (scraped_rows html) as [|values scraped IH]; [reflexivity|].
  cbn [flat_map List.filter]. rewrite length_app, IH.
  now destruct (length values =? length headers)%nat.
Qed.

End DashboardFacts.

(** C8.  In the dashboard extracted from any document, every row of the
    statistics, errors and top-errors tables has the headers of its table as
    its key set and is the dict of one scraped row with as many cells as
    there are headers; in the errors and top-errors tables each such scraped
    row gives one row, and every other scraped row gives none. *)
Theorem dashboard_rows_match_headers (nd : char -> bool) (content : pystr) :
  let d := Dashboard.parse_index_html nd content in
  Dashboard.rows_from (Dashboard.headers_of "Statistics" content)
            (Dashboard.scraped_of "Statistics" content)
            (Dashboard.statistics d)
  /\ Dashboard.rows_from (Dashboard.headers_of "Errors" content)
               (Dashboard.scraped_of "Errors" content)
               (Dashboard.errors d)
  /\ Dashboard.rows_from (Dashboard.headers_of "Top 5 Errors by sampler" content)
               (Dashboard.scraped_of "Top 5 Errors by sampler" content)
               (Dashboard.top_errors d)
  /\ length (Dashboard.errors d)
     = length (List.filter
                 (fun values =>
                    (length values
                     =? length (Dashboard.headers_of "Errors" content))%nat)
                 (Dashboard.scraped_of "Errors" content))
  /\ length (Dashboard.top_errors d)
     = length (List.filter
                 (fun values =>
                    (length values
                     =? length (Dashboard.headers_of "Top 5 Errors by sampler"
                                  content))%nat)
                 (Dashboard.scraped_of "Top 5 Errors by sampler" content)).
Proof.
  cbv zeta. cbn [Dashboard.statistics Dashboard.errors Dashboard.top_errors
                 Dashboard.parse_index_html].
  repeat split;
    first [apply parse_table_rows_from | apply parse_table_keep_all_length].
Qed.

(** A document with an errors table of two headers: the row with two cells
    is kept, the row with one cell is dropped. *)
Example dashboard_drops_short_row :
  let content :=
    py "<h2>Errors</h2><table><tr><th>Error</th><th>Count</th></tr>"
    ++ py "<tr><td>500</td><td> 3 </td></tr><tr><td>404</td></tr></table></div>" in
  Dashboard.headers_of "Errors" content = [py "Error"; py "Count"]
  /\ Dashboard.scraped_of "Errors" content = [[py "500"; py " 3 "]; [py "404"]]
  /\ Dashboard.errors (Dashboard.parse_index_html (fun _ => false) content)
     = [Dashboard.row_data [py "Error"; py "Count"] [py "500"; py " 3 "]].
Proof. cbv zeta. repeat split; vm_compute; reflexivity. Qed.

(** ** TPS from a rendered report *)

Section HtmlTpsFacts.


End HtmlTpsFacts.



(** ** Linear patterns are read without backtracking *)

Section LinearFacts.
Import Linear.
Local Open Scope N_scope.

Lemma run_nil s prev i caps k : run s [] prev i caps k = k (MState prev s i caps).
Proof. now destruct s. Qed.

Lemma determinate_app a b : determinate (a ++ b) = true -> determinate b = true.
Proof.
  induction a as [|t a IH]; simpl; [auto|].
  destruct t as [c|lo p]; [exact IH|].
  destruct a as [|t' a]; simpl in *.
  - destruct b as [|[c|] b]; try discriminate.
    intros H. apply andb_prop in H as [_ H]. exact H.
  - destruct t' as [c|]; try discriminate.
    intros H. apply andb_prop in H as [_ H]. auto.
Qed.

(** A greedy repetition followed by a literal outside its class. *)
Lemma rep_run p c r k0 k :
  p c = false ->
  (forall st, k st = run_st (TChr c :: r) k0 st) ->
  forall s lo prev i caps,
    rep true p k lo prev s i caps = run s (TRep lo p :: TChr c :: r) prev i caps k0.
Proof.
  intros Hpc Hk. induction s as [|x s IH]; intros lo prev i caps.
  - destruct lo; simpl; [|reflexivity]. now rewrite Hk.
  - cbn [rep run step]. destruct lo as [|lo].
    + destruct (p x) eqn:Hpx.
      * rewrite IH. destruct (run s _ _ _ _ _) eqn:E; [reflexivity|].
        rewrite Hk. unfold run_st. cbn [m_rest m_prev m_pos m_caps run step].
        destruct (N.eqb_spec x c) as [->|]; [congruence | reflexivity].
      * rewrite Hk. reflexivity.
    + destruct (p x); [apply IH | reflexivity].
Qed.

(** The engine on a linear pattern is the reading machine. *)
Lemma re_m_linear r : forall ts ts2 k0 k,
  flatten r = Some ts ->
  determinate (ts ++ ts2) = true ->
  (forall st, k st = run_st ts2 k0 st) ->
  forall st, re_m r k st = run_st (ts ++ ts2) k0 st.
Proof.
  induction r as [|c|p|a IHa b IHb|a IHa b IHb|g lo p|n r IH| |];
    intros ts ts2 k0 k Hf Hd Hk st; simpl in Hf; try discriminate.
  - injection Hf as <-. simpl. apply Hk.
  - injection Hf as <-. destruct st as [prev s i caps].
    unfold run_st; cbn [re_m m_rest m_prev m_pos m_caps app].
    destruct s as [|x s]; [reflexivity|]. cbn [run step].
    destruct (x =? c); [|reflexivity]. rewrite Hk. reflexivity.
  - destruct (flatten a) as [ta|] eqn:Ea; [|discriminate].
    destruct (flatten b) as [tb|] eqn:Eb; [|discriminate].
    injection Hf as <-. rewrite <- app_assoc in *.
    cbn [re_m]. apply (IHa ta (tb ++ ts2) k0); [reflexivity | assumption |].
    intros st'. apply (IHb tb ts2 k0); [reflexivity | | assumption].
    now apply determinate_app in Hd.
  - destruct g; [|discriminate]. injection Hf as <-.
    cbn [app] in *. cbn [determinate] in Hd.
    destruct ts2 as [|[c|] r]; try discriminate.
    apply andb_prop in Hd as [Hpc _]. apply negb_true_iff in Hpc.
    destruct st as [prev s i caps]. unfold run_st.
    cbn [re_m m_rest m_prev m_pos m_caps]. now apply rep_run.
Qed.

(** What [det_match] reads is a prefix of the text, and not an empty one
    unless the pattern is empty. *)
Lemma det_match_split s : forall ts rest,
  det_match s ts = Some rest ->
  exists m, s = m ++ rest /\ (ts <> [] -> m <> []).
Proof.
  induction s as [|c s IH]; intros ts rest E.
  - destruct ts; simpl in E; [|discriminate]. injection E as <-.
    exists []. split; [reflexivity | congruence].
  - destruct ts as [|t ts]; cbn [det_match] in E.
    { injection E as <-. exists []. split; [reflexivity | congruence]. }
    destruct (step (t :: ts) c) as [q|]; [|discriminate].
    destruct (IH q rest E) as (m & -> & _).
    exists (c :: m). split; [reflexivity | discriminate].
Qed.

(** The continuation-passing machine against the plain one: a match leaves
    the captures alone, ends where [det_match] ends, and moves the cursor
    by the length of the text read. *)
Lemma run_det s : forall ts prev i caps,
  match det_match s ts with
  | Some rest =>
    exists st, run s ts prev i caps Some = Some st
      /\ m_rest st = rest /\ m_caps st = caps
      /\ m_pos st = (i + (length s - length rest))%nat
  | None => run s ts prev i caps Some = None
  end.
Proof.
  induction s as [|c s IH]; intros ts prev i caps.
  - destruct ts; simpl; [|reflexivity].
    eexists. split; [reflexivity|]. simpl. repeat split. lia.
  - destruct ts as [|t ts]; cbn [run det_match].
    { eexists. split; [reflexivity|]. simpl. repeat split. lia. }
    destruct (step (t :: ts) c) as [q|]; [|reflexivity].
    specialize (IH q (Some c) (S i) caps).
    destruct (det_match s q) as [rest|] eqn:E; [|exact IH].
    destruct IH as (st & Hrun & Hrest & Hcaps & Hpos).
    exists st. repeat split; try assumption.
    apply det_match_split in E as (m & -> & _).
    rewrite Hpos. cbn [length]. rewrite length_app. lia.
Qed.

End LinearFacts.

Section ReadingFacts.
Import Linear.
Local Open Scope N_scope.

Lemma self_in_states ts : In ts (states ts).
Proof.
  destruct ts as [|[c|lo p] r]; cbn [states]; [now left | now left |].
  apply in_or_app. left. apply in_map_iff. exists lo. split; [reflexivity|].
  apply in_seq. lia.
Qed.

(** The states of a pattern are closed under reading a character. *)
Lemma step_states ts : forall q c q',
  In q (states ts) -> step q c = Some q' -> In q' (states ts).
Proof.
  induction ts as [|t ts IH]; intros q c q' Hq Hs.
  - destruct Hq as [<-|[]]. discriminate.
  - destruct t as [x|lo p]; cbn [states] in *.
    + destruct Hq as [<-|Hq].
      * simpl in Hs. destruct (c =? x); [|discriminate].
        injection Hs as <-. right. apply self_in_states.
      * right. eapply IH; eassumption.
    + apply in_app_or in Hq as [Hq|Hq].
      * apply in_map_iff in Hq as (j & <- & Hj). apply in_seq in Hj.
        destruct j as [|j]; cbn [step] in Hs.
        -- destruct (p c).
           ++ injection Hs as <-. apply in_or_app. left.
              apply in_map_iff. exists O. split; [reflexivity|].
              apply in_seq. lia.
           ++ apply in_or_app. right.
              eapply IH; [apply self_in_states | eassumption].
        -- destruct (p c); [|discriminate]. injection Hs as <-.
           apply in_or_app. left. apply in_map_iff. exists j.
           split; [reflexivity|]. apply in_seq. lia.
      * apply in_or_app. right. eapply IH; eassumption.
Qed.

Lemma feed_states ts u : forall q q',
  In q (states ts) -> feed u q = More q' -> In q' (states ts) /\ q' <> [].
Proof.
  induction u as [|c u IH]; intros q q' Hq Hf.
  - destruct q; simpl in Hf; [discriminate|]. injection Hf as <-.
    split; [assumption | discriminate].
  - destruct q as [|t q]; cbn [feed] in Hf; [discriminate|].
    destruct (step (t :: q) c) as [q1|] eqn:E; [|discriminate].
    eapply IH; [|eassumption]. eapply step_states; eassumption.
Qed.

(** Reading [u ++ v] is reading [u] and then [v]. *)
Lemma feed_app u v : forall ts,
  det_match (u ++ v) ts =
  match feed u ts with
  | Fail => None
  | Done r => Some (r ++ v)
  | More q => det_match v q
  end.
Proof.
  induction u as [|c u IH]; intros ts.
  - destruct ts; simpl; [now destruct v | reflexivity].
  - destruct ts as [|t ts]; cbn [app det_match feed]; [reflexivity|].
    destruct (step (t :: ts) c); [apply IH | reflexivity].
Qed.

Lemma dead_end_app u v q :
  dead_end u q = true -> q <> [] -> det_match (u ++ v) q = None.
Proof.
  intros Hd Hq. rewrite feed_app. destruct q; [congruence|].
  cbn [dead_end] in Hd. now destruct (feed u (t :: q)).
Qed.

Lemma no_start_in_app ts u v k :
  no_start_in ts u = true -> (k < length u)%nat ->
  det_match (skipn k u ++ v) ts = None.
Proof.
  intros H Hk. unfold no_start_in in H. rewrite forallb_forall in H.
  specialize (H k). rewrite feed_app.
  destruct (feed (skipn k u) ts); [reflexivity | |];
    (discriminate H; apply in_seq; lia).
Qed.

(** *** [clean] texts *)

Lemma clean_skipn ts x : clean ts x -> forall k, det_match (skipn k x) ts = None.
Proof.
  induction x as [|c x IH]; intros [H1 H2] k.
  - now destruct k.
  - destruct k; [exact H1 | apply IH, H2].
Qed.

Lemma clean_app ts u v :
  (forall k, (k < length u)%nat -> det_match (skipn k u ++ v) ts = None) ->
  clean ts v -> clean ts (u ++ v).
Proof.
  induction u as [|c u IH]; intros H Hv; [exact Hv|].
  split.
  - apply (H O). simpl. lia.
  - apply IH; [|exact Hv]. intros k Hk. apply (H (S k)). simpl. lia.
Qed.

End ReadingFacts.

(** ** Replacing every match leaves no match *)

Section Substitution.
Import Linear.
Local Open Scope N_scope.

Variable ts : list tok.
Variable repl : pystr.
Hypothesis ts_nonempty : ts <> [].

Let psub := psub_go ts repl O.

Lemma psub_nil : psub [] = [].
Proof. unfold psub. destruct ts; [congruence | reflexivity]. Qed.

Lemma psub_skip s : forall n, psub_go ts repl n s = psub (skipn n s).
Proof.
  induction s as [|c s IH]; intros [|n]; try reflexivity.
  - now rewrite skipn_nil, psub_nil.
  - cbn [psub_go skipn]. apply IH.
Qed.

Lemma psub_copy c s : det_match (c :: s) ts = None -> psub (c :: s) = c :: psub s.
Proof. intros H. unfold psub. cbn [psub_go]. now rewrite H. Qed.

Lemma psub_match s rest :
  det_match s ts = Some rest -> psub s = repl ++ psub rest.
Proof.
  intros H. destruct (det_match_split s ts rest H) as (m & -> & Hm).
  destruct m as [|c m]; [now elim Hm|].
  unfold psub at 1. cbn [app psub_go]. cbn [app] in H. rewrite H. f_equal.
  rewrite psub_skip. f_equal.
  cbn [length]. rewrite length_app.
  replace (Nat.pred (S (length m + length rest) - length rest)) with (length m) by lia.
  now rewrite skipn_app, skipn_all, Nat.sub_diag.
Qed.

(** The scan writes nothing but characters of the text and of the
    replacement. *)
Lemma psub_go_in x : forall s skip,
  In x (psub_go ts repl skip s) -> In x s \/ In x repl.
Proof.
  induction s as [|c s IH]; intros [|n]; cbn [psub_go].
  - destruct (det_match [] ts); [rewrite app_nil_r; now right | intros []].
  - intros [].
  - destruct (det_match (c :: s) ts).
    + intros H. apply in_app_or in H as [H|H]; [now right|].
      apply IH in H as [H|H]; [left; now right | now right].
    + intros [<-|H]; [left; now left|].
      apply IH in H as [H|H]; [left; now right | now right].
  - intros H. apply IH in H as [H|H]; [left; now right | now right].
Qed.

Lemma det_match_cons c s :
  det_match (c :: s) ts =
  match step ts c with Some q => det_match s q | None => None end.
Proof. destruct ts; [congruence | reflexivity]. Qed.

Lemma det_match_shorter s rest :
  det_match s ts = Some rest -> (length rest < length s)%nat.
Proof.
  intros H. destruct (det_match_split s ts rest H) as (m & -> & Hm).
  destruct m; [now elim Hm|]. rewrite length_app. simpl. lia.
Qed.

Section Inert.

(** The replacement is [head ++ name ++ tail]; the pattern starts with a
    literal; no state on the way through the pattern can read on into
    [head] or into [tail]; no match starts inside [head] or [tail]; and
    [name] holds no match. *)
Variable c0 : char.
Variable ts' : list tok.
Variables head name tail : pystr.
Hypothesis ts_shape : ts = TChr c0 :: ts'.
Hypothesis repl_shape : repl = head ++ name ++ tail.
Hypothesis head_dead : forallb (dead_end head) (states ts') = true.
Hypothesis tail_dead : forallb (dead_end tail) (states ts') = true.
Hypothesis head_no_start : no_start_in ts head = true.
Hypothesis tail_no_start : no_start_in ts tail = true.
Hypothesis name_clean : clean ts name.

(** A match attempt that is still under way where a replacement begins
    fails in the replacement as it failed in the text replaced. *)
Lemma through_sub : forall n s q,
  (length s <= n)%nat -> In q (states ts') ->
  det_match s q = None -> det_match (psub s) q = None.
Proof.
  induction n as [|n IH]; intros s q Hn Hq Hs.
  - destruct s; [|simpl in Hn; lia]. now rewrite psub_nil.
  - destruct s as [|c s]; [now rewrite psub_nil|].
    destruct q as [|t q]; [discriminate|].
    destruct (det_match (c :: s) ts) as [rest|] eqn:E.
    + rewrite (psub_match _ _ E), repl_shape, <- app_assoc.
      apply dead_end_app; [|discriminate].
      rewrite forallb_forall in head_dead. now apply head_dead.
    + rewrite (psub_copy _ _ E). cbn [det_match] in *.
      destruct (step (t :: q) c) as [q'|] eqn:Es; [|reflexivity].
      apply IH; [simpl in Hn; lia | | assumption].
      eapply step_states; eassumption.
Qed.

Lemma repl_clean w : clean ts w -> clean ts (repl ++ w).
Proof.
  intros Hw. rewrite repl_shape, <- !app_assoc.
  apply clean_app; [intros k Hk; now apply no_start_in_app|].
  apply clean_app; [|apply clean_app;
                      [intros k Hk; now apply no_start_in_app | exact Hw]].
  intros k Hk.
  pose proof (clean_skipn _ _ name_clean k) as Hnone.
  destruct (skipn k name) as [|x u] eqn:Ek.
  { apply (f_equal (@length _)) in Ek. rewrite length_skipn in Ek. simpl in Ek. lia. }
  rewrite <- (app_nil_r (x :: u)), feed_app in Hnone.
  rewrite feed_app.
  destruct (feed (x :: u) ts) as [|r|q] eqn:Ef; [reflexivity | discriminate |].
  assert (Ef' : feed (x :: u) (TChr c0 :: ts') = More q) by now rewrite <- ts_shape.
  clear Ef. rename Ef' into Ef. cbn [feed step] in Ef.
  destruct (x =? c0); [|discriminate].
  apply (feed_states ts') in Ef as [Hq Hne]; [|apply self_in_states].
  apply dead_end_app; [|assumption].
  rewrite forallb_forall in tail_dead. now apply tail_dead.
Qed.

(** After the replacement of every match no match is left. *)
Lemma psub_clean : forall n s, (length s <= n)%nat -> clean ts (psub s).
Proof.
  assert (Hnil : clean ts []).
  { split; [|exact I]. destruct ts; [congruence | reflexivity]. }
  induction n as [|n IH]; intros s Hn.
  - destruct s; [|simpl in Hn; lia]. now rewrite psub_nil.
  - destruct s as [|c s]; [now rewrite psub_nil|].
    destruct (det_match (c :: s) ts) as [rest|] eqn:E.
    + rewrite (psub_match _ _ E). apply repl_clean, IH.
      apply det_match_shorter in E. simpl in *. lia.
    + rewrite (psub_copy _ _ E). split; [|apply IH; simpl in Hn; lia].
      rewrite det_match_cons in E |- * by assumption.
      assert (Hstep : step ts c = if c =? c0 then Some ts' else None)
        by (rewrite ts_shape; reflexivity).
      rewrite Hstep in E |- *.
      destruct (c =? c0); [|reflexivity].
      apply (through_sub (length s)); [lia | apply self_in_states | assumption].
Qed.

End Inert.

(** *** The engine on a linear pattern *)

Variable r : regex.
Hypothesis r_linear : flatten r = Some ts.
Hypothesis r_determinate : determinate ts = true.

Lemma match_here_linear prev s i :
  match det_match s ts with
  | Some rest =>
    exists st, match_here r prev s i = Some st
      /\ m_pos st = (i + (length s - length rest))%nat
  | None => match_here r prev s i = None
  end.
Proof.
  unfold match_here.
  rewrite (re_m_linear r ts [] Some Some r_linear);
    [| now rewrite app_nil_r
     | intros [a b c d]; unfold run_st; cbn [m_rest m_prev m_pos m_caps];
       now rewrite run_nil ].
  rewrite app_nil_r. unfold run_st. cbn [m_rest m_prev m_pos m_caps].
  pose proof (run_det s ts prev i []) as H.
  destruct (det_match s ts); [|exact H].
  destruct H as (st & H1 & _ & _ & H2). eauto.
Qed.

Lemma sub_go_linear text : forall s skip prev i,
  sub_go r [TLit repl] text skip prev s i = psub_go ts repl skip s.
Proof.
  induction s as [|c s IH]; intros [|n] prev i; try reflexivity.
  - cbn [sub_go psub_go].
    pose proof (match_here_linear prev [] i) as H.
    destruct (det_match [] ts) as [rest|] eqn:E.
    + apply det_match_shorter in E. simpl in E. lia.
    + now rewrite H.
  - cbn [sub_go psub_go].
    pose proof (match_here_linear prev (c :: s) i) as H.
    destruct (det_match (c :: s) ts) as [rest|] eqn:E.
    + destruct H as (st & -> & Hpos).
      pose proof (det_match_shorter _ _ E) as Hlt.
      cbn [expand flat_map]. rewrite app_nil_r. f_equal.
      rewrite Hpos.
      replace (i + (length (c :: s) - length rest) - i)%nat
        with (S (Nat.pred (length (c :: s) - length rest))) by lia.
      apply IH.
    + rewrite H. f_equal. apply IH.
  - cbn [sub_go psub_go]. apply IH.
Qed.

Lemma search_linear : forall s prev i,
  search_from r prev s i = None <-> clean ts s.
Proof.
  induction s as [|c s IH]; intros prev i; cbn [search_from clean].
  - pose proof (match_here_linear prev [] i) as H0.
    destruct (det_match [] ts) as [rest|].
    + destruct H0 as (st & -> & _). split; [discriminate | intros [? _]; discriminate].
    + rewrite H0. tauto.
  - pose proof (match_here_linear prev (c :: s) i) as H1.
    destruct (det_match (c :: s) ts) as [rest|].
    + destruct H1 as (st & -> & _). split; [discriminate | intros [? _]; discriminate].
    + rewrite H1, IH. tauto.
Qed.

End Substitution.

(** ** The report patcher *)

Section PatcherFacts.
Import Linear Patcher.
Local Open Scope N_scope.

Lemma original_flatten : flatten original_ai_pattern = Some original_tokens.
Proof.
  assert (H : match flatten original_ai_pattern with
              | Some _ => true
              | None => false
              end = true) by (vm_compute; reflexivity).
  unfold original_tokens. now destruct (flatten original_ai_pattern).
Qed.

Lemma original_determinate : determinate original_tokens = true.
Proof. vm_compute. reflexivity. Qed.

Lemma original_shape : original_tokens = TChr 60 :: tl original_tokens.
Proof.
  assert (H : match original_tokens with
              | TChr c :: _ => c =? 60
              | _ => false
              end = true) by (vm_compute; reflexivity).
  destruct original_tokens as [|[c|lo p] r]; try discriminate.
  apply N.eqb_eq in H. now subst.
Qed.

Lemma original_nonempty : original_tokens <> [].
Proof. pose proof original_shape. congruence. Qed.

#[local] Opaque original_tokens original_ai_pattern section_head section_tail.

(** No state on the way through the Unpatched pattern reads on into the
    head or into the tail of the new section, and no match starts inside
    either of them. *)
Lemma section_head_dead :
  forallb (dead_end section_head) (states (tl original_tokens)) = true.
Proof. vm_compute. reflexivity. Qed.

Lemma section_tail_dead :
  forallb (dead_end section_tail) (states (tl original_tokens)) = true.
Proof. vm_compute. reflexivity. Qed.

Lemma section_head_no_start : no_start_in original_tokens section_head = true.
Proof. vm_compute. reflexivity. Qed.

Lemma section_tail_no_start : no_start_in original_tokens section_tail = true.
Proof. vm_compute. reflexivity. Qed.

Lemma search_original text :
  re_search original_ai_pattern text = None <-> clean original_tokens text.
Proof.
  apply (search_linear original_tokens [] original_ai_pattern
           original_flatten original_determinate).
Qed.

(** The document after the replacement of every Unpatched placeholder holds
    no Unpatched placeholder, when the link name holds none. *)
Lemma patched_is_clean content name :
  clean original_tokens name ->
  clean original_tokens
        (re_sub original_ai_pattern [TLit (new_ai_section name)] content).
Proof.
  intros Hname. unfold re_sub.
  rewrite (sub_go_linear original_tokens (new_ai_section name) original_nonempty
             original_ai_pattern original_flatten original_determinate).
  apply (psub_clean original_tokens (new_ai_section name) original_nonempty
           60 (tl original_tokens) section_head name section_tail
           original_shape eq_refl section_head_dead section_tail_dead
           section_head_no_start section_tail_no_start Hname (length content)).
  lia.
Qed.

Lemma section_has_no_backslash name :
  has_backslash name = false -> has_backslash (new_ai_section name) = false.
Proof.
  intros H. unfold has_backslash, new_ai_section in *.
  rewrite !existsb_app, H.
  assert (Hh : existsb (N.eqb BACKSLASH) section_head = false)
    by (vm_compute; reflexivity).
  assert (Ht : existsb (N.eqb BACKSLASH) section_tail = false)
    by (vm_compute; reflexivity).
  now rewrite Hh, Ht.
Qed.

(** *** Reading the file *)

Lemma read_text_no_cr : forall n file,
  (length file <= n)%nat -> has_cr (read_text file) = false.
Proof.
  induction n as [|n IH]; intros file Hn.
  - destruct file; [reflexivity | simpl in Hn; lia].
  - destruct file as [|c rest]; [reflexivity|]. cbn [read_text].
    simpl in Hn. destruct (N.eqb_spec c CR) as [->|Hc].
    + unfold has_cr. cbn [existsb]. change (CR =? NL) with false. cbn [orb].
      destruct rest as [|d rest']; [reflexivity|].
      destruct (d =? NL); apply IH; simpl in *; lia.
    + unfold has_cr. cbn [existsb].
      replace (CR =? c) with false by (symmetry; apply N.eqb_neq; congruence).
      apply IH. lia.
Qed.

Lemma read_text_id s : has_cr s = false -> read_text s = s.
Proof.
  unfold has_cr. induction s as [|c s IH]; [reflexivity|].
  cbn [existsb read_text]. intros H. apply orb_false_elim in H as [Hc Hs].
  rewrite N.eqb_sym, Hc. f_equal. now apply IH.
Qed.

Lemma has_cr_false s : has_cr s = false <-> ~ In CR s.
Proof.
  unfold has_cr. split.
  - intros H Hin. assert (E : existsb (N.eqb CR) s = true).
    { apply existsb_exists. exists CR. split; [assumption | apply N.eqb_refl]. }
    congruence.
  - intros H. destruct (existsb (N.eqb CR) s) eqn:E; [|reflexivity].
    apply existsb_exists in E as (x & Hx & Ex). apply N.eqb_eq in Ex. now subst.
Qed.

Lemma section_has_no_cr name :
  has_cr name = false -> has_cr (new_ai_section name) = false.
Proof.
  intros H. unfold has_cr, new_ai_section in *.
  rewrite !existsb_app, H.
  assert (Hh : existsb (N.eqb CR) section_head = false) by (vm_compute; reflexivity).
  assert (Ht : existsb (N.eqb CR) section_tail = false) by (vm_compute; reflexivity).
  now rewrite Hh, Ht.
Qed.

(** The patched text has no carriage return when the text and the name
    have none. *)
Lemma patched_has_no_cr content name :
  has_cr content = false -> has_cr name = false ->
  has_cr (re_sub original_ai_pattern [TLit (new_ai_section name)] content) = false.
Proof.
  intros Hc Hn. unfold re_sub.
  rewrite (sub_go_linear original_tokens (new_ai_section name) original_nonempty
             original_ai_pattern original_flatten original_determinate).
  apply has_cr_false. intros Hin.
  apply psub_go_in in Hin as [Hin|Hin].
  - now apply has_cr_false in Hc.
  - now apply (proj1 (has_cr_false _) (section_has_no_cr name Hn)).
Qed.

(** *** Names without a slash *)

Lemma step_keeps_literal c q : forall x q',
  step q x = Some q' -> has_literal c q = true ->
  x = c \/ has_literal c q' = true.
Proof.
  induction q as [|t q IH]; intros x q' Hs Hl; [discriminate|].
  destruct t as [y|lo p]; cbn [step has_literal existsb] in *.
  - destruct (N.eqb_spec x y) as [->|]; [|discriminate]. injection Hs as <-.
    apply orb_prop in Hl as [Hl|Hl]; [|now right].
    left. now apply N.eqb_eq in Hl.
  - simpl in Hl. destruct lo as [|lo].
    + destruct (p x); [injection Hs as <-; now right|].
      eapply IH; eassumption.
    + destruct (p x); [|discriminate]. injection Hs as <-. now right.
Qed.

Lemma det_match_has_literal c s : forall q rest,
  det_match s q = Some rest -> has_literal c q = true -> In c s.
Proof.
  induction s as [|x s IH]; intros q rest Hm Hl.
  - destruct q; [discriminate | discriminate].
  - destruct q as [|t q]; [discriminate|]. cbn [det_match] in Hm.
    destruct (step (t :: q) x) as [q'|] eqn:Es; [|discriminate].
    destruct (step_keeps_literal c _ _ _ Es Hl) as [->|Hl']; [now left|].
    right. eapply IH; eassumption.
Qed.

Lemma no_literal_clean c ts s :
  has_literal c ts = true -> ~ In c s -> clean ts s.
Proof.
  intros Hl. induction s as [|x s IH]; intros Hn.
  - split; [|exact I]. destruct ts; [discriminate | reflexivity].
  - split.
    + destruct (det_match (x :: s) ts) eqn:E; [|reflexivity].
      elim Hn. eapply det_match_has_literal; eassumption.
    + apply IH. intros H. apply Hn. now right.
Qed.

Lemma str_split_fields sep s : Forall (fun f => ~ In sep f) (str_split sep s).
Proof.
  induction s as [|c s IH]; simpl.
  - constructor; [tauto | constructor].
  - destruct (N.eqb_spec c sep) as [->|Hne].
    + constructor; [tauto | exact IH].
    + destruct (str_split sep s) as [|f fs]; [repeat constructor; simpl; intuition|].
      inversion IH as [|? ? Hf Hfs]; subst.
      constructor; [|assumption]. simpl. intuition.
Qed.

Lemma basename_no_slash path : ~ In 47 (basename path).
Proof.
  unfold basename.
  pose proof (str_split_fields 47 path) as H.
  induction H as [|f fs Hf Hfs IH]; [simpl; tauto|].
  destruct fs; [exact Hf | exact IH].
Qed.

Lemma basename_clean path : clean original_tokens (basename path).
Proof.
  apply (no_literal_clean 47); [vm_compute; reflexivity | apply basename_no_slash].
Qed.

End PatcherFacts.

(** ** The Patched placeholder is found after a patch *)

Section PatchedFound.
Import Linear Patcher.
Local Open Scope N_scope.

(** The engine depends on its continuation only through its values. *)
Lemma rep_ext g p k1 k2 :
  (forall st, k1 st = k2 st) ->
  forall s lo prev i caps, rep g p k1 lo prev s i caps = rep g p k2 lo prev s i caps.
Proof.
  intros Hk. induction s as [|c s IH]; intros lo prev i caps; cbn [rep].
  - destruct lo; [apply Hk | reflexivity].
  - destruct lo; [|now rewrite IH].
    rewrite IH, Hk. reflexivity.
Qed.

Lemma re_m_ext r : forall k1 k2,
  (forall st, k1 st = k2 st) -> forall st, re_m r k1 st = re_m r k2 st.
Proof.
  induction r as [|c|p|a IHa b IHb|a IHa b IHb|g lo p|n r IH| |];
    intros k1 k2 Hk st; cbn [re_m].
  - apply Hk.
  - destruct (m_rest st) as [|x s]; [reflexivity|].
    destruct (x =? c); [apply Hk | reflexivity].
  - destruct (m_rest st) as [|x s]; [reflexivity|].
    destruct (p x); [apply Hk | reflexivity].
  - apply IHa. intros st'. now apply IHb.
  - rewrite (IHa k1 k2 Hk), (IHb k1 k2 Hk). reflexivity.
  - now apply rep_ext.
  - apply IH. intros st'. apply Hk.
  - now rewrite Hk.
  - now rewrite Hk.
Qed.

Lemma seq_re_app xs ys : forall k st,
  re_m (seq_re (xs ++ ys)) k st = re_m (seq_re xs) (re_m (seq_re ys) k) st.
Proof.
  induction xs as [|x xs IH]; intros k st; [reflexivity|].
  cbn [app seq_re fold_right re_m]. apply re_m_ext. intros st'. apply IH.
Qed.

(** Reading a text that the pattern matches exactly hands the text after it
    to the continuation. *)
Lemma run_feed_done u v caps k : forall ts prev i,
  feed u ts = Done [] ->
  exists prev' i', run (u ++ v) ts prev i caps k = k (MState prev' v i' caps).
Proof.
  induction u as [|c u IH]; intros ts prev i Hf.
  - destruct ts; [|discriminate]. cbn [app]. rewrite run_nil. eauto.
  - destruct ts as [|t ts]; cbn [feed] in Hf; [discriminate|].
    cbn [app run]. destruct (step (t :: ts) c) as [q|]; [|discriminate].
    apply IH. exact Hf.
Qed.

(** A lazy repetition of the class of all characters reaches every later
    position, so it succeeds when its continuation succeeds at one. *)
Lemma rep_lazy_reaches k v caps :
  (forall prev i, k (MState prev v i caps) <> None) ->
  forall u prev i, rep false dotall k 0 prev (u ++ v) i caps <> None.
Proof.
  intros Hk. induction u as [|c u IH]; intros prev i.
  - cbn [app]. destruct v as [|c v]; cbn [rep]; [apply Hk|].
    specialize (Hk prev i). now destruct (k _).
  - cbn [app rep].
    destruct (k (MState prev (c :: u ++ v) i caps)); [discriminate|].
    cbn [dotall]. apply IH.
Qed.

(** A failed search failed at every position. *)
Lemma search_none_at r : forall s prev i,
  search_from r prev s i = None ->
  forall k, (k <= length s)%nat ->
  match_here r (prev_at prev s k) (skipn k s) (i + k) = None.
Proof.
  induction s as [|c s IH]; intros prev i Hs k Hk; cbn [search_from] in Hs.
  - destruct k; [|simpl in Hk; lia]. cbn [prev_at skipn].
    rewrite Nat.add_0_r. now destruct (match_here r prev [] i).
  - destruct (match_here r prev (c :: s) i) eqn:E; [discriminate|].
    destruct k as [|k]; cbn [prev_at skipn].
    + now rewrite Nat.add_0_r.
    + replace (i + S k)%nat with (S i + k)%nat by lia.
      apply IH; [assumption | simpl in Hk; lia].
Qed.

(** A search finds a match that exists at some position. *)
Lemma search_finds_at r pre sec :
  (forall prev i, match_here r prev sec i <> None) ->
  re_search r (pre ++ sec) <> None.
Proof.
  intros Hm Hnone. unfold re_search in Hnone.
  assert (Hle : (length pre <= length (pre ++ sec))%nat)
    by (rewrite length_app; lia).
  pose proof (search_none_at _ _ _ _ Hnone (length pre) Hle) as H.
  rewrite skipn_app, skipn_all, Nat.sub_diag in H.
  exact (Hm _ _ H).
Qed.

(** *** The two linear parts of the Patched placeholder *)

Lemma before_href_flatten :
  flatten (seq_re updated_before_href) = Some before_href_tokens.
Proof.
  assert (H : match flatten (seq_re updated_before_href) with
              | Some _ => true
              | None => false
              end = true) by (vm_compute; reflexivity).
  unfold before_href_tokens. now destruct (flatten (seq_re updated_before_href)).
Qed.

Lemma after_href_flatten :
  flatten (seq_re updated_after_href) = Some after_href_tokens.
Proof.
  assert (H : match flatten (seq_re updated_after_href) with
              | Some _ => true
              | None => false
              end = true) by (vm_compute; reflexivity).
  unfold after_href_tokens. now destruct (flatten (seq_re updated_after_href)).
Qed.

Lemma before_href_determinate : determinate before_href_tokens = true.
Proof. vm_compute. reflexivity. Qed.

Lemma after_href_determinate : determinate after_href_tokens = true.
Proof. vm_compute. reflexivity. Qed.

(** The head of the new section is the markup before the link target, its
    tail the markup after it. *)
Lemma section_head_read : feed section_head before_href_tokens = Done [].
Proof. vm_compute. reflexivity. Qed.

Lemma section_tail_read : feed section_tail after_href_tokens = Done [].
Proof. vm_compute. reflexivity. Qed.

#[local] Opaque original_tokens original_ai_pattern before_href_tokens
  after_href_tokens updated_before_href updated_after_href
  section_head section_tail.

Lemma linear_part rs ts k st :
  flatten (seq_re rs) = Some ts -> determinate ts = true ->
  re_m (seq_re rs) k st = run_st ts k st.
Proof.
  intros Hf Hd.
  rewrite (re_m_linear (seq_re rs) ts [] k k Hf);
    [now rewrite app_nil_r | now rewrite app_nil_r |].
  intros [a b c d]. unfold run_st. cbn [m_rest m_prev m_pos m_caps].
  now rewrite run_nil.
Qed.

(** The Patched pattern matches at the start of every new section. *)
Lemma updated_matches_section name post prev i :
  match_here updated_ai_pattern prev (new_ai_section name ++ post) i <> None.
Proof.
  unfold match_here, updated_ai_pattern, new_ai_section.
  rewrite seq_re_app.
  rewrite (linear_part _ _ _ _ before_href_flatten before_href_determinate).
  unfold run_st. cbn [m_rest m_prev m_pos m_caps].
  rewrite <- !app_assoc.
  destruct (run_feed_done section_head (name ++ section_tail ++ post) []
              (re_m (seq_re ([lazy_any] ++ updated_after_href)) Some)
              before_href_tokens prev i section_head_read) as (p' & i' & ->).
  cbn [app seq_re fold_right re_m lazy_any m_rest m_prev m_pos m_caps].
  apply rep_lazy_reaches. intros p2 i2.
  change (fold_right Cat Eps updated_after_href) with (seq_re updated_after_href).
  rewrite (linear_part _ _ _ _ after_href_flatten after_href_determinate).
  unfold run_st. cbn [m_rest m_prev m_pos m_caps].
  destruct (run_feed_done section_tail post [] Some after_href_tokens p2 i2
              section_tail_read) as (p3 & i3 & ->).
  discriminate.
Qed.

(** A document with an Unpatched placeholder holds a new section after the
    patch. *)
Lemma psub_has_section repl s :
  ~ clean original_tokens s ->
  exists pre post, psub_go original_tokens repl 0 s = pre ++ repl ++ post.
Proof.
  induction s as [|c s IH]; intros Hn.
  - elim Hn. split; [|exact I].
    pose proof original_shape as Hs. destruct original_tokens; [discriminate|].
    reflexivity.
  - destruct (det_match (c :: s) original_tokens) as [rest|] eqn:E.
    + exists [], (psub_go original_tokens repl 0 rest).
      now rewrite (psub_match _ _ original_nonempty _ _ E).
    + destruct IH as (pre & post & Hp).
      { intros Hc. apply Hn. split; assumption. }
      exists (c :: pre), post.
      rewrite (psub_copy _ _ _ _ E), Hp. reflexivity.
Qed.

Lemma search_found_after_patch content name :
  re_search original_ai_pattern content <> None ->
  re_search updated_ai_pattern
    (re_sub original_ai_pattern [TLit (new_ai_section name)] content) <> None.
Proof.
  intros Hfound.
  assert (Hn : ~ clean original_tokens content).
  { intros Hc. apply Hfound. now apply search_original. }
  unfold re_sub.
  rewrite (sub_go_linear original_tokens (new_ai_section name) original_nonempty
             original_ai_pattern original_flatten original_determinate).
  destruct (psub_has_section (new_ai_section name) content Hn)
    as (pre & post & ->).
  apply search_finds_at. intros prev i. apply updated_matches_section.
Qed.

End PatchedFound.

Section PatcherTheorems.
Import Linear Patcher.
Local Open Scope N_scope.

#[local] Opaque original_tokens original_ai_pattern updated_ai_pattern
  section_head section_tail.

Variable parse_template : pystr -> option (list titem).

(** On the text of the document: a second rewriting, with a link name that
    has no backslash and holds no Unpatched placeholder, finds no Unpatched
    placeholder and changes nothing; after a patch it finds the Patched
    placeholder, and otherwise it repeats the first. *)
Lemma second_patch_is_noop content name :
  has_backslash name = false ->
  clean original_tokens name ->
  let first := patch_content parse_template content name in
  let second := patch_content parse_template (snd first) name in
  snd second = snd first
  /\ fst first <> Failed
  /\ (fst first = Updated -> fst second = AlreadyUpdated)
  /\ (fst first <> Updated -> second = first).
Proof.
  intros Hbs Hname.
  assert (Hnoop : forall doc, re_search original_ai_pattern doc = None ->
            patch_content parse_template doc name =
            match re_search updated_ai_pattern doc with
            | Some _ => (AlreadyUpdated, doc)
            | None => (NotFound, doc)
            end).
  { intros doc E. unfold patch_content. now rewrite E. }
  assert (Hfirst : forall m, re_search original_ai_pattern content = Some m ->
            patch_content parse_template content name =
            (Updated, re_sub original_ai_pattern [TLit (new_ai_section name)]
                             content)).
  { intros m E. unfold patch_content, compile_template.
    now rewrite E, (section_has_no_backslash _ Hbs). }
  cbv zeta.
  destruct (re_search original_ai_pattern content) as [m|] eqn:E1.
  - rewrite (Hfirst m eq_refl). cbn [fst snd].
    rewrite Hnoop by (apply search_original, patched_is_clean; assumption).
    pose proof (search_found_after_patch content name) as Hfound.
    rewrite E1 in Hfound. specialize (Hfound ltac:(discriminate)).
    destruct (re_search updated_ai_pattern _); [|now elim Hfound].
    cbn [fst snd]. repeat split; auto; try discriminate; intros H; now elim H.
  - rewrite (Hnoop content E1).
    destruct (re_search updated_ai_pattern content) eqn:E3; cbn [fst snd];
      rewrite (Hnoop content E1), E3; repeat split; auto; discriminate.
Qed.

(** A rewriting brings no carriage return into a text that has none. *)
Lemma patch_content_no_cr content name :
  has_backslash name = false ->
  has_cr content = false -> has_cr name = false ->
  has_cr (snd (patch_content parse_template content name)) = false.
Proof.
  intros Hbs Hc Hn. unfold patch_content, compile_template.
  rewrite (section_has_no_backslash _ Hbs).
  destruct (re_search original_ai_pattern content).
  - cbn [snd]. now apply patched_has_no_cr.
  - now destruct (re_search updated_ai_pattern content).
Qed.

(** The same on the file, for a name without a carriage return. *)
Lemma second_call_is_noop file name :
  has_backslash name = false ->
  has_cr name = false ->
  clean original_tokens name ->
  let first := update_original_report parse_template file name in
  let second := update_original_report parse_template (snd first) name in
  snd second = snd first
  /\ fst first <> Failed
  /\ (fst first = Updated -> fst second = AlreadyUpdated)
  /\ (fst first <> Updated -> second = first).
Proof.
  intros Hbs Hcr Hname.
  destruct (second_patch_is_noop (read_text file) name Hbs Hname)
    as (H1 & H2 & H3 & H4).
  pose proof (patch_content_no_cr (read_text file) name Hbs
                (read_text_no_cr _ file (Nat.le_refl _)) Hcr) as Hclean.
  cbv zeta.
  assert (Efirst : update_original_report parse_template file name
                   = patch_content parse_template (read_text file) name).
  { unfold update_original_report.
    destruct (patch_content parse_template (read_text file) name) as [[] doc];
      cbn [fst] in *; congruence. }
  rewrite Efirst.
  set (r1 := patch_content parse_template (read_text file) name) in *.
  assert (Esecond : update_original_report parse_template (snd r1) name
                    = patch_content parse_template (snd r1) name).
  { unfold update_original_report. rewrite (read_text_id _ Hclean).
    set (r2 := patch_content parse_template (snd r1) name) in *.
    destruct (Patcher.outcome_eq_dec (fst r1) Updated) as [E|E].
    - rewrite (H3 E). now destruct r2.
    - rewrite (H4 E) in *. destruct r1 as [[] doc]; cbn [fst] in *; congruence. }
  rewrite Esecond. auto.
Qed.

(** A call reads the template parser at the replacement text only. *)
Lemma update_reads_parser_at_template
    (other_parser : pystr -> option (list titem)) file name :
  parse_template (new_ai_section name) = other_parser (new_ai_section name) ->
  update_original_report parse_template file name
  = update_original_report other_parser file name.
Proof.
  intros H. unfold update_original_report, patch_content, compile_template.
  now rewrite H.
Qed.

End PatcherTheorems.

(** C1, as stated, fails, for link names the callers can pass: the name is
    the base name of a report file, which may hold any character but a
    slash.
    - A carriage return in the name is written into the link by the first
      call and read back as a newline by the second, which finds the
      Patched placeholder and writes the text as it read it: the file
      changes once more.
    - A backslash makes [re.sub] read the replacement as a template: with
      the name [\g<0>.html] the link holds a copy of the whole match, the
      Unpatched placeholder, so that the second call finds a placeholder
      again and wraps it once more.  The template parser belongs to the
      [re] module; the hypothesis is what it returns for this replacement.
    - A name that holds an Unpatched placeholder of its own (it cannot be a
      base name: the placeholder contains a slash) is rewritten by the
      second call of [update_original_report] of ai_analyze_report.py. *)
Lemma patcher_not_idempotent_for_every_name :
  let file := py "<html>" ++ Patcher.unpatched_block ++ py "</html>" in
  let once (patch : pystr -> pystr -> Patcher.outcome * pystr) target :=
    snd (patch file target) in
  let twice (patch : pystr -> pystr -> Patcher.outcome * pystr) target :=
    snd (patch (snd (patch file target)) target) in
  (forall parse_template : pystr -> option (list titem),
     let name := py "foo" ++ [Patcher.CR] ++ py ".html" in
     twice (Patcher.update_original_report parse_template) name
       <> once (Patcher.update_original_report parse_template) name
     /\ twice (Patcher.update_original_report2 parse_template)
              (py "reports/" ++ name)
        <> once (Patcher.update_original_report2 parse_template)
                (py "reports/" ++ name))
  /\ (forall parse_template : pystr -> option (list titem),
        let name := py "\g<0>.html" in
        parse_template (Patcher.new_ai_section name)
        = Some [TLit Patcher.section_head; TWhole;
                TLit (py ".html" ++ Patcher.section_tail)] ->
        twice (Patcher.update_original_report parse_template) name
          <> once (Patcher.update_original_report parse_template) name
        /\ twice (Patcher.update_original_report2 parse_template)
                 (py "reports/" ++ name)
           <> once (Patcher.update_original_report2 parse_template)
                   (py "reports/" ++ name))
  /\ (forall parse_template : pystr -> option (list titem),
        twice (Patcher.update_original_report parse_template)
              Patcher.unpatched_block
        <> once (Patcher.update_original_report parse_template)
                Patcher.unpatched_block).
Proof.
  cbv zeta. split; [|split].
  - intros parse_template. split; intros H;
      apply (f_equal Patcher.has_cr) in H; vm_compute in H; discriminate H.
  - intros parse_template Hparse.
    set (whole := fun _ : pystr =>
           Some [TLit Patcher.section_head; TWhole;
                 TLit (py ".html" ++ Patcher.section_tail)]).
    assert (Hbase : Patcher.basename (py "reports/" ++ py "\g<0>.html")
                    = py "\g<0>.html") by (vm_compute; reflexivity).
    assert (Hsame : forall file,
              Patcher.update_original_report parse_template file (py "\g<0>.html")
              = Patcher.update_original_report whole file (py "\g<0>.html")).
    { intros file. apply update_reads_parser_at_template. exact Hparse. }
    unfold Patcher.update_original_report2. rewrite Hbase, !Hsame.
    split; intros H; apply (f_equal (@length _)) in H; vm_compute in H;
      discriminate H.
  - intros parse_template H.
    apply (f_equal (@length _)) in H. vm_compute in H. discriminate H.
Qed.

(** C1, amended.  For every document and every link name that has no
    carriage return and no backslash and holds no Unpatched placeholder of
    its own (no base name holds one), the second application of the patch
    leaves the file as the first left it, and no call fails: after a first
    call that patched, the second call detects the Patched placeholder;
    after a first call that found the Patched placeholder or none, the
    second call repeats it.  The same holds for the variant of
    ai_analyze_report2.py for every report path whose base name has no
    carriage return and no backslash. *)
Theorem patcher_idempotent_for_plain_names
    (parse_template : pystr -> option (list titem))
    (file ai_report_name ai_report_file : pystr)
    (Hbackslash : Patcher.has_backslash ai_report_name = false)
    (Hcr : Patcher.has_cr ai_report_name = false)
    (Hname : re_search Patcher.original_ai_pattern ai_report_name = None)
    (Hfile : Patcher.has_backslash (Patcher.basename ai_report_file) = false)
    (Hfilecr : Patcher.has_cr (Patcher.basename ai_report_file) = false) :
  let patch := Patcher.update_original_report parse_template in
  let patch2 := Patcher.update_original_report2 parse_template in
  (snd (patch (snd (patch file ai_report_name)) ai_report_name)
     = snd (patch file ai_report_name)
   /\ fst (patch file ai_report_name) <> Patcher.Failed
   /\ (fst (patch file ai_report_name) = Patcher.Updated ->
       fst (patch (snd (patch file ai_report_name)) ai_report_name)
       = Patcher.AlreadyUpdated)
   /\ (fst (patch file ai_report_name) <> Patcher.Updated ->
       patch (snd (patch file ai_report_name)) ai_report_name
       = patch file ai_report_name))
  /\ (snd (patch2 (snd (patch2 file ai_report_file)) ai_report_file)
        = snd (patch2 file ai_report_file)
      /\ fst (patch2 file ai_report_file) <> Patcher.Failed
      /\ (fst (patch2 file ai_report_file) = Patcher.Updated ->
          fst (patch2 (snd (patch2 file ai_report_file)) ai_report_file)
          = Patcher.AlreadyUpdated)
      /\ (fst (patch2 file ai_report_file) <> Patcher.Updated ->
          patch2 (snd (patch2 file ai_report_file)) ai_report_file
          = patch2 file ai_report_file)).
Proof.
  cbv zeta. split.
  - apply second_call_is_noop; [assumption | assumption |].
    now apply search_original.
  - unfold Patcher.update_original_report2.
    apply second_call_is_noop; [assumption | assumption | apply basename_clean].
Qed.

Lemma patcher_idempotent_for_plain_names_witness :
  let file := py "<html>" ++ Patcher.unpatched_block ++ py "</html>" in
  let ai_report_name := py "foo_AIReport_20260101.html" in
  let patch := Patcher.update_original_report (fun _ => None) in
  snd (patch (snd (patch file ai_report_name)) ai_report_name)
  = snd (patch file ai_report_name).
Proof.
  cbv zeta.
  refine (proj1 (proj1 (patcher_idempotent_for_plain_names (fun _ => None)
           (py "<html>" ++ Patcher.unpatched_block ++ py "</html>")
           (py "foo_AIReport_20260101.html")
           (py "reports/foo_AIreport_20260101_120000.html") _ _ _ _ _)));
    vm_compute; reflexivity.
Defined.

(** The scenario of the specification: an Unpatched summary patched with
    the link [foo_AIReport_20260101.html] becomes the Patched section with
    that link; the second call detects it and leaves the document as it
    is. *)
Example patcher_scenario :
  let name := py "foo_AIReport_20260101.html" in
  let doc := py "<html>" ++ Patcher.unpatched_block ++ py "</html>" in
  let patch := Patcher.update_original_report (fun _ => None) in
  patch doc name
  = (Patcher.Updated, py "<html>" ++ Patcher.new_ai_section name ++ py "</html>")
  /\ patch (snd (patch doc name)) name
     = (Patcher.AlreadyUpdated, snd (patch doc name)).
Proof. cbv zeta. split; vm_compute; reflexivity. Qed.
(** ** Text around the tables *)

Section TablePass.
Import Markdown.

(** The fields of a text without the character [c] hold no [c] either,
    whatever the separator. *)
Lemma split_fields_without (c sep : char) (s : pystr) :
  str_contains [c] s = false ->
  forallb (fun f => negb (str_contains [c] f)) (str_split sep s) = true.
Proof.
  induction s as [|x s IH]; intros H; [reflexivity|].
  cbn [str_contains] in H.
  destruct (strip_prefix [c] (x :: s)) eqn:E; [discriminate|].
  simpl in E. destruct (c =? x)%N eqn:Ecx; [discriminate|].
  specialize (IH H). cbn [str_split].
  destruct (x =? sep)%N.
  - cbn [forallb str_contains strip_prefix]. exact IH.
  - destruct (str_split sep s) as [|f fs]; cbn [forallb] in *.
    + cbn [str_contains strip_prefix]. now rewrite Ecx.
    + apply andb_prop in IH as [Hf Hfs]. rewrite Hfs, andb_true_r.
      cbn [str_contains strip_prefix]. rewrite Ecx. exact Hf.
Qed.

Lemma split_nonempty (sep : char) (s : pystr) : str_split sep s <> [].
Proof.
  destruct s as [|x s]; [discriminate|]. cbn [str_split].
  destruct (x =? sep)%N; [discriminate|].
  destruct (str_split sep s); discriminate.
Qed.

(** [sep.join(s.split(sep)) == s] *)
Lemma join_split (sep : char) (s : pystr) :
  str_join [sep] (str_split sep s) = s.
Proof.
  induction s as [|x s IH]; [reflexivity|].
  cbn [str_split]. destruct (x =? sep)%N eqn:E.
  - apply N.eqb_eq in E. subst x.
    pose proof (split_nonempty sep s) as Hne.
    destruct (str_split sep s) as [|f fs]; [contradiction|].
    change (str_join [sep] ([] :: f :: fs))
      with ([] ++ [sep] ++ str_join [sep] (f :: fs)).
    now rewrite IH.
  - pose proof (split_nonempty sep s) as Hne.
    destruct (str_split sep s) as [|f fs]; [contradiction|].
    destruct fs as [|g fs]; cbn [str_join app] in *; now rewrite IH.
Qed.

(** Lines without a pipe pass the loop unchanged. *)
Lemma plain_lines_pass lines : forall res,
  forallb (fun l => negb (has_pipe l)) lines = true ->
  fold_left table_step lines (TState false [] res) = TState false [] (res ++ lines).
Proof.
  induction lines as [|l lines IH]; intros res H; simpl in *.
  - now rewrite app_nil_r.
  - apply andb_prop in H as [Hl Hls]. apply negb_true_iff in Hl.
    unfold table_step at 2. rewrite Hl. cbn [in_table table_lines result].
    rewrite IH by assumption. now rewrite <- app_assoc.
Qed.

(** A block of fewer than two pipe lines is dropped: nothing is appended
    for it, neither before a line without a pipe nor at the end. *)
Lemma short_block_before_line pre tl l1 rest :
  in_table (run_lines pre) = false ->
  forallb has_pipe tl = true ->
  (length tl < 2)%nat ->
  has_pipe l1 = false ->
  process_lines (pre ++ tl ++ l1 :: rest)
  = process_lines pre ++ l1 :: process_lines rest.
Proof.
  intros Hpre Htl Hlen Hl1.
  unfold process_lines at 1. rewrite !fold_left_app. fold (run_lines pre).
  rewrite (process_lines_closed pre Hpre).
  rewrite (fold_table_lines tl) by assumption.
  cbn [in_table table_lines result app fold_left].
  unfold table_step at 2. rewrite Hl1. cbn [in_table table_lines result].
  assert (E : (if match tl with [] => false | _ :: _ => true end
               then flush (map str_strip tl) (process_lines pre)
               else process_lines pre) = process_lines pre).
  { unfold flush. rewrite length_map.
    destruct (2 <=? length tl)%nat eqn:E2; [apply Nat.leb_le in E2; lia|].
    now destruct tl. }
  rewrite E.
  assert (E' : (if match tl with [] => false | _ :: _ => true end
                then [] else map str_strip tl) = []) by now destruct tl.
  rewrite E'.
  rewrite <- (app_nil_r (process_lines pre ++ [l1])).
  rewrite fold_behind. cbn zeta. rewrite table_finish_behind.
  rewrite <- !app_assoc. reflexivity.
Qed.

Lemma short_block_at_end pre tl :
  in_table (run_lines pre) = false ->
  forallb has_pipe tl = true ->
  (length tl < 2)%nat ->
  process_lines (pre ++ tl) = process_lines pre.
Proof.
  intros Hpre Htl Hlen.
  unfold process_lines at 1. rewrite fold_left_app. fold (run_lines pre).
  rewrite (process_lines_closed pre Hpre).
  rewrite (fold_table_lines tl) by assumption.
  cbn [in_table table_lines result app].
  unfold table_finish, flush. cbn [in_table table_lines result].
  rewrite length_map.
  destruct (2 <=? length tl)%nat eqn:E2; [apply Nat.leb_le in E2; lia|].
  now destruct tl.
Qed.

(** A text without a pipe passes the table pass unchanged. *)
Lemma table_pass_without_pipe (text : pystr) :
  str_contains [124%N] text = false -> Markdown.process_tables text = text.
Proof.
  intros Hpipe. unfold Markdown.process_tables, Markdown.process_lines.
  rewrite plain_lines_pass.
  - cbn [Markdown.table_finish Markdown.in_table Markdown.result app].
    apply join_split.
  - apply (split_fields_without 124%N NL text Hpipe).
Qed.

End TablePass.

(** X15.  A text without a pipe character leaves the table pass of
    [markdown_to_html] as it entered it. *)
Theorem text_without_pipe_is_kept (text : pystr)
    (Hpipe : str_contains [124%N] text = false) :
  Markdown.process_tables text = text.
Proof. exact (table_pass_without_pipe text Hpipe). Qed.

Lemma text_without_pipe_is_kept_witness :
  Markdown.process_tables (py "# Title" ++ [NL] ++ py "- item") 
  = py "# Title" ++ [NL] ++ py "- item".
Proof. apply text_without_pipe_is_kept. vm_compute. reflexivity. Defined.

(** X16.  A single line with a pipe that is not followed by a second one is lost:
    the table pass appends nothing for it, whether a line without a pipe
    follows it or the input ends with it. *)
Theorem single_pipe_line_is_dropped
    (pre rest : list pystr) (line l1 : pystr)
    (Hpre : Markdown.in_table (Markdown.run_lines pre) = false)
    (Hline : Markdown.has_pipe line = true)
    (Hl1 : Markdown.has_pipe l1 = false) :
  Markdown.process_lines (pre ++ [line] ++ l1 :: rest)
  = Markdown.process_lines pre ++ l1 :: Markdown.process_lines rest
  /\ Markdown.process_lines (pre ++ [line]) = Markdown.process_lines pre.
Proof.
  split.
  - apply short_block_before_line;
      [exact Hpre | cbn [forallb]; now rewrite Hline | simpl; lia | exact Hl1].
  - apply short_block_at_end;
      [exact Hpre | cbn [forallb]; now rewrite Hline | simpl; lia].
Qed.

Lemma single_pipe_line_is_dropped_witness :
  Markdown.process_lines ([py "intro"] ++ [py "a|b"] ++ py "outro" :: [])
  = Markdown.process_lines [py "intro"] ++ py "outro" :: Markdown.process_lines []
  /\ Markdown.process_lines ([py "intro"] ++ [py "a|b"])
     = Markdown.process_lines [py "intro"].
Proof.
  apply single_pipe_line_is_dropped; vm_compute; reflexivity.
Defined.
(** ** The fallback report *)

Section ReportFacts.
Import Report.

Lemma sum_by_insert {A} (w : A -> nat) (m : gmap pystr A) (k : pystr) (v : A) :
  map_fold (fun _ x acc => (w x + acc)%nat) 0%nat (<[k := v]> m)
  = (w v + map_fold (fun _ x acc => (w x + acc)%nat) 0%nat m
     - match m !! k with Some x => w x | None => 0 end)%nat.
Proof.
  destruct (m !! k) as [x|] eqn:E.
  - rewrite <- insert_delete_eq.
    rewrite map_fold_insert_L.
    + rewrite (map_fold_delete_L _ _ k x m); [lia| |exact E].
      intros; lia.
    + intros; lia.
    + apply lookup_delete_eq.
  - rewrite map_fold_insert_L; [lia| |exact E].
    intros; lia.
Qed.

Lemma sum_by_lookup {A} (w : A -> nat) (m : gmap pystr A) (k : pystr) (x : A) :
  m !! k = Some x ->
  (w x <= map_fold (fun _ x acc => (w x + acc)%nat) 0%nat m)%nat.
Proof.
  intros E. rewrite (map_fold_delete_L _ _ k x m); [lia| |exact E].
  intros; lia.
Qed.

Lemma code_total_count codes code :
  code_total (count_code codes code) = S (code_total codes).
Proof.
  unfold code_total, count_code.
  rewrite (sum_by_insert (fun n => n)).
  destruct (codes !! code) as [n|] eqn:E; cbn [default from_option id].
  - pose proof (sum_by_lookup (fun n => n) codes code n E) as H.
    cbn beta in H. lia.
  - lia.
Qed.

Lemma total_samples_record stats s :
  (forall label e, stats !! label = Some e -> consistent e) ->
  total_samples (record_sample stats s) = S (total_samples stats).
Proof.
  intros Hall. unfold total_samples, record_sample.
  rewrite (sum_by_insert sampleCount). cbn [sampleCount].
  destruct (stats !! sampler_name s) as [e|] eqn:E;
    cbn [default from_option id new_entry sampleCount].
  - pose proof (sum_by_lookup sampleCount stats _ e E). lia.
  - lia.
Qed.

Lemma sum_Q_snoc l x : sum_Q (l ++ [x]) == sum_Q l + x.
Proof. unfold sum_Q. rewrite fold_left_app. simpl. reflexivity. Qed.

Lemma new_entry_sums :
  code_total (successCodes new_entry) = 0%nat
  /\ code_total (errorCodes new_entry) = 0%nat.
Proof. split; reflexivity. Qed.

Lemma record_sample_consistent stats s :
  (forall label e, stats !! label = Some e -> consistent e) ->
  forall label e, record_sample stats s !! label = Some e -> consistent e.
Proof.
  intros Hall label e. unfold record_sample.
  destruct (decide (label = sampler_name s)) as [->|Hne].
  2: { rewrite lookup_insert_ne by congruence. apply Hall. }
  rewrite lookup_insert_eq. intros [= <-].
  assert (Hold : let stat := default new_entry (stats !! sampler_name s) in
                 sampleCount stat = length (times stat)
                 /\ sampleCount stat = length (timestamps stat)
                 /\ (code_total (successCodes stat) + errorCount stat)%nat
                    = sampleCount stat
                 /\ code_total (errorCodes stat) = errorCount stat
                 /\ totalTime stat == sum_Q (times stat)).
  { destruct (stats !! sampler_name s) as [e|] eqn:E; cbn [default].
    - destruct (Hall _ _ E) as (_ & H). exact H.
    - cbn. repeat split; reflexivity. }
  cbn zeta in Hold. destruct Hold as (H1 & H2 & H3 & H4 & H5).
  unfold consistent.
  cbn [sampleCount errorCount totalTime times successCodes errorCodes timestamps].
  rewrite !length_app. cbn [length].
  repeat split; try lia.
  - destruct (success s); [rewrite code_total_count|]; lia.
  - destruct (success s); [|rewrite code_total_count]; lia.
  - rewrite sum_Q_snoc, H5. reflexivity.
Qed.

Variable py_float : pystr -> option Q.
Variable strptime : pystr -> pystr -> option Q.
Variable now : Q.

Lemma line_step_sound st raw st' :
  sound st -> line_step py_float strptime now st raw = Ret st' -> sound st'.
Proof.
  intros [Hall Htot]. unfold line_step.
  destruct (str_strip raw) as [|c line]; [now intros [= <-]|].
  destruct ((line_count st =? 0)%nat && str_contains (py "timeStamp") (c :: line)).
  { intros [= <-]. split; assumption. }
  set (parsed := match headers st with
                 | None | Some [] => headerless py_float strptime now _
                 | Some hs => with_headers py_float strptime now hs _
                 end).
  unfold mbind, result_bind, bind.
  destruct parsed as [[s|]|err]; [| |discriminate].
  - intros [= <-]. split; cbn [stats all_timestamps].
    + now apply record_sample_consistent.
    + rewrite total_samples_record by assumption.
      rewrite length_app. cbn [length]. lia.
  - intros [= <-]. split; assumption.
Qed.

Lemma collect_from_sound lines : forall st st',
  sound st -> collect_from py_float strptime now st lines = Ret st' -> sound st'.
Proof.
  induction lines as [|raw lines IH]; intros st st' Hst; cbn [collect_from].
  - now intros [= <-].
  - unfold mbind, result_bind, bind.
    destruct (line_step py_float strptime now st raw) as [st1|err] eqn:E;
      [|discriminate].
    apply IH. now apply (line_step_sound st raw).
Qed.

Lemma collect_sound lines st :
  collect py_float strptime now lines = Ret st -> sound st.
Proof.
  apply collect_from_sound. split; [|reflexivity].
  intros label e. cbn. rewrite lookup_empty. discriminate.
Qed.

Lemma count_positive n : (0 < n)%nat -> 0 < inject_Z (Z.of_nat n).
Proof.
  intros H. change 0 with (inject_Z 0). rewrite <- Zlt_Qlt. lia.
Qed.

Lemma consistent_error_pct e :
  consistent e -> 0 <= errorPct e /\ errorPct e <= 100.
Proof.
  intros (Hpos & _ & _ & Hcodes & _ & _).
  pose proof (count_positive _ Hpos) as Hn.
  assert (Hle : inject_Z (Z.of_nat (errorCount e))
                <= inject_Z (Z.of_nat (sampleCount e))).
  { rewrite <- Zle_Qle. lia. }
  assert (H0 : 0 <= inject_Z (Z.of_nat (errorCount e))).
  { change 0 with (inject_Z 0). rewrite <- Zle_Qle. lia. }
  unfold errorPct. split.
  - apply Qmult_le_0_compat; [|discriminate].
    apply Qle_shift_div_l; [exact Hn|]. now rewrite Qmult_0_l.
  - apply Qle_trans with (1 * 100); [|discriminate].
    apply Qmult_le_compat_r; [|discriminate].
    apply Qle_shift_div_r; [exact Hn|]. now rewrite Qmult_1_l.
Qed.

End ReportFacts.

(** X1.  After the loop over the lines of a result log, every entry of [stats]
    holds at least one sample; its count is the number of its recorded
    times and of its time stamps; the counters of its response codes add up
    to the count, those of the failed samples to the error count; and its
    total time is the sum of its recorded times. *)
Theorem report_entries_are_consistent
    (py_float : pystr -> option Q) (strptime : pystr -> pystr -> option Q)
    (now : Q) (lines : list pystr) (st : Report.lstate)
    (label : pystr) (e : Report.entry)
    (Hrun : Report.collect py_float strptime now lines = Ret st)
    (He : Report.stats st !! label = Some e) :
  (0 < Report.sampleCount e)%nat
  /\ Report.sampleCount e = length (Report.times e)
  /\ Report.sampleCount e = length (Report.timestamps e)
  /\ (Report.code_total (Report.successCodes e) + Report.errorCount e)%nat
     = Report.sampleCount e
  /\ Report.code_total (Report.errorCodes e) = Report.errorCount e
  /\ Report.totalTime e == Report.sum_Q (Report.times e).
Proof.
  exact (proj1 (collect_sound py_float strptime now lines st Hrun) label e He).
Qed.

Lemma report_entries_are_consistent_witness :
  match Report.collect Report.decimal (fun _ _ => None) 0
          [py "timeStamp,elapsed,label,responseCode,success,bytes,sentBytes";
           py "1000,12,home,200,true,5,1"; py "2000,30,home,500,false,5,1"] with
  | Ret st =>
    match Report.stats st !! py "home" with
    | Some e =>
      (0 < Report.sampleCount e)%nat
      /\ Report.sampleCount e = length (Report.times e)
      /\ Report.sampleCount e = length (Report.timestamps e)
      /\ (Report.code_total (Report.successCodes e) + Report.errorCount e)%nat
         = Report.sampleCount e
      /\ Report.code_total (Report.errorCodes e) = Report.errorCount e
      /\ Report.totalTime e == Report.sum_Q (Report.times e)
    | None => False
    end
  | Raise _ => False
  end.
Proof.
  destruct (Report.collect _ _ _ _) as [st|err] eqn:E;
    [|vm_compute in E; discriminate E].
  destruct (Report.stats st !! py "home") as [e|] eqn:E2.
  - exact (report_entries_are_consistent _ _ _ _ st (py "home") e E E2).
  - vm_compute in E. injection E as <-. vm_compute in E2. discriminate E2.
Defined.

(** X2.  The number of transactions the report shows, the sum of the counts of
    all samplers, is the number of lines the loop accepted, which is the
    number of the collected time stamps. *)
Theorem report_total_is_number_of_samples
    (py_float : pystr -> option Q) (strptime : pystr -> pystr -> option Q)
    (now : Q) (lines : list pystr) (st : Report.lstate)
    (Hrun : Report.collect py_float strptime now lines = Ret st) :
  Report.total_samples (Report.stats st) = length (Report.all_timestamps st).
Proof.
  exact (proj2 (collect_sound py_float strptime now lines st Hrun)).
Qed.

Lemma report_total_is_number_of_samples_witness :
  match Report.collect Report.decimal (fun _ _ => None) 0
          [py "1000,12,home,200,,,,true,,5,1"; py "short,line";
           py "2000,30,cart,500,,,,false,,5,1"] with
  | Ret st =>
    Report.total_samples (Report.stats st) = length (Report.all_timestamps st)
  | Raise _ => False
  end.
Proof.
  destruct (Report.collect _ _ _ _) as [st|err] eqn:E;
    [|vm_compute in E; discriminate E].
  exact (report_total_is_number_of_samples _ _ _ _ st E).
Defined.

(** X4.  The error percentage of every sampler of the report lies between 0
    and 100. *)
Theorem report_error_percentage_in_range
    (py_float : pystr -> option Q) (strptime : pystr -> pystr -> option Q)
    (now : Q) (lines : list pystr) (st : Report.lstate)
    (label : pystr) (e : Report.entry)
    (Hrun : Report.collect py_float strptime now lines = Ret st)
    (He : Report.stats st !! label = Some e) :
  0 <= Report.errorPct e /\ Report.errorPct e <= 100.
Proof.
  apply consistent_error_pct.
  exact (proj1 (collect_sound py_float strptime now lines st Hrun) label e He).
Qed.

Lemma report_error_percentage_in_range_witness :
  match Report.collect Report.decimal (fun _ _ => None) 0
          [py "timeStamp,elapsed,label,success"; py "1000,12,home,true";
           py "2000,30,home,false"] with
  | Ret st =>
    match Report.stats st !! py "home" with
    | Some e => 0 <= Report.errorPct e /\ Report.errorPct e <= 100
    | None => False
    end
  | Raise _ => False
  end.
Proof.
  destruct (Report.collect _ _ _ _) as [st|err] eqn:E;
    [|vm_compute in E; discriminate E].
  destruct (Report.stats st !! py "home") as [e|] eqn:E2.
  - exact (report_error_percentage_in_range _ _ _ _ st (py "home") e E E2).
  - vm_compute in E. injection E as <-. vm_compute in E2. discriminate E2.
Defined.
(** ** The per-second counts *)

Section TpsFacts.
Import Jtl.
Local Open Scope Z_scope.

Lemma values_insert_new (m : gmap Z nat) k v :
  m !! k = None -> Permutation (values (<[k := v]> m)) (v :: values m).
Proof.
  intros E. unfold values.
  change (v :: map snd (map_to_list m)) with (map snd ((k, v) :: map_to_list m)).
  apply Permutation_map, map_to_list_insert, E.
Qed.

Lemma values_delete (m : gmap Z nat) k v :
  m !! k = Some v -> Permutation (values m) (v :: values (delete k m)).
Proof.
  intros E. unfold values.
  change (v :: map snd (map_to_list (delete k m)))
    with (map snd ((k, v) :: map_to_list (delete k m))).
  symmetry. apply Permutation_map, map_to_list_delete, E.
Qed.

Lemma values_count_second (m : gmap Z nat) s :
  exists rest,
    Permutation (values (count_second m s))
                ((default 0%nat (m !! s) + 1)%nat :: rest)
    /\ Permutation (values m)
                   (match m !! s with Some v => v :: rest | None => rest end).
Proof.
  unfold count_second. destruct (m !! s) as [v|] eqn:E; cbn [default from_option id].
  - exists (values (delete s m)). split.
    + rewrite <- insert_delete_eq. apply values_insert_new, lookup_delete_eq.
    + now apply values_delete.
  - exists (values m). split; [now apply values_insert_new | reflexivity].
Qed.

Lemma count_second_sum (m : gmap Z nat) s :
  list_sum (values (count_second m s)) = S (list_sum (values m)).
Proof.
  destruct (values_count_second m s) as (rest & H1 & H2).
  rewrite (Permutation_list_sum H1), (Permutation_list_sum H2).
  destruct (m !! s); simpl; lia.
Qed.

Lemma count_second_positive (m : gmap Z nat) s :
  List.Forall (fun n => (1 <= n)%nat) (values m) ->
  List.Forall (fun n => (1 <= n)%nat) (values (count_second m s)).
Proof.
  intros H. destruct (values_count_second m s) as (rest & H1 & H2).
  rewrite H1. rewrite H2 in H.
  constructor; [lia|].
  destruct (m !! s); [now inversion H | exact H].
Qed.

Lemma group_fold (f : Z -> Z) (timestamps : list Z) : forall m : gmap Z nat,
  let m' := fold_left (fun m ts => count_second m (f ts)) timestamps m in
  list_sum (values m') = (list_sum (values m) + length timestamps)%nat
  /\ (List.Forall (fun n => (1 <= n)%nat) (values m) ->
      List.Forall (fun n => (1 <= n)%nat) (values m'))
  /\ (forall k, is_Some (m' !! k) -> is_Some (m !! k) \/ In k (map f timestamps)).
Proof.
  induction timestamps as [|t ts IH]; intros m; cbn [fold_left length map].
  - repeat split; [lia | tauto | tauto].
  - destruct (IH (count_second m (f t))) as (H1 & H2 & H3).
    cbn zeta in *. repeat split.
    + rewrite H1, count_second_sum. lia.
    + intros H. apply H2. now apply count_second_positive.
    + intros k Hk. destruct (H3 k Hk) as [H|H].
      * unfold count_second in H.
        destruct (decide (k = f t)) as [->|Hne].
        -- right. now left.
        -- rewrite lookup_insert_ne in H by congruence. now left.
      * right. now right.
Qed.

Lemma values_empty : values (∅ : gmap Z nat) = [].
Proof. unfold values. now rewrite map_to_list_empty. Qed.

(** The counts of [group_by_second]: they add up to the number of time
    stamps, none is zero, and every key is the second of a time stamp. *)
Lemma group_by_second_counts ms timestamps :
  list_sum (values (group_by_second ms timestamps)) = length timestamps
  /\ List.Forall (fun n => (1 <= n)%nat) (values (group_by_second ms timestamps))
  /\ (forall k, In k (keys (group_by_second ms timestamps)) ->
      In k (map (fun ts => if ms then ts / 1000 else ts) timestamps)).
Proof.
  unfold group_by_second.
  destruct (group_fold (fun ts => if ms then ts / 1000 else ts) timestamps ∅)
    as (H1 & H2 & H3).
  cbn zeta in *. rewrite values_empty in *. repeat split.
  - rewrite H1. simpl. lia.
  - apply H2. constructor.
  - intros k Hk. unfold keys in Hk. apply in_map_iff in Hk as ([k' v] & <- & Hkv).
    apply list_elem_of_In, elem_of_map_to_list in Hkv. simpl.
    destruct (H3 k') as [H|H]; [now exists v | | exact H].
    rewrite lookup_empty in H. now destruct H.
Qed.

Lemma keys_length (m : gmap Z nat) : length (keys m) = length (values m).
Proof. unfold keys, values. now rewrite !length_map. Qed.

Lemma keys_NoDup (m : gmap Z nat) : List.NoDup (keys m).
Proof.
  unfold keys.
  assert (E : forall l : list (Z * nat), map fst l = l.*1).
  { induction l as [|x l IH]; [reflexivity|]. simpl. now rewrite IH. }
  rewrite E. apply NoDup_ListNoDup, NoDup_fst_map_to_list.
Qed.

(** Distinct integers between two bounds are at most as many as the bounds
    leave room for. *)
Lemma distinct_in_range (l : list Z) lo hi :
  List.NoDup l -> (forall x, In x l -> lo <= x <= hi) ->
  Z.of_nat (length l) <= Z.max 0 (hi - lo + 1).
Proof.
  intros Hnd Hin.
  pose (range := map (fun i => lo + Z.of_nat i) (seq 0 (Z.to_nat (hi - lo + 1)))).
  assert (Hincl : incl l range).
  { intros x Hx. destruct (Hin x Hx) as [H1 H2].
    apply in_map_iff. exists (Z.to_nat (x - lo)). split; [lia|].
    apply in_seq. lia. }
  pose proof (NoDup_incl_length Hnd Hincl) as Hlen.
  unfold range in Hlen. rewrite length_map, length_seq in Hlen. lia.
Qed.

Lemma list_min_le x l : list_min x l <= x /\ forall y, In y l -> list_min x l <= y.
Proof.
  unfold list_min. revert x. induction l as [|a l IH]; intros x; simpl.
  - split; [lia | tauto].
  - destruct (IH (Z.min x a)) as [H1 H2]. split; [lia|].
    intros y [<-|Hy]; [lia | auto].
Qed.

Lemma list_max_ge x l : x <= list_max x l /\ forall y, In y l -> y <= list_max x l.
Proof.
  unfold list_max. revert x. induction l as [|a l IH]; intros x; simpl.
  - split; [lia | tauto].
  - destruct (IH (Z.max x a)) as [H1 H2]. split; [lia|].
    intros y [<-|Hy]; [lia | auto].
Qed.

Lemma nat_list_max_ge l : forall x, In x l -> (x <= nat_list_max l)%nat.
Proof.
  unfold nat_list_max. induction l as [|a l IH]; intros x; simpl; [tauto|].
  intros [<-|Hx]; [lia|]. specialize (IH x Hx). lia.
Qed.

Lemma nat_list_min_le l : forall x, In x l -> (nat_list_min l <= x)%nat.
Proof.
  destruct l as [|a l]; [simpl; tauto|]. cbn [nat_list_min].
  assert (G : forall m, (fold_left Nat.min l m <= m)%nat
                        /\ forall x, In x l -> (fold_left Nat.min l m <= x)%nat).
  { induction l as [|b l IH]; intros m; simpl; [split; [lia|tauto]|].
    destruct (IH (Nat.min m b)) as [H1 H2]. split; [lia|].
    intros x [<-|Hx]; [lia | auto]. }
  intros x [Hx|Hx]; [subst x; apply (proj1 (G a)) | apply (proj2 (G a)), Hx].
Qed.

Lemma nat_list_min_In l : l <> [] -> In (nat_list_min l) l.
Proof.
  destruct l as [|a l]; [congruence|]. intros _. cbn [nat_list_min].
  revert a. induction l as [|b l IH]; intros a; simpl; [now left|].
  destruct (IH (Nat.min a b)) as [H|H].
  - destruct (Nat.min_spec a b) as [[_ E]|[_ E]]; rewrite E in H |- *.
    + now left.
    + right. now left.
  - right. now right.
Qed.

Lemma list_sum_bound l : (list_sum l <= nat_list_max l * length l)%nat.
Proof.
  unfold nat_list_max. induction l as [|a l IH]; simpl; [lia|]. nia.
Qed.

(** Rounding to a multiple of 1/100 does not pass an integer above. *)
Lemma round2_below (x : Q) (m : Z) :
  (x <= inject_Z m)%Q -> (round2 x <= inject_Z m)%Q.
Proof.
  destruct x as [n d]. unfold round2, round_half_even.
  replace (Qnum ((n # d) * 100)) with (n * 100) by (simpl; lia).
  replace (Z.pos (Qden ((n # d) * 100))) with (Z.pos d) by (simpl; lia).
  unfold Qle. cbn [Qnum Qden inject_Z]. intros H.
  pose proof (Z.div_mod (n * 100) (Z.pos d) ltac:(lia)) as Hdm.
  pose proof (Z.mod_pos_bound (n * 100) (Z.pos d) ltac:(lia)) as Hb.
  set (q := n * 100 / Z.pos d) in *. set (r := (n * 100) mod Z.pos d) in *.
  assert (Hq : q <= m * 100) by nia.
  assert (Hq1 : 0 < r -> q + 1 <= m * 100) by nia.
  assert (G : forall z, z <= m * 100 ->
                (Qnum (inject_Z z / 100)%Q * 1 <= m * Z.pos (Qden (inject_Z z / 100)%Q))).
  { intros z Hz. unfold Qdiv, Qmult, Qinv, inject_Z. simpl. lia. }
  destruct (2 * r ?= Z.pos d) eqn:E.
  - apply Z.compare_eq in E. destruct (Z.even q); apply G; lia.
  - apply G; lia.
  - apply Z.compare_gt_iff in E. apply G; lia.
Qed.

(** What a result built from per-second counts satisfies, when the duration
    leaves room for the seconds that were counted. *)
Lemma counts_consistent (by_second : gmap Z nat) (total duration : Z) :
  total = Z.of_nat (list_sum (values by_second)) ->
  0 < total ->
  List.Forall (fun n => (1 <= n)%nat) (values by_second) ->
  Z.of_nat (length (keys by_second)) <= duration ->
  (1 <= duration
   /\ (1 <= QofN (nat_list_min (values by_second)))%Q
   /\ (QofN (nat_list_min (values by_second))
       <= QofN (nat_list_max (values by_second)))%Q
   /\ (round2 (if duration >? 0 then inject_Z total / inject_Z duration else 0)
       <= QofN (nat_list_max (values by_second)))%Q).
Proof.
  intros Htotal Hpos Hall Hkeys.
  assert (Hne : values by_second <> []).
  { intros E. rewrite E in Htotal. simpl in Htotal. lia. }
  assert (Hlen : (0 < length (values by_second))%nat).
  { destruct (values by_second); [congruence | simpl; lia]. }
  rewrite keys_length in Hkeys.
  pose proof (nat_list_min_In _ Hne) as Hmin.
  pose proof (nat_list_max_ge _ _ Hmin) as Hminmax.
  pose proof (proj1 (List.Forall_forall _ _) Hall _ Hmin) as Hmin1.
  cbn beta in Hmin1.
  pose proof (list_sum_bound (values by_second)) as Hsum.
  unfold QofN. repeat split.
  - lia.
  - change 1%Q with (inject_Z 1). rewrite <- Zle_Qle. lia.
  - rewrite <- Zle_Qle. lia.
  - apply round2_below.
    rewrite (proj2 (Z.gtb_lt duration 0)) by lia.
    apply Qle_shift_div_r.
    + change 0%Q with (inject_Z 0). rewrite <- Zlt_Qlt. lia.
    + rewrite <- inject_Z_mult, <- Zle_Qle. nia.
Qed.

Variable ET_parse : pystr -> result (list element).
Variable csv_rows : pystr -> result (list (list pystr)).
Variable py_int : pystr -> option Z.
Variable str_lower : pystr -> pystr.
Variable now : Z.
Variable format_time : Z -> result pystr.

Lemma keys_span (m : gmap Z nat) k ks :
  keys m = k :: ks ->
  Z.of_nat (length (keys m)) <= list_max k ks - list_min k ks + 1.
Proof.
  intros E.
  pose proof (distinct_in_range (keys m) (list_min k ks) (list_max k ks)
                (keys_NoDup m)) as H.
  assert (Hin : forall x, In x (keys m) -> list_min k ks <= x <= list_max k ks).
  { rewrite E. intros x [<-|Hx].
    - split; [apply (proj1 (list_min_le k ks)) | apply (proj1 (list_max_ge k ks))].
    - split; [now apply (proj2 (list_min_le k ks))
             | now apply (proj2 (list_max_ge k ks))]. }
  specialize (H Hin).
  pose proof (proj1 (list_min_le k ks)). pose proof (proj1 (list_max_ge k ks)).
  lia.
Qed.

Lemma xml_tps_well_counted timestamps d :
  xml_tps now format_time timestamps = Ret (Some d) -> well_counted d.
Proof.
  unfold xml_tps. destruct timestamps as [|t0 rest]; [discriminate|].
  set (tss := t0 :: rest).
  set (ms := is_milliseconds _).
  set (by_second := group_by_second ms tss).
  set (total := Z.of_nat (length tss)).
  set (span := _ - _ + 1).
  set (duration := if span >? 3600 then Z.of_nat (length (keys by_second)) else span).
  unfold mbind, result_bind, bind.
  destruct (match _ with Raise ValueError => _ | _ => _ end) as [times|err];
    [|discriminate].
  intros [= <-].
  destruct (group_by_second_counts ms tss) as (Hsum & Hall & _).
  fold by_second in Hsum, Hall.
  assert (Htotal : total = Z.of_nat (list_sum (values by_second))).
  { unfold total. now rewrite Hsum. }
  assert (Hpos : 0 < total) by (unfold total, tss; simpl; lia).
  assert (Hkeys : Z.of_nat (length (keys by_second)) <= duration).
  { unfold duration. destruct (span >? 3600) eqn:E; [lia|].
    unfold span. destruct (keys by_second) as [|k ks] eqn:Ek.
    - simpl. lia.
    - rewrite <- Ek. now apply keys_span. }
  destruct (counts_consistent by_second total duration Htotal Hpos Hall Hkeys)
    as (H1 & H2 & H3 & H4).
  unfold well_counted.
  cbn [total_requests tps_by_second test_duration_seconds min_tps peak_tps
       average_tps].
  repeat split; assumption.
Qed.

Lemma csv_keys_fit t0 rest :
  let tss := t0 :: rest in
  let min_ts := list_min t0 rest in
  let max_ts := list_max t0 rest in
  let bounds := csv_time_bounds min_ts max_ts in
  let by_second := group_by_second (csv_groups_by_milliseconds min_ts) tss in
  Z.of_nat (length (keys by_second))
  <= (if snd bounds >? fst bounds then snd bounds - fst bounds + 1 else 1).
Proof.
  intros tss min_ts max_ts bounds by_second.
  destruct (group_by_second_counts (csv_groups_by_milliseconds min_ts) tss)
    as (_ & _ & Hkeys).
  fold by_second in Hkeys.
  assert (Hts : forall ts, In ts tss -> min_ts <= ts <= max_ts).
  { intros ts [<-|Hts].
    - split; [apply (proj1 (list_min_le t0 rest))
             | apply (proj1 (list_max_ge t0 rest))].
    - split; [now apply (proj2 (list_min_le t0 rest))
             | now apply (proj2 (list_max_ge t0 rest))]. }
  assert (Hmm : min_ts <= max_ts).
  { pose proof (Hts t0 (or_introl eq_refl)). lia. }
  unfold bounds, csv_time_bounds, csv_groups_by_milliseconds in *.
  destruct (min_ts <? 1000000000) eqn:Ems.
  - assert (Hin : forall k, In k (keys by_second) ->
                    min_ts / 1000 <= k <= max_ts / 1000).
    { intros k Hk. apply Hkeys, in_map_iff in Hk as (ts & <- & Hts').
      destruct (Hts ts Hts'). split; apply Z.div_le_mono; lia. }
    pose proof (distinct_in_range _ _ _ (keys_NoDup by_second) Hin) as Hd.
    pose proof (Z.div_le_mono min_ts max_ts 1000 ltac:(lia) Hmm) as Hdiv.
    pose proof (Z.div_mod min_ts 1000 ltac:(lia)).
    pose proof (Z.mod_pos_bound min_ts 1000 ltac:(lia)).
    pose proof (Z.div_mod max_ts 1000 ltac:(lia)).
    pose proof (Z.mod_pos_bound max_ts 1000 ltac:(lia)).
    destruct ((max_ts / 1000 - min_ts / 1000 >? 0)
              && (max_ts / 1000 - min_ts / 1000 <? 86400)) eqn:Er;
      cbn [fst snd].
    + apply andb_prop in Er as [Er1 Er2].
      destruct (max_ts / 1000 >? min_ts / 1000) eqn:E; lia.
    + apply andb_false_iff in Er.
      destruct (max_ts >? min_ts) eqn:E; lia.
  - cbn [fst snd].
    assert (Hin : forall k, In k (keys by_second) -> min_ts <= k <= max_ts).
    { intros k Hk. apply Hkeys, in_map_iff in Hk as (ts & <- & Hts'). auto. }
    pose proof (distinct_in_range _ _ _ (keys_NoDup by_second) Hin) as Hd.
    destruct (max_ts >? min_ts) eqn:E; lia.
Qed.

Lemma csv_body_well_counted jtl_file d :
  csv_body csv_rows py_int str_lower format_time jtl_file = Ret (Some d) ->
  well_counted d.
Proof.
  unfold csv_body, mbind, result_bind, bind.
  destruct (csv_rows jtl_file) as [rows|err]; [|discriminate].
  destruct rows as [|header data]; [discriminate|].
  destruct header as [|h0 header]; [discriminate|].
  destruct (find_timestamp_col str_lower (h0 :: header) 0) as [col|]; [|discriminate].
  destruct (csv_timestamps py_int col data) as [|t0 rest]; [discriminate|].
  set (tss := t0 :: rest).
  set (min_ts := list_min t0 rest). set (max_ts := list_max t0 rest).
  set (bounds := csv_time_bounds min_ts max_ts).
  set (by_second := group_by_second (csv_groups_by_milliseconds min_ts) tss).
  set (total := Z.of_nat (length tss)).
  set (total_seconds := if snd bounds >? fst bounds then _ else 1).
  destruct (format_time (fst bounds)) as [s|err]; [|discriminate].
  destruct (format_time (snd bounds)) as [e|err]; [|discriminate].
  intros [= <-].
  destruct (group_by_second_counts (csv_groups_by_milliseconds min_ts) tss)
    as (Hsum & Hall & _).
  fold by_second in Hsum, Hall.
  assert (Htotal : total = Z.of_nat (list_sum (values by_second))).
  { unfold total. now rewrite Hsum. }
  assert (Hpos : 0 < total) by (unfold total, tss; simpl; lia).
  pose proof (csv_keys_fit t0 rest) as Hkeys. cbn zeta in Hkeys.
  fold tss min_ts max_ts bounds by_second total_seconds in Hkeys.
  destruct (counts_consistent by_second total total_seconds Htotal Hpos Hall Hkeys)
    as (H1 & H2 & H3 & H4).
  unfold well_counted.
  cbn [total_requests tps_by_second test_duration_seconds min_tps peak_tps
       average_tps].
  repeat split; assumption.
Qed.

Lemma from_csv_well_counted jtl_file d :
  calculate_tps_from_csv_jtl csv_rows py_int str_lower format_time jtl_file = Some d ->
  well_counted d.
Proof.
  unfold calculate_tps_from_csv_jtl, catch_all.
  destruct (csv_body _ _ _ _ _) as [[d'|]|err] eqn:E; try discriminate.
  intros [= <-]. now apply (csv_body_well_counted jtl_file).
Qed.

Lemma from_jtl_well_counted jtl_file d :
  calculate_tps_from_jtl ET_parse csv_rows py_int str_lower now format_time jtl_file
  = Some d ->
  well_counted d.
Proof.
  unfold calculate_tps_from_jtl, catch_all, jtl_body, mbind, result_bind, bind.
  destruct (ET_parse jtl_file) as [elems|err].
  - destruct (xml_tps now format_time (xml_timestamps py_int elems))
      as [[d'|]|err] eqn:E.
    + intros [= <-]. now apply (xml_tps_well_counted _ _ E).
    + discriminate.
    + destruct err; try discriminate.
      apply from_csv_well_counted.
  - destruct err; try discriminate.
    apply from_csv_well_counted.
Qed.

End TpsFacts.

(** X5.  Whenever the XML path or the CSV path returns a result, its per-second
    counts add up to its total number of requests, and no second is counted
    with zero requests. *)
Theorem tps_counts_add_up
    (ET_parse : pystr -> result (list Jtl.element))
    (csv_rows : pystr -> result (list (list pystr)))
    (py_int : pystr -> option Z) (str_lower : pystr -> pystr) (now : Z)
    (format_time : Z -> result pystr) (jtl_file : pystr) (d : Jtl.tps_data)
    (Hd : Jtl.calculate_tps_from_jtl ET_parse csv_rows py_int str_lower now
            format_time jtl_file = Some d
          \/ Jtl.calculate_tps_from_csv_jtl csv_rows py_int str_lower
               format_time jtl_file = Some d) :
  Jtl.total_requests d = Z.of_nat (list_sum (Jtl.values (Jtl.tps_by_second d)))
  /\ (0 < Jtl.total_requests d)%Z
  /\ List.Forall (fun n => (1 <= n)%nat) (Jtl.values (Jtl.tps_by_second d)).
Proof.
  assert (H : well_counted d).
  { destruct Hd as [Hd|Hd].
    - exact (from_jtl_well_counted _ _ _ _ _ _ _ _ Hd).
    - exact (from_csv_well_counted _ _ _ _ _ _ Hd). }
  destruct H as (H1 & H2 & H3 & _). now repeat split.
Qed.

Lemma tps_counts_add_up_witness :
  match Jtl.calculate_tps_from_jtl
          (fun _ => Ret [Jtl.Element (py "httpSample") {[py "ts" := py "1000"]};
                         Jtl.Element (py "httpSample") {[py "ts" := py "1500"]};
                         Jtl.Element (py "httpSample") {[py "ts" := py "2000"]}])
          (fun _ => Raise OSError) decimal_int (fun s => s) 1790000000%Z
          (fun _ => Ret []) (py "result.jtl") with
  | Some d =>
    Jtl.total_requests d = 3%Z
    /\ Jtl.total_requests d
       = Z.of_nat (list_sum (Jtl.values (Jtl.tps_by_second d)))
  | None => False
  end.
Proof.
  destruct (Jtl.calculate_tps_from_jtl _ _ _ _ _ _ _) as [d|] eqn:E;
    [|vm_compute in E; discriminate E].
  split.
  - vm_compute in E. injection E as <-. reflexivity.
  - exact (proj1 (tps_counts_add_up _ _ _ _ _ _ _ d (or_introl E))).
Defined.

(** X6.  Whenever the XML path or the CSV path returns a result, its duration is
    at least one second, its minimum is at least 1 and at most its peak, and
    its average does not exceed its peak. *)
Theorem average_tps_within_peak
    (ET_parse : pystr -> result (list Jtl.element))
    (csv_rows : pystr -> result (list (list pystr)))
    (py_int : pystr -> option Z) (str_lower : pystr -> pystr) (now : Z)
    (format_time : Z -> result pystr) (jtl_file : pystr) (d : Jtl.tps_data)
    (Hd : Jtl.calculate_tps_from_jtl ET_parse csv_rows py_int str_lower now
            format_time jtl_file = Some d
          \/ Jtl.calculate_tps_from_csv_jtl csv_rows py_int str_lower
               format_time jtl_file = Some d) :
  (1 <= Jtl.test_duration_seconds d)%Z
  /\ 1 <= Jtl.min_tps d
  /\ Jtl.min_tps d <= Jtl.peak_tps d
  /\ Jtl.average_tps d <= Jtl.peak_tps d.
Proof.
  assert (H : well_counted d).
  { destruct Hd as [Hd|Hd].
    - exact (from_jtl_well_counted _ _ _ _ _ _ _ _ Hd).
    - exact (from_csv_well_counted _ _ _ _ _ _ Hd). }
  destruct H as (_ & _ & _ & H). exact H.
Qed.

Lemma average_tps_within_peak_witness :
  match Jtl.calculate_tps_from_csv_jtl
          (fun _ => Ret [[py "timeStamp"; py "elapsed"];
                         [py "1700000000000"; py "12"];
                         [py "1700000000500"; py "30"];
                         [py "1700000002000"; py "7"]])
          decimal_int (fun s => s) (fun _ => Ret []) (py "result.jtl") with
  | Some d =>
    (1 <= Jtl.test_duration_seconds d)%Z
    /\ 1 <= Jtl.min_tps d
    /\ Jtl.min_tps d <= Jtl.peak_tps d
    /\ Jtl.average_tps d <= Jtl.peak_tps d
  | None => False
  end.
Proof.
  destruct (Jtl.calculate_tps_from_csv_jtl _ _ _ _ _) as [d|] eqn:E;
    [|vm_compute in E; discriminate E].
  exact (average_tps_within_peak (fun _ => Raise ParseError) _ _ _ 0%Z _ _ d
           (or_intror E)).
Defined.
(** ** The order of the samples *)

Section OrderFacts.
Import Jtl.
Local Open Scope Z_scope.

Lemma list_min_In x l : In (list_min x l) (x :: l).
Proof.
  unfold list_min. revert x. induction l as [|a l IH]; intros x; cbn [fold_left].
  - now left.
  - destruct (IH (Z.min x a)) as [H|H].
    + destruct (Z.min_spec x a) as [[_ E]|[_ E]]; rewrite <- H, E;
        [now left | right; now left].
    + right. now right.
Qed.

Lemma list_max_In x l : In (list_max x l) (x :: l).
Proof.
  unfold list_max. revert x. induction l as [|a l IH]; intros x; cbn [fold_left].
  - now left.
  - destruct (IH (Z.max x a)) as [H|H].
    + destruct (Z.max_spec x a) as [[_ E]|[_ E]]; rewrite <- H, E;
        [right; now left | now left].
    + right. now right.
Qed.

Lemma list_min_lower x l y : In y (x :: l) -> list_min x l <= y.
Proof.
  destruct (list_min_le x l) as [H1 H2]. intros [<-|H]; [exact H1 | now apply H2].
Qed.

Lemma list_max_upper x l y : In y (x :: l) -> y <= list_max x l.
Proof.
  destruct (list_max_ge x l) as [H1 H2]. intros [<-|H]; [exact H1 | now apply H2].
Qed.

Lemma list_min_permutation x l x' l' :
  Permutation (x :: l) (x' :: l') -> list_min x l = list_min x' l'.
Proof.
  intros H. apply Z.le_antisymm.
  - apply list_min_lower. apply (Permutation_in _ (Permutation_sym H)), list_min_In.
  - apply list_min_lower. apply (Permutation_in _ H), list_min_In.
Qed.

Lemma list_max_permutation x l x' l' :
  Permutation (x :: l) (x' :: l') -> list_max x l = list_max x' l'.
Proof.
  intros H. apply Z.le_antisymm.
  - apply list_max_upper. apply (Permutation_in _ H), list_max_In.
  - apply list_max_upper. apply (Permutation_in _ (Permutation_sym H)), list_max_In.
Qed.

(** Counting two seconds in either order gives the same table. *)
Lemma count_second_commute (m : gmap Z nat) a b :
  count_second (count_second m a) b = count_second (count_second m b) a.
Proof.
  unfold count_second. destruct (decide (a = b)) as [->|Hne]; [reflexivity|].
  rewrite !lookup_insert_ne by congruence.
  apply insert_insert_ne. congruence.
Qed.

Lemma group_permutation (f : Z -> Z) l l' :
  Permutation l l' ->
  forall m : gmap Z nat,
    fold_left (fun m ts => count_second m (f ts)) l m
    = fold_left (fun m ts => count_second m (f ts)) l' m.
Proof.
  induction 1 as [|x l l' _ IH|x y l|l l' l'' _ IH1 _ IH2]; intros m;
    cbn [fold_left].
  - reflexivity.
  - apply IH.
  - now rewrite count_second_commute.
  - now rewrite IH1.
Qed.

Lemma group_by_second_permutation ms l l' :
  Permutation l l' -> group_by_second ms l = group_by_second ms l'.
Proof.
  intros H. unfold group_by_second. now apply group_permutation.
Qed.

Variable py_int : pystr -> option Z.
Variable now : Z.
Variable format_time : Z -> result pystr.

Lemma xml_tps_permutation l l' :
  Permutation l l' -> xml_tps now format_time l = xml_tps now format_time l'.
Proof.
  intros H. destruct l as [|x l], l' as [|x' l'].
  - reflexivity.
  - now apply Permutation_nil_cons in H.
  - now apply Permutation_sym, Permutation_nil_cons in H.
  - unfold xml_tps.
    rewrite (list_min_permutation _ _ _ _ H), (list_max_permutation _ _ _ _ H),
      (group_by_second_permutation _ _ _ H), (Permutation_length H).
    reflexivity.
Qed.

Lemma xml_timestamps_permutation elems elems' :
  Permutation elems elems' ->
  Permutation (xml_timestamps py_int elems) (xml_timestamps py_int elems').
Proof.
  unfold xml_timestamps. induction 1; cbn [omap list_omap].
  - reflexivity.
  - destruct (if is_sample x then _ else None); [now constructor | assumption].
  - destruct (if is_sample x then _ else None), (if is_sample y then _ else None);
      try reflexivity; now constructor.
  - etransitivity; eassumption.
Qed.

End OrderFacts.

(** X20. The per-second figures of the XML path do not depend on the order
    in which the samples stand in the file. *)
Theorem tps_ignores_sample_order
    (py_int : pystr -> option Z) (now : Z) (format_time : Z -> result pystr)
    (elems elems' : list Jtl.element)
    (Horder : Permutation elems elems') :
  Jtl.xml_tps now format_time (Jtl.xml_timestamps py_int elems)
  = Jtl.xml_tps now format_time (Jtl.xml_timestamps py_int elems').
Proof.
  apply xml_tps_permutation, xml_timestamps_permutation, Horder.
Qed.

Lemma tps_ignores_sample_order_witness :
  let int_of s := Some (Z.of_nat (length s)) in
  let sample ts := Jtl.Element (py "httpSample") {[ py "ts" := ts ]} in
  Jtl.xml_tps 0 (fun _ => Ret []) (Jtl.xml_timestamps int_of [sample (py "12"); sample (py "1")])
  = Jtl.xml_tps 0 (fun _ => Ret []) (Jtl.xml_timestamps int_of [sample (py "1"); sample (py "12")]).
Proof.
  cbv zeta. apply tps_ignores_sample_order. apply perm_swap.
Defined.
(** ** The newest summary report *)

Section LatestFacts.
Import Latest.

Variable getmtime : pystr -> result Q.

Lemma visit_paths_app paths1 paths2 st :
  visit_paths getmtime st (paths1 ++ paths2)
  = match visit_paths getmtime st paths1 with
    | Ret st' => visit_paths getmtime st' paths2
    | Raise e => Raise e
    end.
Proof.
  revert st. induction paths1 as [|p paths1 IH]; intros st; simpl; [reflexivity|].
  destruct (getmtime p); [apply IH | reflexivity].
Qed.

Lemma visit_files_paths root files : forall st,
  visit_files getmtime root st files
  = visit_paths getmtime st (map (path_join root) (List.filter is_summary files)).
Proof.
  induction files as [|f files IH]; intros st; cbn [visit_files List.filter map].
  - reflexivity.
  - unfold visit at 1. destruct (is_summary f); cbn [map visit_paths].
    + unfold mbind, result_bind, bind.
      destruct (getmtime (path_join root f)); [|reflexivity].
      destruct (Qlt_le_dec (snd st) a); apply IH.
    + apply IH.
Qed.

Lemma visit_dirs_paths walk : forall st,
  visit_dirs getmtime st walk = visit_paths getmtime st (candidates walk).
Proof.
  induction walk as [|[root files] walk IH]; intros st;
    cbn [visit_dirs candidates flat_map fst snd]; [reflexivity|].
  rewrite visit_paths_app, visit_files_paths.
  unfold mbind, result_bind, bind.
  destruct (visit_paths getmtime st _); [apply IH | reflexivity].
Qed.

Lemma visit_paths_newest paths : forall seen st st',
  newest getmtime seen st -> visit_paths getmtime st paths = Ret st' ->
  newest getmtime (seen ++ paths) st'.
Proof.
  induction paths as [|p paths IH]; intros seen st st' Hst; cbn [visit_paths].
  - intros [= <-]. now rewrite app_nil_r.
  - destruct (getmtime p) as [t|e] eqn:Et; [|discriminate].
    intros H. replace (seen ++ p :: paths) with ((seen ++ [p]) ++ paths)
      by now rewrite <- app_assoc.
    eapply IH; [|exact H].
    destruct Hst as [Hall Hbest].
    destruct (Qlt_le_dec (snd st) t) as [Hlt|Hle]; split; cbn [fst snd].
    + intros q Hq. apply in_app_or in Hq as [Hq|[<-|[]]].
      * destruct (Hall q Hq) as (t' & E & Hle). exists t'. split; [exact E|].
        apply Qle_trans with (snd st); [exact Hle | now apply Qlt_le_weak].
      * exists t. split; [exact Et | apply Qle_refl].
    + split; [apply in_or_app; right; now left|]. split; [exact Et|].
      destruct (fst st); [destruct Hbest as (_ & _ & H0)|rewrite Hbest in Hlt];
        [apply Qlt_trans with (snd st)|]; assumption.
    + intros q Hq. apply in_app_or in Hq as [Hq|[<-|[]]].
      * now apply Hall.
      * exists t. split; [exact Et | exact Hle].
    + destruct (fst st); [|exact Hbest].
      destruct Hbest as (Hin & E & H0). split; [|split; assumption].
      apply in_or_app. now left.
Qed.

Lemma visit_paths_raises paths : forall st e,
  visit_paths getmtime st paths = Raise e ->
  exists q e', In q paths /\ getmtime q = Raise e'.
Proof.
  induction paths as [|p paths IH]; intros st e; cbn [visit_paths]; [discriminate|].
  destruct (getmtime p) as [t|e'] eqn:Et.
  - intros H. destruct (IH _ _ H) as (q & e'' & Hq & E).
    exists q, e''. split; [now right | exact E].
  - intros _. exists p, e'. split; [now left | exact Et].
Qed.

End LatestFacts.

(** X12.  The report that is found is a summary report of the tree whose
    modification time is positive and at least that of every summary report
    of the tree.  Nothing is found only when the modification time of some
    summary report cannot be read, or when none of them has a positive
    one. *)
Theorem latest_report_is_newest
    (getmtime : pystr -> result Q) (walk : list (pystr * list pystr)) :
  match Latest.find_latest_report getmtime walk with
  | Some p =>
    In p (Latest.candidates walk)
    /\ exists t, getmtime p = Ret t /\ 0 < t
         /\ forall q, In q (Latest.candidates walk) ->
              exists t', getmtime q = Ret t' /\ t' <= t
  | None =>
    (exists q e, In q (Latest.candidates walk) /\ getmtime q = Raise e)
    \/ (forall q, In q (Latest.candidates walk) ->
          exists t', getmtime q = Ret t' /\ t' <= 0)
  end.
Proof.
  unfold Latest.find_latest_report. rewrite visit_dirs_paths.
  destruct (Latest.visit_paths getmtime (None, 0) (Latest.candidates walk))
    as [[latest t]|e] eqn:E.
  - assert (H0 : Latest.newest getmtime [] (None, 0)).
    { split; [intros q []|reflexivity]. }
    pose proof (visit_paths_newest getmtime _ _ _ _ H0 E) as [Hall Hbest].
    cbn [app fst snd] in *.
    destruct latest as [p|].
    + destruct Hbest as (Hin & Ep & Hpos). split; [exact Hin|].
      exists t. repeat split; assumption.
    + right. rewrite Hbest in Hall. exact Hall.
  - left. apply (visit_paths_raises getmtime _ _ _ E).
Qed.
(** ** Durations *)

Section DurationFacts.
Import Duration.
Local Open Scope Z_scope.

Lemma str_eqb_true a : forall b, str_eqb a b = true -> a = b.
Proof.
  induction a as [|x a IH]; intros [|y b]; simpl; try discriminate; [reflexivity|].
  intros H. apply andb_prop in H as [Hx Hab]. apply N.eqb_eq in Hx.
  now rewrite Hx, (IH b Hab).
Qed.

(** The numerals of the numbers below one hundred, by evaluation. *)
Lemma pad2_table :
  forallb (fun i => str_eqb (pad2 (Z.of_nat i))
                            [Z.to_N (48 + Z.of_nat i / 10);
                             Z.to_N (48 + Z.of_nat i mod 10)])
          (seq 0 100) = true.
Proof. vm_compute. reflexivity. Qed.

Lemma pad2_small n :
  0 <= n < 100 -> pad2 n = [Z.to_N (48 + n / 10); Z.to_N (48 + n mod 10)].
Proof.
  intros H. pose proof pad2_table as T. rewrite forallb_forall in T.
  specialize (T (Z.to_nat n)). rewrite Z2Nat.id in T by lia.
  apply str_eqb_true, T, in_seq. lia.
Qed.

Lemma digit_is_decimal d : 0 <= d < 10 -> is_decimal (Z.to_N (48 + d)) = true.
Proof.
  intros H. unfold is_decimal. apply andb_true_intro. split; apply N.leb_le; lia.
Qed.

Lemma two_digits_value n :
  0 <= n < 100 ->
  two_digits (Z.to_N (48 + n / 10)) (Z.to_N (48 + n mod 10)) = n.
Proof.
  intros H. unfold two_digits.
  pose proof (Z.div_mod n 10 ltac:(lia)).
  pose proof (Z.mod_pos_bound n 10 ltac:(lia)).
  assert (0 <= n / 10 < 10) by (split; [apply Z.div_pos | apply Z.div_lt_upper_bound]; lia).
  rewrite !Z2N.id by lia. lia.
Qed.

End DurationFacts.

(** X17.  A duration of less than one hundred hours is written as [HH:MM:SS], and
    the three fields read back as numbers give the duration: hours times
    3600 plus minutes times 60 plus seconds, with minutes and seconds below
    60. *)
Theorem format_duration_reads_back (seconds : Z)
    (Hrange : (0 <= seconds < 360000)%Z) :
  exists h1 h2 m1 m2 s1 s2,
    Duration.format_duration seconds = [h1; h2; 58%N; m1; m2; 58%N; s1; s2]
    /\ forallb Duration.is_decimal [h1; h2; m1; m2; s1; s2] = true
    /\ (Duration.two_digits h1 h2 * 3600 + Duration.two_digits m1 m2 * 60
        + Duration.two_digits s1 s2 = seconds)%Z
    /\ (Duration.two_digits m1 m2 < 60)%Z
    /\ (Duration.two_digits s1 s2 < 60)%Z.
Proof.
  pose proof (Z.div_mod seconds 3600 ltac:(lia)) as H1.
  pose proof (Z.mod_pos_bound seconds 3600 ltac:(lia)) as H2.
  pose proof (Z.div_mod (seconds mod 3600) 60 ltac:(lia)) as H3.
  pose proof (Z.mod_pos_bound (seconds mod 3600) 60 ltac:(lia)) as H4.
  pose proof (Z.mod_pos_bound seconds 60 ltac:(lia)) as H5.
  assert (Hh : (0 <= seconds / 3600 < 100)%Z).
  { split; [apply Z.div_pos | apply Z.div_lt_upper_bound]; lia. }
  assert (Hm : (0 <= seconds mod 3600 / 60 < 60)%Z).
  { split; [apply Z.div_pos | apply Z.div_lt_upper_bound]; lia. }
  assert (Hs : ((seconds mod 3600) mod 60 = seconds mod 60)%Z).
  { pose proof (Z.mod_pos_bound (seconds mod 3600) 60 ltac:(lia)).
    apply (Z.mod_unique seconds 60
             (60 * (seconds / 3600) + seconds mod 3600 / 60)%Z); lia. }
  unfold Duration.format_duration.
  rewrite (pad2_small (seconds / 3600)) by lia.
  rewrite (pad2_small (seconds mod 3600 / 60)) by lia.
  rewrite (pad2_small (seconds mod 60)) by lia.
  do 6 eexists. split; [reflexivity|].
  assert (D : forall n, (0 <= n < 100)%Z ->
                (0 <= n / 10 < 10)%Z /\ (0 <= n mod 10 < 10)%Z).
  { intros n Hn. split.
    - split; [apply Z.div_pos | apply Z.div_lt_upper_bound]; lia.
    - apply Z.mod_pos_bound. lia. }
  split.
  { cbn [forallb].
    rewrite !digit_is_decimal; [reflexivity| apply D; lia ..]. }
  rewrite !two_digits_value by lia.
  repeat split; lia.
Qed.

Lemma format_duration_reads_back_witness :
  exists h1 h2 m1 m2 s1 s2,
    Duration.format_duration 3725 = [h1; h2; 58%N; m1; m2; 58%N; s1; s2]
    /\ forallb Duration.is_decimal [h1; h2; m1; m2; s1; s2] = true
    /\ (Duration.two_digits h1 h2 * 3600 + Duration.two_digits m1 m2 * 60
        + Duration.two_digits s1 s2 = 3725)%Z
    /\ (Duration.two_digits m1 m2 < 60)%Z
    /\ (Duration.two_digits s1 s2 < 60)%Z.
Proof. apply format_duration_reads_back. lia. Defined.
(** ** The configuration *)

Section ConfigFacts.
Import Config.

Lemma merge_entry_same config key value :
  merge_entry config key value !! key = Some (merged_value (config !! key) value).
Proof.
  unfold merge_entry, merged_value.
  destruct (config !! key) as [[]|]; destruct value; apply lookup_insert_eq.
Qed.

Lemma merge_entry_other config key value key' :
  key' <> key -> merge_entry config key value !! key' = config !! key'.
Proof.
  intros Hne. unfold merge_entry.
  destruct (config !! key) as [[]|]; destruct value;
    apply lookup_insert_ne; congruence.
Qed.

Lemma fold_merge (items : list (pystr * json)) : forall config key,
  List.NoDup (map fst items) ->
  (forall value, In (key, value) items ->
     fold_left (fun config kv => merge_entry config (fst kv) (snd kv)) items config
       !! key = Some (merged_value (config !! key) value))
  /\ (~ In key (map fst items) ->
      fold_left (fun config kv => merge_entry config (fst kv) (snd kv)) items config
        !! key = config !! key).
Proof.
  induction items as [|[k v] items IH]; intros config key Hnd; cbn [fold_left map fst snd].
  - split; [intros value [] | reflexivity].
  - inversion Hnd as [|? ? Hk Hnd']; subst.
    destruct (IH (merge_entry config k v) key Hnd') as [IH1 IH2]. split.
    + intros value [[= -> ->]|Hin].
      * rewrite IH2 by exact Hk. apply merge_entry_same.
      * rewrite (IH1 value Hin). rewrite merge_entry_other; [reflexivity|].
        intros ->. apply Hk. apply in_map_iff. now exists (k, value).
    + intros Hnot. rewrite IH2 by (intros H'; apply Hnot; now right).
      apply merge_entry_other.
      intros ->. apply Hnot. now left.
Qed.

Lemma map_fst_fmap {A B} (l : list (A * B)) : map fst l = l.*1.
Proof. induction l as [|x l IH]; [reflexivity|]. simpl. now rewrite IH. Qed.

Lemma merge_config_lookup default user key :
  merge_config default user !! key
  = match user !! key with
    | Some value => Some (merged_value (default !! key) value)
    | None => default !! key
    end.
Proof.
  unfold merge_config.
  assert (Hnd : List.NoDup (map fst (map_to_list user))).
  { rewrite map_fst_fmap. apply NoDup_ListNoDup, NoDup_fst_map_to_list. }
  destruct (fold_merge (map_to_list user) default key Hnd) as [H1 H2].
  destruct (user !! key) as [value|] eqn:E.
  - apply H1, list_elem_of_In, elem_of_map_to_list, E.
  - apply H2. intros Hin. apply in_map_iff in Hin as ([k v] & Hk & Hin).
    simpl in Hk. subst k.
    apply list_elem_of_In, elem_of_map_to_list in Hin. congruence.
Qed.

End ConfigFacts.

(** X13.  After the merge every key the user file gives is taken from it and
    every other key keeps its default; where the user file gives a dict for
    a key whose default is a dict, that key holds the default dict updated
    with the user's entries: the user's entries win and the other default
    entries stay. *)
Theorem user_config_is_merged
    (default user : gmap pystr Config.json) (key : pystr) :
  Config.merge_config default user !! key
  = match user !! key with
    | Some value =>
      match default !! key, value with
      | Some (Config.JObj d), Config.JObj u => Some (Config.JObj (u ∪ d))
      | _, _ => Some value
      end
    | None => default !! key
    end.
Proof.
  rewrite merge_config_lookup. unfold Config.merged_value.
  destruct (user !! key) as [value|]; [|reflexivity].
  destruct (default !! key) as [[]|]; destruct value; reflexivity.
Qed.

(** X14.  A user file that gives dicts for the three provider tables, where it
    gives them at all, and one of the four built-in providers as the
    service, where it names one, leaves the named provider with an entry in
    each of the three tables: the look-ups at the head of
    [call_ai_service] find their keys. *)
Theorem builtin_provider_stays_configured
    (user : gmap pystr Config.json)
    (Htables : forall table, In table Config.tables ->
       match user !! table with
       | None | Some (Config.JObj _) => True
       | Some _ => False
       end)
    (Hservice : match user !! py "ai_service" with
                | None => True
                | Some (Config.JStr p) => In p Config.providers
                | Some _ => False
                end) :
  exists provider,
    Config.merge_config Config.default_config user !! py "ai_service"
    = Some (Config.JStr provider)
    /\ forall table, In table Config.tables ->
         is_Some (Config.lookup2 (Config.merge_config Config.default_config user)
                                 table provider).
Proof.
  assert (Hdefault : forall table p, In table Config.tables -> In p Config.providers ->
            exists d, Config.default_config !! table = Some (Config.JObj d)
                      /\ is_Some (d !! p)).
  { intros table p Ht Hp.
    repeat (destruct Ht as [<-|Ht]; [
      repeat (destruct Hp as [<-|Hp];
              [eexists; split; [vm_compute; reflexivity|vm_compute; eauto]|]);
      destruct Hp |]).
    destruct Ht. }
  assert (Hprov : exists provider, In provider Config.providers
            /\ Config.merge_config Config.default_config user !! py "ai_service"
               = Some (Config.JStr provider)).
  { rewrite merge_config_lookup.
    destruct (user !! py "ai_service") as [[| | |p| |]|]; try contradiction.
    - exists p. split; [exact Hservice|]. reflexivity.
    - exists (py "deepseek"). split; [now left | vm_compute; reflexivity]. }
  destruct Hprov as (provider & Hin & Eservice).
  exists provider. split; [exact Eservice|].
  intros table Ht.
  destruct (Hdefault table provider Ht Hin) as (d & Ed & Hd).
  unfold Config.lookup2. rewrite merge_config_lookup, Ed.
  specialize (Htables table Ht).
  destruct (user !! table) as [[| | | | |u]|]; try contradiction.
  - cbn [Config.merged_value]. apply lookup_union_is_Some. now right.
  - exact Hd.
Qed.

Lemma builtin_provider_stays_configured_witness :
  exists provider,
    Config.merge_config Config.default_config
      {[ py "ai_service" := Config.JStr (py "moon");
         py "api_keys" := Config.JObj {[ py "moon" := Config.JStr (py "sk-1") ]} ]}
      !! py "ai_service" = Some (Config.JStr provider)
    /\ forall table, In table Config.tables ->
         is_Some (Config.lookup2
                    (Config.merge_config Config.default_config
                       {[ py "ai_service" := Config.JStr (py "moon");
                          py "api_keys" :=
                            Config.JObj {[ py "moon" := Config.JStr (py "sk-1") ]} ]})
                    table provider).
Proof.
  apply builtin_provider_stays_configured.
  - intros table Ht.
    repeat (destruct Ht as [<-|Ht]; [vm_compute; exact I|]). destruct Ht.
  - vm_compute. tauto.
Defined.
(** ** The name of the AI report *)

Section ReplaceLength.

Variables old new : pystr.
Hypothesis Hlen : (length old <= length new)%nat.
Hypothesis Hold : (0 < length old)%nat.

Lemma strip_prefix_length p : forall s r,
  strip_prefix p s = Some r -> length s = (length p + length r)%nat.
Proof.
  induction p as [|x p IH]; intros s r; simpl.
  - now intros [= ->].
  - destruct s as [|y s]; [discriminate|].
    destruct (x =? y)%N; [|discriminate].
    intros H. simpl. now rewrite (IH s r H).
Qed.

(** A replacement by a text that is not shorter does not shorten. *)
Lemma replace_go_length s : forall skip,
  (length s <= length (str_replace_go old new skip s) + skip)%nat.
Proof.
  induction s as [|c s IH]; intros skip; cbn [str_replace_go length]; [lia|].
  destruct skip as [|n].
  - destruct (strip_prefix old (c :: s)) as [r|] eqn:E.
    + rewrite length_app. specialize (IH (Nat.pred (length old))). lia.
    + cbn [length]. specialize (IH O). lia.
  - specialize (IH n). lia.
Qed.

(** It lengthens when it is longer and there is an occurrence. *)
Lemma replace_longer s :
  (length old < length new)%nat ->
  str_contains old s = true ->
  (length s < length (str_replace old new s))%nat.
Proof.
  intros Hlt. unfold str_replace.
  induction s as [|c s IH]; cbn [str_contains str_replace_go].
  - destruct (strip_prefix old []) as [r|] eqn:E; [|discriminate].
    apply strip_prefix_length in E. simpl in E. lia.
  - destruct (strip_prefix old (c :: s)) as [r|] eqn:E.
    + intros _. rewrite length_app.
      pose proof (replace_go_length s (Nat.pred (length old))). cbn [length]. lia.
    + intros H. specialize (IH H). cbn [length]. lia.
Qed.

End ReplaceLength.

(** X11.  For a summary file whose name contains [_summary_] the AI report gets
    a name of its own: it is longer than, and so different from, the name of
    the summary file, which the report therefore does not overwrite. *)
Theorem ai_report_name_differs (summary_name timestamp : pystr)
    (Hname : str_contains (py "_summary_") summary_name = true) :
  (length summary_name < length (Naming.ai_report_name summary_name timestamp))%nat
  /\ Naming.ai_report_name summary_name timestamp <> summary_name.
Proof.
  assert (H : (length summary_name
               < length (Naming.ai_report_name summary_name timestamp))%nat).
  { unfold Naming.ai_report_name. rewrite Hname.
    apply replace_longer; try exact Hname; vm_compute; lia. }
  split; [exact H|]. intros E. rewrite E in H. lia.
Qed.

Lemma ai_report_name_differs_witness :
  (length (py "shop_summary_20260209_101500.html")
   < length (Naming.ai_report_name (py "shop_summary_20260209_101500.html")
               (py "20260301_000000")))%nat
  /\ Naming.ai_report_name (py "shop_summary_20260209_101500.html")
       (py "20260301_000000")
     <> py "shop_summary_20260209_101500.html".
Proof. apply ai_report_name_differs. vm_compute. reflexivity. Defined.
(** ** The name of the AI report of a summary *)

Section AiReportFacts.
Import AiReport.

(** A pattern of literals and classes reads its width or fails. *)
Lemma width_spec r : forall n k st,
  width r = Some n ->
  re_m r k st = None
  \/ exists st' a, re_m r k st = k st' /\ m_rest st = a ++ m_rest st' /\ length a = n.
Proof.
  induction r as [|c|p|a IHa b IHb|a IHa b IHb|g lo p|m r IH| |];
    intros n k st; cbn [width re_m]; try discriminate.
  - intros [= <-]. right. exists st, []. now repeat split.
  - intros [= <-]. destruct (m_rest st) as [|x s] eqn:E; [now left|].
    destruct (x =? c)%N; [|now left].
    right. exists (advance st x s), [x]. now repeat split.
  - intros [= <-]. destruct (m_rest st) as [|x s] eqn:E; [now left|].
    destruct (p x); [|now left].
    right. exists (advance st x s), [x]. now repeat split.
  - destruct (width a) as [x|]; [|discriminate].
    destruct (width b) as [y|]; [|discriminate].
    intros [= <-].
    destruct (IHa x (re_m b k) st eq_refl) as [H|(st1 & a1 & H1 & E1 & L1)];
      [now left|].
    destruct (IHb y k st1 eq_refl) as [H|(st2 & a2 & H2 & E2 & L2)].
    + left. now rewrite H1.
    + right. exists st2, (a1 ++ a2). rewrite H1, H2, E1, E2, <- app_assoc.
      repeat split. rewrite length_app. lia.
  - intros Hw.
    destruct (IH n (fun st' => k (set_cap m (m_pos st) (m_pos st') st')) st Hw)
      as [H|(st1 & a1 & H1 & E1 & L1)]; [now left|].
    right. exists (set_cap m (m_pos st) (m_pos st1) st1), a1.
    now repeat split.
Qed.

(** A lazy repetition stops at the first position where what follows it
    matches. *)
Lemma rep_lazy_first p k v caps r : forall u prev i,
  forallb p u = true ->
  (forall u1 u2 prev' i', u = u1 ++ u2 -> u2 <> [] ->
     k (MState prev' (u2 ++ v) i' caps) = None) ->
  k (MState (prev_at prev u (length u)) v (i + length u) caps) = Some r ->
  rep false p k 0 prev (u ++ v) i caps = Some r.
Proof.
  induction u as [|c u IH]; intros prev i Hp Hfail Hk.
  - cbn [app length prev_at] in *. rewrite Nat.add_0_r in Hk.
    destruct v as [|c v]; cbn [rep]; [exact Hk | now rewrite Hk].
  - cbn [forallb] in Hp. apply andb_prop in Hp as [Hc Hu].
    cbn [app rep].
    pose proof (Hfail [] (c :: u) prev i eq_refl ltac:(discriminate)) as H0.
    cbn [app] in H0. rewrite H0, Hc. apply IH.
    + exact Hu.
    + intros u1 u2 prev' i' E Hne. apply (Hfail (c :: u1) u2); [|exact Hne].
      now rewrite E.
    + cbn [length prev_at] in Hk.
      now replace (S i + length u)%nat with (i + S (length u))%nat by lia.
Qed.

Lemma at_end_rest st : at_end st = true -> m_rest st = [] \/ m_rest st = [NL].
Proof.
  unfold at_end. destruct (m_rest st) as [|c [|d s]]; try discriminate.
  - now left.
  - intros H. apply N.eqb_eq in H. subst. now right.
Qed.

Lemma last_app_nonempty (a b : pystr) d : b <> [] -> List.last (a ++ b) d = List.last b d.
Proof.
  intros Hb. induction a as [|x a IH]; [reflexivity|].
  cbn [app]. destruct (a ++ b) eqn:E.
  - destruct a; [cbn in E; congruence | discriminate].
  - cbn [List.last]. exact IH.
Qed.

Lemma slice_after (pre s : pystr) a b :
  slice (pre ++ s) (length pre + a) (length pre + b) = slice s a b.
Proof.
  unfold slice.
  replace (length pre + b - (length pre + a))%nat with (b - a)%nat by lia.
  f_equal. rewrite skipn_app.
  replace (length pre + a - length pre)%nat with a by lia.
  rewrite skipn_all2 by lia. reflexivity.
Qed.

Lemma slice_shift (pre s : pystr) a b a' b' :
  a = (length pre + a')%nat -> b = (length pre + b')%nat ->
  slice (pre ++ s) a b = slice s a' b'.
Proof. intros -> ->. apply slice_after. Qed.

Lemma slice_before (pre s : pystr) :
  slice (pre ++ s) 0 (length pre) = pre.
Proof.
  unfold slice. rewrite Nat.sub_0_r. change (skipn 0 (pre ++ s)) with (pre ++ s).
  apply take_app_length.
Qed.

(** A literal reads itself. *)
Lemma lit_match s k rest caps : forall prev i,
  re_m (lit s) k (MState prev (s ++ rest) i caps)
  = k (MState (prev_at prev s (length s)) rest (i + length s) caps).
Proof.
  unfold lit. induction s as [|c s IH]; intros prev i;
    cbn [map seq_re fold_right re_m app length prev_at m_rest].
  - now rewrite Nat.add_0_r.
  - rewrite N.eqb_refl. unfold advance. cbn [m_pos m_caps].
    fold (seq_re (map Chr s)). rewrite IH. f_equal. f_equal. lia.
Qed.

(** A run of one class reads as many characters of the class. *)
Lemma class_run_match p xs k rest caps : forall prev i,
  forallb p xs = true ->
  re_m (seq_re (repeat (Cls p) (length xs))) k (MState prev (xs ++ rest) i caps)
  = k (MState (prev_at prev xs (length xs)) rest (i + length xs) caps).
Proof.
  induction xs as [|c xs IH]; intros prev i Hp;
    cbn [repeat seq_re fold_right re_m app length prev_at m_rest].
  - now rewrite Nat.add_0_r.
  - cbn [forallb] in Hp. apply andb_prop in Hp as [Hc Hxs]. rewrite Hc.
    unfold advance. cbn [m_pos m_caps].
    fold (seq_re (repeat (Cls p) (length xs))). rewrite IH by exact Hxs.
    f_equal. f_equal. lia.
Qed.

Variable nd : char -> bool.

Lemma tail_width : width (summary_tail_re nd) = Some 29%nat.
Proof. reflexivity. Qed.

(** The end of the pattern does not match before the end of the name. *)
Lemma tail_fails_early (u2 stamp : pystr) prev i caps :
  u2 <> [] -> length stamp = 15%nat ->
  re_m (summary_tail_re nd) (fun st => if at_end st then Some st else None)
       (MState prev (u2 ++ py "_summary_" ++ stamp ++ py ".html") i caps) = None.
Proof.
  intros Hne Hlen.
  destruct (width_spec (summary_tail_re nd) 29
              (fun st => if at_end st then Some st else None)
              (MState prev (u2 ++ py "_summary_" ++ stamp ++ py ".html") i caps)
              tail_width) as [H|(st' & a & H & E & La)]; [exact H|].
  rewrite H. destruct (at_end st') eqn:Eend; [|reflexivity].
  exfalso. cbn [m_rest] in E.
  assert (Hl : length (u2 ++ py "_summary_" ++ stamp ++ py ".html")
               = (length u2 + 29)%nat).
  { rewrite !length_app, Hlen. reflexivity. }
  destruct (at_end_rest st' Eend) as [Er|Er]; rewrite Er in E.
  - rewrite E, length_app, La in Hl. cbn [length] in Hl.
    destruct u2; [congruence | cbn [length] in Hl; lia].
  - assert (Hlast : List.last (u2 ++ py "_summary_" ++ stamp ++ py ".html") 0%N
                    = 108%N).
    { rewrite !app_assoc. rewrite last_app_nonempty by discriminate. reflexivity. }
    rewrite E, last_last in Hlast. discriminate.
Qed.

Lemma stamp_shape stamp :
  is_stamp nd stamp = true ->
  exists ds es,
    stamp = ds ++ py "_" ++ es
    /\ length ds = 8%nat /\ length es = 6%nat
    /\ forallb (is_digit nd) ds = true
    /\ forallb (is_digit nd) es = true.
Proof.
  unfold is_stamp. intros H.
  apply andb_prop in H as [H H4]. apply andb_prop in H as [H H3].
  apply andb_prop in H as [H1 H2]. apply Nat.eqb_eq in H1.
  do 15 (destruct stamp as [|? stamp]; [discriminate|]).
  destruct stamp; [|discriminate].
  cbn [nth] in H3. apply N.eqb_eq in H3. subst.
  exists (firstn 8 [n; n0; n1; n2; n3; n4; n5; n6; 95%N; n8; n9; n10; n11; n12; n13]),
         (skipn 9 [n; n0; n1; n2; n3; n4; n5; n6; 95%N; n8; n9; n10; n11; n12; n13]).
  repeat split; assumption.
Qed.

End AiReportFacts.

(** X10.  The AI report of a summary report [P_summary_T.html], where [T] is a
    time stamp of eight digits, an underscore and six digits and [P] is on
    one line, is named [P_AIreport_T.html]. *)
Theorem summary_report_gets_ai_report_name
    (nd : char -> bool) (project stamp now : pystr)
    (Hproject : forallb dot project = true)
    (Hstamp : AiReport.is_stamp nd stamp = true) :
  AiReport.ai_report_name nd (project ++ py "_summary_" ++ stamp ++ py ".html") now
  = project ++ py "_AIreport_" ++ stamp ++ py ".html".
Proof.
  assert (Hm : exists st,
    AiReport.match_whole (AiReport.summary_name_re nd)
      (project ++ py "_summary_" ++ stamp ++ py ".html") = Some st
    /\ group (project ++ py "_summary_" ++ stamp ++ py ".html") st 1 = project
    /\ group (project ++ py "_summary_" ++ stamp ++ py ".html") st 2 = stamp).
  { destruct (stamp_shape nd stamp Hstamp) as (ds & es & Es & Lds & Les & Hd & He).
    assert (Hlen : length stamp = 15%nat).
    { rewrite Es, !length_app, Lds, Les. reflexivity. }
    unfold AiReport.match_whole.
    change (AiReport.summary_name_re nd)
      with (Cat (Grp 1 lazy_dot) (AiReport.summary_tail_re nd)).
    cbn [re_m lazy_dot m_prev m_rest m_pos m_caps].
    eexists. split.
    - apply rep_lazy_first.
      + exact Hproject.
      + intros u1 u2 prev' i' _ Hne. unfold set_cap. cbn [m_prev m_rest m_pos m_caps].
        now apply tail_fails_early.
      + unfold set_cap. cbn [m_prev m_rest m_pos m_caps].
        unfold AiReport.summary_tail_re, AiReport.stamp_re, AiReport.digit, L.
        cbn [seq_re fold_right re_m].
        rewrite lit_match.
        cbn [re_m m_pos].
        fold (seq_re (repeat (Cls (is_digit nd)) 8
                      ++ [lit (py "_")] ++ repeat (Cls (is_digit nd)) 6)).
        rewrite seq_re_app.
        rewrite Es at 1. rewrite <- !app_assoc.
        rewrite <- Lds at 1. rewrite class_run_match by exact Hd.
        cbn [app seq_re fold_right re_m].
        rewrite lit_match.
        fold (seq_re (repeat (Cls (is_digit nd)) 6)).
        rewrite <- Les at 1. rewrite class_run_match by exact He.
        unfold set_cap. cbn [m_prev m_rest m_pos m_caps].
        rewrite <- (app_nil_r (py ".html")) at 2.
        rewrite lit_match.
        cbn [AiReport.at_end m_rest].
        reflexivity.
    - cbn [group cap_lookup m_caps Nat.eqb].
      split.
      + cbn [Nat.add]. apply slice_before.
      + rewrite (app_assoc project).
        rewrite (slice_shift (project ++ py "_summary_") _ _ _ 0 (length stamp)).
        * apply slice_before.
        * rewrite length_app. lia.
        * rewrite length_app. unfold char, pystr in *.
          rewrite Hlen, Lds, Les.
          change (length (py "_")) with 1%nat. lia. }
  destruct Hm as (st & Hst & G1 & G2).
  unfold AiReport.ai_report_name, AiReport.name_parts.
  rewrite Hst, G1, G2. reflexivity.
Qed.

Lemma summary_report_gets_ai_report_name_witness :
  AiReport.ai_report_name (fun _ => false)
    (py "shop" ++ py "_summary_" ++ py "20260209_101500" ++ py ".html")
    (py "20260301_000000")
  = py "shop" ++ py "_AIreport_" ++ py "20260209_101500" ++ py ".html".
Proof.
  apply summary_report_gets_ai_report_name; vm_compute; reflexivity.
Defined.
(** ** The test plans in order *)

Section JmxFacts.
Import JmxFiles.

Lemma insert_by_number_perm x l : Permutation (insert_by_number x l) (x :: l).
Proof.
  induction l as [|y l IH]; cbn [insert_by_number]; [reflexivity|].
  destruct (fst x <=? fst y)%Z; [reflexivity|].
  rewrite IH. apply perm_swap.
Qed.

Lemma sort_by_number_perm l : Permutation (sort_by_number l) l.
Proof.
  induction l as [|x l IH]; cbn [sort_by_number fold_right]; [reflexivity|].
  fold (sort_by_number l). now rewrite insert_by_number_perm, IH.
Qed.

Lemma insert_by_number_sorted x l :
  StronglySorted Z.le (map fst l) ->
  StronglySorted Z.le (map fst (insert_by_number x l)).
Proof.
  induction l as [|y l IH]; intros Hs; cbn [insert_by_number map].
  - constructor; constructor.
  - destruct (fst x <=? fst y)%Z eqn:E; cbn [map].
    + apply Z.leb_le in E. constructor; [exact Hs|].
      inversion Hs as [|? ? Hs' Hall]; subst.
      constructor; [exact E|].
      apply List.Forall_forall. intros z Hz.
      pose proof (proj1 (List.Forall_forall _ _) Hall z Hz). lia.
    + apply Z.leb_gt in E. inversion Hs as [|? ? Hs' Hall]; subst.
      constructor; [now apply IH|].
      apply List.Forall_forall. intros z Hz.
      apply (Permutation_in _ (Permutation_map fst (insert_by_number_perm x l))) in Hz.
      destruct Hz as [<-|Hz]; [lia|].
      exact (proj1 (List.Forall_forall _ _) Hall z Hz).
Qed.

Lemma sort_by_number_sorted l : StronglySorted Z.le (map fst (sort_by_number l)).
Proof.
  induction l as [|x l IH]; cbn [sort_by_number fold_right]; [constructor|].
  now apply insert_by_number_sorted.
Qed.

(** The sort is stable: the entries of one number keep their order. *)
Lemma insert_by_number_stable n x l :
  StronglySorted Z.le (map fst l) ->
  List.filter (fun y => (fst y =? n)%Z) (insert_by_number x l)
  = List.filter (fun y => (fst y =? n)%Z) (x :: l).
Proof.
  induction l as [|y l IH]; intros Hs; cbn [insert_by_number]; [reflexivity|].
  destruct (fst x <=? fst y)%Z eqn:E; [reflexivity|].
  apply Z.leb_gt in E. inversion Hs as [|? ? Hs' Hall]; subst.
  cbn [List.filter] in *. rewrite (IH Hs').
  destruct (fst x =? n)%Z eqn:Ex; [|reflexivity].
  apply Z.eqb_eq in Ex.
  destruct (fst y =? n)%Z eqn:Ey; [apply Z.eqb_eq in Ey; lia | reflexivity].
Qed.

Lemma sort_by_number_stable n l :
  List.filter (fun y => (fst y =? n)%Z) (sort_by_number l)
  = List.filter (fun y => (fst y =? n)%Z) l.
Proof.
  induction l as [|x l IH]; cbn [sort_by_number fold_right]; [reflexivity|].
  fold (sort_by_number l).
  rewrite insert_by_number_stable by apply sort_by_number_sorted.
  cbn [List.filter]. now rewrite IH.
Qed.

Variable nd : char -> bool.
Variable nd_value : char -> Z.

Lemma numbered_spec names : forall number name,
  In (number, name) (numbered nd nd_value names) ->
  In name names /\ file_number nd nd_value name = Some number.
Proof.
  induction names as [|x names IH]; intros number name; cbn; [tauto|].
  destruct (file_number nd nd_value x) as [m|] eqn:E; cbn.
  - intros [[= -> ->]|H].
    + split; [now left | exact E].
    + destruct (IH _ _ H). split; [now right | assumption].
  - intros H. destruct (IH _ _ H). split; [now right | assumption].
Qed.

Lemma map_snd_numbered names :
  map snd (numbered nd nd_value names)
  = List.filter (fun name => match file_number nd nd_value name with
                             | Some _ => true | None => false end) names.
Proof.
  induction names as [|x names IH]; [reflexivity|].
  cbn. destruct (file_number nd nd_value x); cbn; now rewrite <- IH.
Qed.

Lemma numbers_of_sorted l :
  (forall number name, In (number, name) l ->
     file_number nd nd_value name = Some number) ->
  omap (file_number nd nd_value) (map snd l) = map fst l.
Proof.
  induction l as [|[n name] l IH]; intros H; [reflexivity|].
  cbn. rewrite (H n name (or_introl eq_refl)). cbn. f_equal.
  apply IH. intros. apply H. now right.
Qed.

Lemma filter_number_names n l :
  (forall number name, In (number, name) l ->
     file_number nd nd_value name = Some number) ->
  List.filter (fun name => match file_number nd nd_value name with
                           | Some m => (m =? n)%Z | None => false end)
              (map snd l)
  = map snd (List.filter (fun y => (fst y =? n)%Z) l).
Proof.
  induction l as [|[m name] l IH]; intros H; [reflexivity|].
  cbn. rewrite (H m name (or_introl eq_refl)).
  rewrite IH by (intros; apply H; now right).
  now destruct (m =? n)%Z.
Qed.

Lemma filter_numbered n names :
  List.filter (fun name => match file_number nd nd_value name with
                           | Some m => (m =? n)%Z | None => false end)
    (List.filter (fun name => match file_number nd nd_value name with
                              | Some _ => true | None => false end) names)
  = List.filter (fun name => match file_number nd nd_value name with
                             | Some m => (m =? n)%Z | None => false end) names.
Proof.
  induction names as [|x names IH]; [reflexivity|].
  cbn [List.filter].
  destruct (file_number nd nd_value x) as [m|] eqn:E;
    cbn [List.filter]; rewrite ?E; rewrite IH; reflexivity.
Qed.

(** A greedy repetition reads a run of its class to the end when what
    follows it matches there. *)
Lemma rep_greedy_run p k rest caps r : forall ds lo prev i,
  forallb p ds = true ->
  match rest with [] => True | c :: _ => p c = false end ->
  (lo <= length ds)%nat ->
  k (MState (prev_at prev ds (length ds)) rest (i + length ds) caps) = Some r ->
  rep true p k lo prev (ds ++ rest) i caps = Some r.
Proof.
  induction ds as [|c ds IH]; intros lo prev i Hp Hrest Hlo Hk.
  - cbn [app length prev_at] in *. rewrite Nat.add_0_r in Hk.
    assert (lo = 0%nat) by lia. subst lo.
    destruct rest as [|c rest]; cbn [rep]; [exact Hk|]. now rewrite Hrest.
  - cbn [forallb] in Hp. apply andb_prop in Hp as [Hc Hds].
    cbn [length prev_at] in Hk.
    replace (i + S (length ds))%nat with (S i + length ds)%nat in Hk by lia.
    cbn [app rep]. rewrite Hc. destruct lo as [|lo].
    + now rewrite (IH 0%nat (Some c) (S i) Hds Hrest ltac:(lia) Hk).
    + apply IH; try assumption. cbn [length] in Hlo. lia.
Qed.

(** A name that begins with a number and an underscore has that number. *)
Lemma file_number_of_prefix ds rest :
  ds <> [] -> forallb (is_digit nd) ds = true ->
  file_number nd nd_value (ds ++ py "_" ++ rest)
  = Some (HtmlTps.int_of_number nd_value ds).
Proof.
  intros Hne Hds. unfold file_number, match_here, number_re, L.
  cbn [seq_re fold_right re_m m_prev m_rest m_pos m_caps].
  match goal with
  | |- context [rep true ?p ?k 1 None ?s 0 []] =>
    assert (H : exists st, rep true p k 1 None s 0 [] = Some st
                           /\ group s st 1 = ds)
  end.
  { eexists. split.
    - apply rep_greedy_run.
      + exact Hds.
      + reflexivity.
      + destruct ds; [congruence | cbn [length]; lia].
      + unfold set_cap. cbn [m_prev m_rest m_pos m_caps].
        rewrite lit_match. cbn [re_m]. reflexivity.
    - cbn [group cap_lookup m_caps Nat.eqb Nat.add]. apply slice_before. }
  destruct H as (st & -> & ->). reflexivity.
Qed.

Lemma file_number_needs_digit name :
  match name with [] => True | c :: _ => is_digit nd c = false end ->
  file_number nd nd_value name = None.
Proof.
  intros H. unfold file_number, match_here, number_re.
  cbn [seq_re fold_right re_m m_prev m_rest m_pos m_caps].
  destruct name as [|c name]; cbn [rep]; [reflexivity|]. now rewrite H.
Qed.

End JmxFacts.

(** X8.  The test plans come back in ascending order of the number their name
    begins with; they are the names with such a number, each once, and
    names with the same number keep the order in which the directory
    listing gave them.  A name made of digits, an underscore and any text
    has the number its digits spell; a name that does not begin with a
    digit has none and is left out. *)
Theorem jmx_files_are_sorted_by_number
    (nd : char -> bool) (nd_value : char -> Z) (names : list pystr) :
  let number := JmxFiles.file_number nd nd_value in
  let sorted := JmxFiles.get_jmx_files_sorted nd nd_value names in
  StronglySorted Z.le (omap number sorted)
  /\ length (omap number sorted) = length sorted
  /\ Permutation sorted
       (List.filter (fun name => match number name with
                                 | Some _ => true | None => false end) names)
  /\ (forall n,
        List.filter (fun name => match number name with
                                 | Some m => (m =? n)%Z | None => false end) sorted
        = List.filter (fun name => match number name with
                                   | Some m => (m =? n)%Z | None => false end) names)
  /\ (forall ds rest, ds <> [] -> forallb (is_digit nd) ds = true ->
        number (ds ++ py "_" ++ rest) = Some (HtmlTps.int_of_number nd_value ds))
  /\ (forall c rest, is_digit nd c = false -> number (c :: rest) = None).
Proof.
  cbv zeta. unfold JmxFiles.get_jmx_files_sorted.
  set (l := JmxFiles.sort_by_number (JmxFiles.numbered nd nd_value names)).
  assert (Hspec : forall n name, In (n, name) l ->
            JmxFiles.file_number nd nd_value name = Some n).
  { intros n name H. unfold l in H.
    apply (Permutation_in _ (sort_by_number_perm _)) in H.
    now apply (numbered_spec nd nd_value names). }
  assert (Hnum : omap (JmxFiles.file_number nd nd_value) (map snd l) = map fst l).
  { apply numbers_of_sorted, Hspec. }
  repeat split.
  - rewrite Hnum. apply sort_by_number_sorted.
  - rewrite Hnum. now rewrite !length_map.
  - rewrite <- map_snd_numbered. apply Permutation_map, sort_by_number_perm.
  - intros n.
    rewrite (filter_number_names nd nd_value n _ Hspec).
    unfold l. rewrite sort_by_number_stable.
    rewrite <- (filter_number_names nd nd_value n).
    + rewrite map_snd_numbered. apply filter_numbered.
    + intros m name H. now apply (numbered_spec nd nd_value names).
  - intros ds rest. apply file_number_of_prefix.
  - intros c rest H. now apply file_number_needs_digit.
Qed.
(** ** The TPS block in a report *)

Section FindFacts.

Lemma strip_prefix_self p : forall rest, strip_prefix p (p ++ rest) = Some rest.
Proof.
  induction p as [|x p IH]; intros rest; cbn [app strip_prefix]; [reflexivity|].
  now rewrite N.eqb_refl.
Qed.

(** [startswith] looks at as many characters as the prefix has. *)
Lemma strip_prefix_none_app p : forall u v,
  (length p <= length u)%nat ->
  strip_prefix p u = None -> strip_prefix p (u ++ v) = None.
Proof.
  induction p as [|x p IH]; intros u v Hlen; cbn [strip_prefix]; [discriminate|].
  destruct u as [|y u]; [simpl in Hlen; lia|]. cbn [app].
  destruct (x =? y)%N; [|reflexivity].
  apply IH. simpl in Hlen. lia.
Qed.

Lemma str_find_unfold sub s :
  str_find sub s
  = match strip_prefix sub s with
    | Some _ => Some O
    | None => match s with [] => None | _ :: s' => S <$> str_find sub s' end
    end.
Proof. destruct s; reflexivity. Qed.

Lemma contains_find sub s :
  str_contains sub s = true <-> str_find sub s <> None.
Proof.
  induction s as [|c s IH]; cbn [str_contains str_find].
  - destruct (strip_prefix sub []); [split; [discriminate|reflexivity]|].
    split; [discriminate | congruence].
  - destruct (strip_prefix sub (c :: s)); [split; [discriminate|reflexivity]|].
    rewrite IH. destruct (str_find sub s); cbn; split; congruence.
Qed.

Lemma contains_false_find sub s : str_contains sub s = false -> str_find sub s = None.
Proof.
  intros H. destruct (str_find sub s) eqn:E; [|reflexivity].
  assert (str_contains sub s = true) by (apply contains_find; congruence).
  congruence.
Qed.

(** The first occurrence: no occurrence begins before it. *)
Lemma find_first sub a b :
  sub <> [] ->
  str_contains sub (a ++ removelast sub) = false ->
  str_find sub (a ++ sub ++ b) = Some (length a).
Proof.
  intros Hne. induction a as [|x a IH]; intros Hnone.
  - cbn [app length]. now rewrite str_find_unfold, strip_prefix_self.
  - cbn [app str_contains] in Hnone.
    destruct (strip_prefix sub (x :: a ++ removelast sub)) eqn:E; [discriminate|].
    assert (Hsplit : x :: a ++ sub ++ b
                     = (x :: a ++ removelast sub) ++ [List.last sub 0%N] ++ b).
    { rewrite (app_removelast_last 0%N Hne) at 1. cbn [app].
      now rewrite <- !app_assoc. }
    assert (Hsp : strip_prefix sub (x :: a ++ sub ++ b) = None).
    { rewrite Hsplit. apply strip_prefix_none_app; [|exact E].
      cbn [length]. rewrite length_app.
      pose proof (f_equal (@length N) (app_removelast_last 0%N Hne)) as Hl.
      rewrite length_app in Hl. cbn [length] in Hl. lia. }
    cbn [app length]. rewrite str_find_unfold, Hsp, (IH Hnone). reflexivity.
Qed.

Lemma find_from_first sub pre a b :
  sub <> [] ->
  str_contains sub (a ++ removelast sub) = false ->
  str_find_from sub (pre ++ a ++ sub ++ b) (length pre)
  = Some (length pre + length a)%nat.
Proof.
  intros Hne Hnone. unfold str_find_from.
  rewrite drop_app_length. now rewrite find_first.
Qed.

End FindFacts.

Section TpsBlockFacts.
Import TpsBlock.

Variable tps_html : pystr.

Lemma insert_at_split html pre post :
  html = pre ++ post ->
  insert_at tps_html html (length pre) = pre ++ tps_html ++ post.
Proof.
  intros ->. unfold insert_at.
  now rewrite take_app_length, drop_app_length.
Qed.

End TpsBlockFacts.

(** X7.  The block is inserted into the report and nothing of the report is
    changed or lost.  It comes right after the first [</table>] that follows
    the first [Summary</h3>]; without a summary heading, right after the
    first [<body>]; and without either, at the end. *)
Theorem tps_block_is_inserted (tps_html html_content : pystr) :
  (exists pre post,
     html_content = pre ++ post
     /\ TpsBlock.add_tps_to_html tps_html html_content = pre ++ tps_html ++ post)
  /\ (forall a b c,
        html_content = a ++ py "Summary</h3>" ++ b ++ py "</table>" ++ c ->
        str_contains (py "Summary</h3>") (a ++ py "Summary</h3") = false ->
        str_contains (py "</table>") (py "Summary</h3>" ++ b ++ py "</table") = false ->
        TpsBlock.add_tps_to_html tps_html html_content
        = a ++ py "Summary</h3>" ++ b ++ py "</table>" ++ tps_html ++ c)
  /\ (forall a b,
        str_contains (py "Summary</h3>") html_content = false ->
        html_content = a ++ py "<body>" ++ b ->
        str_contains (py "<body>") (a ++ py "<body") = false ->
        TpsBlock.add_tps_to_html tps_html html_content
        = a ++ py "<body>" ++ tps_html ++ b)
  /\ (str_contains (py "Summary</h3>") html_content = false ->
      str_contains (py "<body>") html_content = false ->
      TpsBlock.add_tps_to_html tps_html html_content = html_content ++ tps_html).
Proof.
  assert (Hins : forall pos, exists pre post,
            html_content = pre ++ post
            /\ TpsBlock.insert_at tps_html html_content pos = pre ++ tps_html ++ post).
  { intros pos. exists (firstn pos html_content), (skipn pos html_content).
    split; [symmetry; apply firstn_skipn | reflexivity]. }
  assert (Hend : exists pre post,
            html_content = pre ++ post
            /\ html_content ++ tps_html = pre ++ tps_html ++ post).
  { exists html_content, []. now rewrite !app_nil_r. }
  assert (Hbody : exists pre post,
            html_content = pre ++ post
            /\ TpsBlock.after_body tps_html html_content = pre ++ tps_html ++ post).
  { unfold TpsBlock.after_body.
    destruct (str_contains (py "<body>") html_content); [|exact Hend].
    destruct (str_find (py "<body>") html_content); [apply Hins | exact Hend]. }
  split; [|split; [|split]].
  - unfold TpsBlock.add_tps_to_html.
    destruct (str_contains (py "Summary</h3>") html_content); [|exact Hbody].
    destruct (str_find (py "Summary</h3>") html_content); [|exact Hbody].
    destruct (str_find_from (py "</table>") html_content n); [apply Hins | exact Hbody].
  - intros a b c E Hs Ht. unfold TpsBlock.add_tps_to_html.
    assert (Hfind : str_find (py "Summary</h3>") html_content = Some (length a)).
    { rewrite E. apply find_first; [discriminate | exact Hs]. }
    assert (Hc : str_contains (py "Summary</h3>") html_content = true).
    { apply contains_find. rewrite Hfind. discriminate. }
    rewrite Hc, Hfind.
    assert (Hfrom : str_find_from (py "</table>") html_content (length a)
                    = Some (length a + length (py "Summary</h3>" ++ b))%nat).
    { rewrite E.
      replace (a ++ py "Summary</h3>" ++ b ++ py "</table>" ++ c)
        with (a ++ (py "Summary</h3>" ++ b) ++ py "</table>" ++ c)
        by now rewrite <- !app_assoc.
      apply find_from_first; [discriminate|].
      rewrite <- app_assoc. exact Ht. }
    rewrite Hfrom.
    replace (length a + length (py "Summary</h3>" ++ b) + length (py "</table>"))%nat
      with (length (a ++ py "Summary</h3>" ++ b ++ py "</table>"))
      by (rewrite !length_app; lia).
    rewrite (insert_at_split tps_html html_content
               (a ++ py "Summary</h3>" ++ b ++ py "</table>") c).
    + now rewrite <- !app_assoc.
    + rewrite E. now rewrite <- !app_assoc.
  - intros a b Hs E Hb. unfold TpsBlock.add_tps_to_html, TpsBlock.after_body.
    rewrite Hs.
    assert (Hfind : str_find (py "<body>") html_content = Some (length a)).
    { rewrite E. apply find_first; [discriminate | exact Hb]. }
    assert (Hc : str_contains (py "<body>") html_content = true).
    { apply contains_find. rewrite Hfind. discriminate. }
    rewrite Hc, Hfind.
    replace (length a + length (py "<body>"))%nat
      with (length (a ++ py "<body>")) by (rewrite length_app; lia).
    rewrite (insert_at_split tps_html html_content (a ++ py "<body>") b).
    + now rewrite <- !app_assoc.
    + rewrite E. now rewrite <- !app_assoc.
  - intros Hs Hb. unfold TpsBlock.add_tps_to_html, TpsBlock.after_body.
    now rewrite Hs, Hb.
Qed.
(** ** The link the patcher writes *)

Section PatchLink.
Import Linear Patcher.

Lemma section_head_ends :
  section_head = firstn (length section_head - 9) section_head ++ py "<a href='".
Proof. vm_compute. reflexivity. Qed.

Lemma section_tail_begins :
  section_tail
  = py "' style='color: #28a745; text-decoration: none;' target='_blank'>AI分析</a>"
    ++ skipn 73 section_tail.
Proof. vm_compute. reflexivity. Qed.

Lemma around_name (h h' link t a t' name pre post : pystr) :
  h = h' ++ link -> t = a ++ t' ->
  pre ++ (h ++ name ++ t) ++ post
  = (pre ++ h') ++ link ++ name ++ a ++ (t' ++ post).
Proof. intros -> ->. now rewrite <- !app_assoc. Qed.

#[local] Opaque original_tokens original_ai_pattern updated_ai_pattern
  section_head section_tail.

Variable parse_template : pystr -> option (list titem).

Lemma patch_content_has_section content name :
  has_backslash name = false ->
  re_search original_ai_pattern content <> None ->
  exists pre post,
    patch_content parse_template content name
    = (Updated, pre ++ new_ai_section name ++ post).
Proof.
  intros Hbs Hfound.
  assert (Hn : ~ clean original_tokens content).
  { intros Hc. apply Hfound. now apply search_original. }
  unfold patch_content, compile_template.
  rewrite (section_has_no_backslash _ Hbs).
  destruct (re_search original_ai_pattern content); [|congruence].
  unfold re_sub.
  rewrite (sub_go_linear original_tokens (new_ai_section name) original_nonempty
             original_ai_pattern original_flatten original_determinate).
  destruct (psub_has_section (new_ai_section name) content Hn) as (pre & post & ->).
  now exists pre, post.
Qed.

Lemma update_has_link file name link anchor :
  link = py "<a href='" ->
  anchor = py "' style='color: #28a745; text-decoration: none;' target='_blank'>AI分析</a>" ->
  has_backslash name = false ->
  re_search original_ai_pattern (read_text file) <> None ->
  exists pre post,
    update_original_report parse_template file name
    = (Updated, pre ++ link ++ name ++ anchor ++ post).
Proof.
  intros El Ea Hbs Hfound.
  destruct (patch_content_has_section (read_text file) name Hbs Hfound)
    as (pre & post & E).
  unfold update_original_report. rewrite E. cbn [fst].
  exists (pre ++ firstn (length section_head - 9) section_head),
         (skipn 73 section_tail ++ post).
  f_equal. unfold new_ai_section. apply around_name.
  - rewrite El. exact section_head_ends.
  - rewrite Ea. exact section_tail_begins.
Qed.

End PatchLink.

(** X9.  When the summary file holds an Unpatched placeholder and the name of
    the AI report has no backslash, the call rewrites the file, and the new
    text holds the link to that name: [<a href=], the name in quotes, and the
    rest of the anchor. *)
Theorem patch_writes_the_link
    (parse_template : pystr -> option (list titem)) (file ai_report_name : pystr)
    (Hbackslash : Patcher.has_backslash ai_report_name = false)
    (Hfound : re_search Patcher.original_ai_pattern (Patcher.read_text file) <> None) :
  exists pre post,
    Patcher.update_original_report parse_template file ai_report_name
    = (Patcher.Updated,
       pre ++ py "<a href='" ++ ai_report_name
       ++ py "' style='color: #28a745; text-decoration: none;' target='_blank'>AI分析</a>"
       ++ post).
Proof.
  exact (update_has_link parse_template file ai_report_name _ _ eq_refl eq_refl
           Hbackslash Hfound).
Qed.

Lemma patch_writes_the_link_witness :
  exists pre post,
    Patcher.update_original_report (fun _ => None) Patcher.unpatched_block
      (py "shop_AIreport_20260209_101500.html")
    = (Patcher.Updated,
       pre ++ py "<a href='" ++ py "shop_AIreport_20260209_101500.html"
       ++ py "' style='color: #28a745; text-decoration: none;' target='_blank'>AI分析</a>"
       ++ post).
Proof.
  refine (patch_writes_the_link (fun _ => None) Patcher.unpatched_block
            (py "shop_AIreport_20260209_101500.html") _ _).
  - vm_compute. reflexivity.
  - vm_compute. discriminate.
Defined.
(** ** Texts a pattern cannot match *)

Section EngineFacts.

(** The engine answers only through its continuation. *)
Lemma rep_through g p k x : forall s lo prev i caps,
  rep g p k lo prev s i caps = Some x ->
  exists st', k st' = Some x /\ exists a, s = a ++ m_rest st'.
Proof.
  induction s as [|c s IH]; intros lo prev i caps; cbn [rep].
  - destruct lo; [|discriminate]. intros H. eexists. split; [exact H|]. now exists [].
  - assert (Hrec : forall lo',
              rep g p k lo' (Some c) s (S i) caps = Some x ->
              exists st', k st' = Some x /\ exists a, c :: s = a ++ m_rest st').
    { intros lo' H. destruct (IH _ _ _ _ H) as (st' & Hk & a & Ha).
      exists st'. split; [exact Hk|]. exists (c :: a). now rewrite Ha. }
    assert (Hhere : k (MState prev (c :: s) i caps) = Some x ->
              exists st', k st' = Some x /\ exists a, c :: s = a ++ m_rest st').
    { intros H. eexists. split; [exact H|]. now exists []. }
    destruct lo as [|lo].
    + destruct g.
      * destruct (p c).
        -- destruct (rep true p k 0 (Some c) s (S i) caps) eqn:E.
           ++ intros [= <-]. now apply (Hrec 0%nat).
           ++ exact Hhere.
        -- exact Hhere.
      * destruct (k (MState prev (c :: s) i caps)) eqn:E.
        -- intros [= <-]. now apply Hhere.
        -- destruct (p c); [apply Hrec | discriminate].
    + destruct (p c); [apply Hrec | discriminate].
Qed.

Lemma re_m_through r : forall k st x,
  re_m r k st = Some x ->
  exists st', k st' = Some x /\ exists a, m_rest st = a ++ m_rest st'.
Proof.
  induction r as [|c|p|a IHa b IHb|a IHa b IHb|g lo p|n r IH| |];
    intros k st x; cbn [re_m].
  - intros H. exists st. split; [exact H | now exists []].
  - destruct (m_rest st) as [|y s] eqn:E; [discriminate|].
    destruct (y =? c)%N; [|discriminate].
    intros H. eexists. split; [exact H|]. now exists [y].
  - destruct (m_rest st) as [|y s] eqn:E; [discriminate|].
    destruct (p y); [|discriminate].
    intros H. eexists. split; [exact H|]. now exists [y].
  - intros H. destruct (IHa _ _ _ H) as (st1 & H1 & a1 & E1).
    destruct (IHb _ _ _ H1) as (st2 & H2 & a2 & E2).
    exists st2. split; [exact H2|]. exists (a1 ++ a2).
    now rewrite E1, E2, app_assoc.
  - destruct (re_m a k st) eqn:E.
    + intros [= <-]. now apply IHa.
    + apply IHb.
  - intros H. destruct (rep_through _ _ _ _ _ _ _ _ _ H) as (st' & Hk & a & Ha).
    exists st'. split; [exact Hk|]. now exists a.
  - intros H. destruct (IH _ _ _ H) as (st1 & H1 & a1 & E1).
    eexists. split; [exact H1|]. now exists a1.
  - destruct (at_bol st); [|discriminate].
    intros H. exists st. split; [exact H | now exists []].
  - destruct (at_eol st); [|discriminate].
    intros H. exists st. split; [exact H | now exists []].
Qed.

(** A pattern does not match a text without a character it needs. *)
Lemma needs_spec c r : forall k st,
  needs c r = true -> ~ In c (m_rest st) -> re_m r k st = None.
Proof.
  induction r as [|x|p|a IHa b IHb|a IHa b IHb|g lo p|n r IH| |];
    intros k st; cbn [needs re_m]; try discriminate.
  - intros Hx Hin. apply N.eqb_eq in Hx. subst x.
    destruct (m_rest st) as [|y s]; [reflexivity|].
    destruct (y =? c)%N eqn:E; [|reflexivity].
    apply N.eqb_eq in E. subst y. elim Hin. now left.
  - intros Hn Hin. apply orb_prop in Hn as [Hn|Hn]; [now apply IHa|].
    destruct (re_m a (re_m b k) st) as [x|] eqn:E; [|reflexivity].
    destruct (re_m_through a (re_m b k) st x E) as (st1 & H1 & a1 & Ha).
    rewrite (IHb k st1) in H1; [discriminate | exact Hn|].
    intros Hc. apply Hin. rewrite Ha. apply in_or_app. now right.
  - intros Hn Hin. apply andb_prop in Hn as [Ha Hb].
    now rewrite IHa, IHb.
  - intros Hn Hin. now apply IH.
Qed.

Lemma match_here_without c r prev s i :
  needs c r = true -> ~ In c s -> match_here r prev s i = None.
Proof. intros Hn Hin. unfold match_here. now apply (needs_spec c). Qed.

(** [re.sub] leaves such a text as it is. *)
Lemma sub_go_without c r tmpl text : forall s prev i,
  needs c r = true -> ~ In c s -> sub_go r tmpl text 0 prev s i = s.
Proof.
  induction s as [|x s IH]; intros prev i Hn Hin; cbn [sub_go];
    rewrite (match_here_without c r) by assumption; [reflexivity|].
  f_equal. apply IH; [exact Hn|]. intros H. apply Hin. now right.
Qed.

Lemma re_sub_without c r tmpl text :
  needs c r = true -> ~ In c text -> re_sub r tmpl text = text.
Proof. intros. unfold re_sub. now apply (sub_go_without c). Qed.

(** [str.replace] leaves a text without an occurrence as it is. *)
Lemma str_replace_without old new s :
  str_contains old s = false -> str_replace old new s = s.
Proof.
  unfold str_replace. induction s as [|x s IH]; [reflexivity|].
  cbn [str_contains str_replace_go].
  destruct (strip_prefix old (x :: s)); [discriminate|].
  intros H. now rewrite IH.
Qed.

(** No occurrence of a text begins where its first character is absent. *)
Lemma contains_after c old s tail :
  ~ In c s -> str_contains (c :: old) (s ++ tail) = str_contains (c :: old) tail.
Proof.
  induction s as [|x s IH]; intros Hin; [reflexivity|].
  cbn [app str_contains strip_prefix].
  destruct (c =? x)%N eqn:E.
  - apply N.eqb_eq in E. subst x. elim Hin. now left.
  - apply IH. intros H. apply Hin. now right.
Qed.

Lemma is_plain_without text c :
  is_plain text = true -> In c markup_chars -> ~ In c text.
Proof.
  unfold is_plain. rewrite forallb_forall. intros H Hc Hin.
  specialize (H c Hin). apply negb_true_iff in H.
  assert (existsb (N.eqb c) markup_chars = true).
  { apply existsb_exists. exists c. split; [exact Hc | apply N.eqb_refl]. }
  congruence.
Qed.

End EngineFacts.

(** X18.  A text without any of the characters the conversion reacts to becomes
    one paragraph that holds the text unchanged. *)
Theorem plain_text_becomes_one_paragraph
    (nd : char -> bool) (text : pystr)
    (Hnonempty : text <> [])
    (Hplain : is_plain text = true) :
  Markdown.markdown_to_html nd text = py "<p>" ++ text ++ py "</p>".
Proof.
  assert (Hno : forall c, In c markup_chars -> ~ In c text)
    by (intros c; now apply is_plain_without).
  assert (Hc : forall c old, In c markup_chars -> str_contains (c :: old) text = false).
  { intros c old Hin. rewrite <- (app_nil_r text).
    rewrite contains_after by now apply Hno.
    reflexivity. }
  unfold Markdown.markdown_to_html.
  rewrite table_pass_without_pipe by (apply Hc; vm_compute; tauto).
  rewrite (re_sub_without 35%N (Markdown.heading_re "### ") _ text)
    by (try reflexivity; apply Hno; vm_compute; tauto).
  rewrite (re_sub_without 35%N (Markdown.heading_re "## ") _ text)
    by (try reflexivity; apply Hno; vm_compute; tauto).
  rewrite (re_sub_without 35%N (Markdown.heading_re "# ") _ text)
    by (try reflexivity; apply Hno; vm_compute; tauto).
  rewrite (re_sub_without 42%N Markdown.bold_re _ text)
    by (try reflexivity; apply Hno; vm_compute; tauto).
  rewrite (re_sub_without 42%N Markdown.italic_re _ text)
    by (try reflexivity; apply Hno; vm_compute; tauto).
  rewrite (re_sub_without 96%N Markdown.code_re _ text)
    by (try reflexivity; apply Hno; vm_compute; tauto).
  rewrite (re_sub_without 96%N Markdown.code_block_re _ text)
    by (try reflexivity; apply Hno; vm_compute; tauto).
  rewrite (re_sub_without 62%N Markdown.quote_re _ text)
    by (try reflexivity; apply Hno; vm_compute; tauto).
  rewrite (re_sub_without 45%N Markdown.ul_item_re _ text)
    by (try reflexivity; apply Hno; vm_compute; tauto).
  rewrite (re_sub_without 60%N Markdown.li_re _ text)
    by (try reflexivity; apply Hno; vm_compute; tauto).
  rewrite (re_sub_without 46%N (Markdown.ol_item_re nd) _ text)
    by (try reflexivity; apply Hno; vm_compute; tauto).
  rewrite (re_sub_without 60%N Markdown.li_re _ text)
    by (try reflexivity; apply Hno; vm_compute; tauto).
  rewrite (re_sub_without 45%N Markdown.hr_re _ text)
    by (try reflexivity; apply Hno; vm_compute; tauto).
  rewrite (re_sub_without 91%N Markdown.link_re _ text)
    by (try reflexivity; apply Hno; vm_compute; tauto).
  rewrite (str_replace_without [NL; NL] _ text) by (apply Hc; vm_compute; tauto).
  rewrite (str_replace_without [NL] _ text) by (apply Hc; vm_compute; tauto).
  assert (Hlt : forall old tail, str_contains (60%N :: old) (text ++ tail)
                                = str_contains (60%N :: old) tail).
  { intros old tail. apply contains_after, Hno. vm_compute. tauto. }
  assert (H1 : str_contains (py "</p><p></p>") (py "<p>" ++ text ++ py "</p>") = false).
  { change (py "<p>" ++ text ++ py "</p>")
      with (60%N :: 112%N :: 62%N :: text ++ py "</p>").
    change (py "</p><p></p>") with (60%N :: 47%N :: tl (tl (py "</p><p></p>"))).
    cbn [str_contains strip_prefix].
    rewrite N.eqb_refl.
    change (47 =? 112)%N with false. change (60 =? 112)%N with false.
    change (60 =? 62)%N with false. cbv iota.
    rewrite Hlt. vm_compute. reflexivity. }
  rewrite (str_replace_without _ _ _ H1).
  apply str_replace_without.
  destruct text as [|x text]; [congruence|].
  assert (Hx : (60 =? x)%N = false).
  { destruct (60 =? x)%N eqn:E; [|reflexivity].
    apply N.eqb_eq in E. subst x.
    elim (Hno 60%N); [vm_compute; tauto | now left]. }
  change (py "<p>" ++ (x :: text) ++ py "</p>")
    with (60%N :: 112%N :: 62%N :: (x :: text) ++ py "</p>").
  change (py "<p></p>") with (60%N :: 112%N :: 62%N :: 60%N :: tl (tl (tl (tl (py "<p></p>"))))).
  cbn [str_contains strip_prefix].
  rewrite !N.eqb_refl.
  change (60 =? 112)%N with false. change (60 =? 62)%N with false.
  rewrite Hlt.
  cbn [app strip_prefix]. rewrite Hx. cbv iota.
  vm_compute. reflexivity.
Qed.

Lemma plain_text_becomes_one_paragraph_witness :
  Markdown.markdown_to_html (fun _ => false) (py "All samplers passed")
  = py "<p>" ++ py "All samplers passed" ++ py "</p>".
Proof.
  apply plain_text_becomes_one_paragraph; [discriminate | vm_compute; reflexivity].
Defined.
(** ** The test information of the dashboard *)

Section SamePatterns.

Variable P : char -> Prop.

Lemma same_on_refl r : same_on P r r.
Proof.
  induction r; cbn [same_on]; auto.
Qed.

Lemma rep_same g p q k1 k2 : forall s lo prev i caps,
  List.Forall P s ->
  (forall c, P c -> p c = q c) ->
  (forall st', (exists a, s = a ++ m_rest st') -> k1 st' = k2 st') ->
  rep g p k1 lo prev s i caps = rep g q k2 lo prev s i caps.
Proof.
  induction s as [|c s IH]; intros lo prev i caps HP Hpq Hk; cbn [rep].
  - destruct lo; [|reflexivity]. apply Hk. now exists [].
  - inversion HP as [|? ? Hc Hs]; subst.
    assert (Hrec : forall lo',
              rep g p k1 lo' (Some c) s (S i) caps
              = rep g q k2 lo' (Some c) s (S i) caps).
    { intros lo'. apply IH; [exact Hs | exact Hpq|].
      intros st' [a Ha]. apply Hk. exists (c :: a). now rewrite Ha. }
    assert (Hhere : k1 (MState prev (c :: s) i caps) = k2 (MState prev (c :: s) i caps)).
    { apply Hk. now exists []. }
    destruct lo; rewrite (Hpq c Hc), ?Hhere, ?Hrec; reflexivity.
Qed.

(** Patterns that agree on the characters of a text read it alike. *)
Lemma re_m_same r1 : forall r2 k1 k2 st,
  same_on P r1 r2 ->
  List.Forall P (m_rest st) ->
  (forall st', (exists a, m_rest st = a ++ m_rest st') -> k1 st' = k2 st') ->
  re_m r1 k1 st = re_m r2 k2 st.
Proof.
  induction r1 as [|c|p|a IHa b IHb|a IHa b IHb|g lo p|n r IH| |];
    intros r2 k1 k2 st Hs HP Hk; destruct r2; cbn [same_on] in Hs;
    try contradiction; cbn [re_m].
  - apply Hk. now exists [].
  - subst. destruct (m_rest st) as [|x s] eqn:E; [reflexivity|].
    destruct (x =? c0)%N; [|reflexivity]. apply Hk. exists [x]. first [now rewrite E | reflexivity].
  - destruct (m_rest st) as [|x s] eqn:E; [reflexivity|].
    inversion HP as [|? ? Hx Hrest]; subst.
    rewrite (Hs x Hx). destruct (p0 x); [|reflexivity].
    apply Hk. exists [x]. first [now rewrite E | reflexivity].
  - destruct Hs as [Ha Hb]. apply IHa; [exact Ha | exact HP|].
    intros st1 [a1 E1]. apply IHb; [exact Hb| |].
    + rewrite E1 in HP. now apply Forall_app in HP as [_ H].
    + intros st2 [a2 E2]. apply Hk. exists (a1 ++ a2).
      now rewrite E1, E2, app_assoc.
  - destruct Hs as [Ha Hb].
    rewrite (IHa _ k1 k2 st Ha HP Hk), (IHb _ k1 k2 st Hb HP Hk). reflexivity.
  - destruct Hs as (-> & -> & Hpq). now apply rep_same.
  - destruct Hs as [-> Hr]. apply IH; [exact Hr | exact HP|].
    intros st1 H1. cbn beta. apply Hk.
    destruct H1 as [a1 E1]. now exists a1.
  - destruct (at_bol st); [|reflexivity]. apply Hk. now exists [].
  - destruct (at_eol st); [|reflexivity]. apply Hk. now exists [].
Qed.

Lemma search_from_same r1 r2 (Hs0 : same_on P r1 r2) : forall s prev i,
  List.Forall P s ->
  search_from r1 prev s i = search_from r2 prev s i.
Proof.
  assert (Hhere : forall s prev i, List.Forall P s ->
            match_here r1 prev s i = match_here r2 prev s i).
  { intros s prev i HP. unfold match_here.
    apply re_m_same; [exact Hs0 | exact HP | reflexivity]. }
  induction s as [|c s IH]; intros prev i HP; cbn [search_from];
    rewrite (Hhere _ prev i HP); [reflexivity|].
  inversion HP; subst. now rewrite IH.
Qed.

End SamePatterns.

Section TestInfoFacts.
Import Dashboard.

Lemma td_same : same_on on_line td_re td_dotall_re.
Proof.
  unfold td_re, td_dotall_re. cbn [seq_re fold_right same_on].
  repeat split; try apply same_on_refl.
  intros c Hc. exact Hc.
Qed.

Lemma on_line_forall s : forallb dot s = true -> List.Forall on_line s.
Proof.
  rewrite forallb_forall. intros H. apply List.Forall_forall. exact H.
Qed.

(** In a row on one line both look-ups find the same cell. *)
Lemma td_look_ups_agree item :
  forallb dot item = true ->
  search_group1 td_re item = search_group1 td_dotall_re item.
Proof.
  intros H. unfold search_group1, re_search.
  now rewrite (search_from_same on_line td_re td_dotall_re td_same item None 0
                 (on_line_forall item H)).
Qed.

(** What the engine returns for a group is cut out of the text. *)
Lemma group_on_line text st n :
  forallb dot text = true -> forallb dot (group text st n) = true.
Proof.
  intros H. unfold group. destruct (cap_lookup n (m_caps st)) as [[a b]|];
    [|reflexivity].
  unfold slice.
  assert (HF : List.Forall (fun c => dot c = true) text)
    by (apply List.Forall_forall; now apply forallb_forall).
  apply forallb_forall, List.Forall_forall.
  now apply Forall_take, Forall_drop.
Qed.

Lemma findall_on_line r text : forall s skip prev i,
  forallb dot text = true ->
  List.Forall (fun g => forallb dot g = true) (findall_go r text skip prev s i).
Proof.
  induction s as [|c s IH]; intros skip prev i H; destruct skip; cbn [findall_go];
    try constructor.
  - destruct (match_here r prev [] i); constructor; [now apply group_on_line|constructor].
  - destruct (match_here r prev (c :: s) i) as [st|]; [|now apply IH].
    constructor; [now apply group_on_line|].
    destruct (m_pos st - i)%nat; [|now apply IH].
    destruct (match_nonempty_here r prev (c :: s) i); [|now apply IH].
    constructor; [now apply group_on_line | now apply IH].
  - now apply IH.
Qed.

Lemma test_info_rows_same_cell items : forall m : gmap pystr pystr,
  List.Forall (fun item => forallb dot item = true) items ->
  (forall key value, m !! key = Some value -> value = key) ->
  forall key value,
    fold_left (fun m item =>
                 match search_group1 td_re item, search_group1 td_dotall_re item with
                 | Some key, Some value => <[str_strip key := str_strip value]> m
                 | _, _ => m
                 end) items m !! key = Some value ->
    value = key.
Proof.
  induction items as [|item items IH]; intros m Hitems Hm; [exact Hm|].
  inversion Hitems as [|? ? Hitem Hrest]; subst.
  cbn [fold_left]. apply IH; [exact Hrest|].
  rewrite (td_look_ups_agree item Hitem).
  destruct (search_group1 td_dotall_re item) as [cell|]; [|exact Hm].
  intros key value. destruct (decide (str_strip cell = key)) as [<-|Hne].
  - rewrite lookup_insert_eq. now intros [= <-].
  - rewrite lookup_insert_ne by exact Hne. apply Hm.
Qed.

End TestInfoFacts.

(** X19. For a dashboard page written on one line, every entry of the test
    information maps the text of a row's first cell to itself: both look-ups
    of a row use the same pattern, so the second cell is never read. *)
Theorem test_info_maps_first_cell_to_itself
    (content key value : pystr)
    (Hline : forallb dot content = true)
    (Hentry : Dashboard.test_info content !! key = Some value) :
  value = key.
Proof.
  revert Hentry. unfold Dashboard.test_info, Dashboard.section_html.
  unfold Dashboard.search_group1 at 1.
  destruct (re_search _ content) as [[start st]|];
    [|rewrite lookup_empty; discriminate].
  apply test_info_rows_same_cell.
  - apply findall_on_line. now apply group_on_line.
  - intros k v. rewrite lookup_empty. discriminate.
Qed.

Lemma test_info_maps_first_cell_to_itself_witness :
  let content :=
    py "<h2>Test and Report information</h2><table><tr><td>Source file</td><td>run.jtl</td></tr></table></div>" in
  Dashboard.test_info content !! py "Source file" = Some (py "Source file").
Proof.
  cbv zeta.
  destruct (Dashboard.test_info _ !! py "Source file") as [value|] eqn:E;
    [|vm_compute in E; discriminate E].
  f_equal.
  refine (test_info_maps_first_cell_to_itself _ _ _ _ E).
  vm_compute. reflexivity.
Defined.
